(** * Maze core of the zyrath-incident game: grid, generator, spawn
      allocator, lane-confined agents, combat and player collision.

    The development follows [game.js] (the basic edition) and the
    mode-select edition of the same file (Hunt / Survival).  The two
    editions share the maze and AI core.  Where they differ, the
    collision radius is a parameter and [updateJumpers] has a module
    for each edition.

    Numbers.  JavaScript numbers are modelled as exact rationals [Q]
    (no NaN, no infinities, no rounding); grid indices, which the code
    obtains through [Math.floor], are integers [Z].  A comparison
    [distance < r] of a Euclidean distance with a non-negative radius is
    written on the squares, which is the same comparison without the
    square root. *)

From Stdlib Require Import ZArith QArith Qround Qabs Qminmax.
From Stdlib Require Import List Bool Lia Lqa.
Import ListNotations.

Open Scope Q_scope.

(* ================================================================== *)
(** * Numbers and vectors                                              *)
(* ================================================================== *)

Definition Qleb (a b : Q) : bool := Qle_bool a b.
Definition Qltb (a b : Q) : bool := negb (Qle_bool b a).

(** [THREE.Vector3]: only the three coordinates matter here. *)
Record Vector3 : Type := vec3 { vx : Q; vy : Q; vz : Q }.

Definition MAZE_SIZE : Z := 30.

(** [MAZE_SIZE / 2], the offset between world and grid coordinates. *)
Definition halfSize : Q := inject_Z MAZE_SIZE / 2.

(* ================================================================== *)
(** * Grid and collision model                                         *)
(* ================================================================== *)

Module Grid.

(** [maze[x][z]]: 1 is a wall, 0 is open. *)
Definition Maze : Type := list (list Z).

Definition WALL : Z := 1%Z.
Definition OPEN : Z := 0%Z.

(** Array read [a[i]]: [None] is JavaScript's [undefined] (negative or
    too large an index). *)
Definition index {A : Type} (a : list A) (i : Z) : option A :=
  if (i <? 0)%Z then None else nth_error a (Z.to_nat i).

(** The test [maze[x][z] === 1].  Reading a column of an undefined row
    throws a TypeError, modelled as [None]; an undefined cell of an
    existing row is just not equal to 1. *)
Definition isWallCell (maze : Maze) (x z : Z) : option bool :=
  match index maze x with
  | None => None
  | Some row =>
      match index row z with
      | Some c => Some (c =? WALL)%Z
      | None => Some false
      end
  end.

(** [g < 0 || g >= MAZE_SIZE] on either axis. *)
Definition outside (gx gz : Z) : bool :=
  (gx <? 0)%Z || (gx >=? MAZE_SIZE)%Z || (gz <? 0)%Z || (gz >=? MAZE_SIZE)%Z.

(** The loop over [checkPoints] of [isWallAt]: a point outside the grid
    or in a wall cell blocks. *)
Fixpoint checkPointsLoop (maze : Maze) (pts : list (Q * Q)) : option bool :=
  match pts with
  | [] => Some false
  | (px, pz) :: rest =>
      let cx := Qfloor px in
      let cz := Qfloor pz in
      if outside cx cz then Some true
      else match isWallCell maze cx cz with
           | None => None
           | Some true => Some true
           | Some false => checkPointsLoop maze rest
           end
  end.

(** [isWallAt(position)], the thick-body test of the player and of the
    bullets.  [playerRadius] is 0.25 in the basic edition and 0.35 in
    the mode-select edition. *)
Definition isWallAt (playerRadius : Q) (maze : Maze) (position : Vector3)
  : option bool :=
  let gridX := Qfloor (vx position + halfSize) in
  let gridZ := Qfloor (vz position + halfSize) in
  if outside gridX gridZ then Some true
  else match isWallCell maze gridX gridZ with
       | None => None
       | Some true => Some true
       | Some false =>
           let playerGridX := vx position + halfSize in
           let playerGridZ := vz position + halfSize in
           checkPointsLoop maze
             [ (playerGridX - playerRadius, playerGridZ - playerRadius);
               (playerGridX + playerRadius, playerGridZ - playerRadius);
               (playerGridX - playerRadius, playerGridZ + playerRadius);
               (playerGridX + playerRadius, playerGridZ + playerRadius);
               (playerGridX - playerRadius, playerGridZ);
               (playerGridX + playerRadius, playerGridZ);
               (playerGridX, playerGridZ - playerRadius);
               (playerGridX, playerGridZ + playerRadius) ]
       end.

(** The loop over [corners] of [isWallAtZombie]: only a corner inside
    the grid can block. *)
Fixpoint cornersLoop (maze : Maze) (pts : list (Q * Q)) : option bool :=
  match pts with
  | [] => Some false
  | (px, pz) :: rest =>
      let cornerGridX := Qfloor px in
      let cornerGridZ := Qfloor pz in
      if negb (outside cornerGridX cornerGridZ) then
        match isWallCell maze cornerGridX cornerGridZ with
        | None => None
        | Some true => Some true
        | Some false => cornersLoop maze rest
        end
      else cornersLoop maze rest
  end.

Definition zombieRadius : Q := 1 # 1000.

(** [isWallAtZombie(position)], the thin-body test. *)
Definition isWallAtZombie (maze : Maze) (position : Vector3) : option bool :=
  let gridX := Qfloor (vx position + halfSize) in
  let gridZ := Qfloor (vz position + halfSize) in
  if outside gridX gridZ then Some true
  else match isWallCell maze gridX gridZ with
       | None => None
       | Some true => Some true
       | Some false =>
           let cellX := vx position + halfSize in
           let cellZ := vz position + halfSize in
           cornersLoop maze
             [ (cellX - zombieRadius, cellZ - zombieRadius);
               (cellX + zombieRadius, cellZ - zombieRadius);
               (cellX - zombieRadius, cellZ + zombieRadius);
               (cellX + zombieRadius, cellZ + zombieRadius) ]
       end.

(** The grid cell of a world position, [floor(p + MAZE_SIZE/2)]. *)
Definition gridCoord (position : Vector3) : Z * Z :=
  (Qfloor (vx position + halfSize), Qfloor (vz position + halfSize)).

(** A grid with all its [MAZE_SIZE] rows: every guarded read succeeds. *)
Definition hasRows (maze : Maze) : Prop := length maze = Z.to_nat MAZE_SIZE.

End Grid.

(* ================================================================== *)
(** * Maze generator                                                   *)
(* ================================================================== *)

Module MazeGen.
Import Grid.

(** Array write [a[i] = v] at an existing index.  The generator
    writes inside the 30 x 30 grid only: the carving loop between 1 and
    MAZE_SIZE - 2, the noise pass between 2 and MAZE_SIZE - 2 (for a
    random number below 1), the clearing passes at fixed or guarded
    cells.  Elsewhere the model leaves the array as it is. *)
Fixpoint setNth {A : Type} (a : list A) (n : nat) (v : A) : list A :=
  match a, n with
  | [], _ => []
  | _ :: rest, O => v :: rest
  | h :: rest, S k => h :: setNth rest k v
  end.

Definition setIndex {A : Type} (a : list A) (i : Z) (v : A) : list A :=
  if (i <? 0)%Z then a else setNth a (Z.to_nat i) v.

(** [maze[x][y] = v]. *)
Definition setCell (maze : Maze) (x y : Z) (v : Z) : Maze :=
  match index maze x with
  | Some row => setIndex maze x (setIndex row y v)
  | None => maze
  end.

(** The initial grid: [MAZE_SIZE] rows of [MAZE_SIZE] walls. *)
Definition allWalls : Maze :=
  repeat (repeat WALL (Z.to_nat MAZE_SIZE)) (Z.to_nat MAZE_SIZE).

(** The [visited] set of keys ["x,y"], as the list of the cells added. *)
Definition Cell : Type := (Z * Z)%type.

Definition cellEqb (a b : Cell) : bool :=
  (fst a =? fst b)%Z && (snd a =? snd b)%Z.

Definition has (visited : list Cell) (c : Cell) : bool :=
  existsb (cellEqb c) visited.

Definition directions : list (Z * Z) :=
  [ (0, 2); (2, 0); (0, -2); (-2, 0) ]%Z.

(** [getNeighbors(x, y)]: the unvisited cells at distance 2 inside the
    border, each with the wall cell in between, as
    [(nx, ny, wallX, wallY)]. *)
Definition getNeighbors (visited : list Cell) (x y : Z)
  : list (Z * Z * Z * Z) :=
  flat_map
    (fun d : Z * Z =>
       let (dx, dy) := d in
       let nx := (x + dx)%Z in
       let ny := (y + dy)%Z in
       if ((nx >=? 1) && (nx <? MAZE_SIZE - 1) &&
           (ny >=? 1) && (ny <? MAZE_SIZE - 1))%Z%bool
       then if negb (has visited (nx, ny))
            then [ (nx, ny, (x + dx / 2)%Z, (y + dy / 2)%Z) ]
            else []
       else [])
    directions.

(** The state of the carving loop.  [calls] counts the calls of
    [Math.random()] made so far; [stack] has its top first. *)
Record Carve : Type := mkCarve {
  maze : Maze;
  visited : list Cell;
  stack : list Cell;
  current : Cell;
  calls : nat
}.

(** What one turn of [while (true)] does. *)
Inductive Turn : Type :=
| Continue (s : Carve)
| Break (s : Carve)
| Throw.

Section WithRandom.

(** The source of randomness: [random n] is the value returned by the
    [n]-th call of [Math.random()], a number of [0, 1). *)
Variable random : nat -> Q.

Definition carveTurn (s : Carve) : Turn :=
  let neighbors := getNeighbors (visited s) (fst (current s)) (snd (current s)) in
  if (0 <? length neighbors)%nat then
    let pick :=
      Qfloor (random (calls s) * inject_Z (Z.of_nat (length neighbors))) in
    match index neighbors pick with
    | Some (nx, ny, wallX, wallY) =>
        Continue
          {| maze := setCell (setCell (maze s) wallX wallY OPEN) nx ny OPEN;
             visited := (nx, ny) :: visited s;
             stack := current s :: stack s;
             current := (nx, ny);
             calls := S (calls s) |}
    | None => Throw
    end
  else
    match stack s with
    | top :: rest =>
        Continue
          {| maze := maze s; visited := visited s; stack := rest;
             current := top; calls := calls s |}
    | [] => Break s
    end.

(** The carving loop, for at most [fuel] turns.  [None] stands for a
    run that does not leave the loop normally: an exception, or the
    turns used up. *)
Fixpoint carveLoop (fuel : nat) (s : Carve) : option Carve :=
  match fuel with
  | O => None
  | S fuel' =>
      match carveTurn s with
      | Continue s' => carveLoop fuel' s'
      | Break s' => Some s'
      | Throw => None
      end
  end.

(** The state in which the loop is entered: the entrance (1,1) is open
    and visited. *)
Definition carveStart : Carve :=
  {| maze := setCell allWalls 1 1 OPEN;
     visited := [ (1, 1)%Z ];
     stack := [];
     current := (1, 1)%Z;
     calls := O |}.

(** The loop "Add some random dead ends and false paths": [attempts]
    turns are left.  Both calls of [Math.random()] of the two [if]s are
    made, whatever the bound test says, since they come first in the
    conjunctions. *)
Fixpoint noisePass (attempts : nat) (m : Maze) (n : nat) : option (Maze * nat) :=
  match attempts with
  | O => Some (m, n)
  | S attempts' =>
      let x := (Qfloor (random n * inject_Z (MAZE_SIZE - 4)) + 2)%Z in
      let y := (Qfloor (random (S n) * inject_Z (MAZE_SIZE - 4)) + 2)%Z in
      match isWallCell m x y with
      | None => None
      | Some false => noisePass attempts' m (S (S n))
      | Some true =>
          let m1 := setCell m x y OPEN in
          let m2 :=
            if Qltb (1 # 2) (random (S (S n))) && (x + 1 <? MAZE_SIZE - 1)%Z
            then setCell m1 (x + 1) y OPEN else m1 in
          let m3 :=
            if Qltb (1 # 2) (random (S (S (S n)))) && (y + 1 <? MAZE_SIZE - 1)%Z
            then setCell m2 x (y + 1) OPEN else m2 in
          noisePass attempts' m3 (S (S (S (S n))))
      end
  end.

End WithRandom.

(** "Ensure path to exit exists - clear final area". *)
Definition clearExit (m : Maze) : Maze :=
  let m1 := setCell m (MAZE_SIZE - 2) (MAZE_SIZE - 2) OPEN in
  let m2 := setCell m1 (MAZE_SIZE - 2) (MAZE_SIZE - 3) OPEN in
  let m3 := setCell m2 (MAZE_SIZE - 3) (MAZE_SIZE - 2) OPEN in
  setCell m3 (MAZE_SIZE - 3) (MAZE_SIZE - 3) OPEN.

Definition pistolMazeX : Z := Qfloor (- (6) + halfSize).
Definition pistolMazeZ : Z := Qfloor (3 + halfSize).

(** "Clear a small area around the pistol location": the two nested
    loops over [dx] and [dz] in -1 .. 1. *)
Definition clearPickup (m : Maze) : Maze :=
  fold_left
    (fun (acc : Maze) (d : Z * Z) =>
       let x := (pistolMazeX + fst d)%Z in
       let z := (pistolMazeZ + snd d)%Z in
       if negb (outside x z) then setCell acc x z OPEN else acc)
    (list_prod [ -1; 0; 1 ]%Z [ -1; 0; 1 ]%Z)
    m.

(** More turns than the carving loop ever takes (at most 391). *)
Definition carveFuel : nat := 400.

(** The grid part of [generateMaze()]: carve, noise pass, exit corner,
    pickup area. *)
Definition generateMaze (random : nat -> Q) : option Maze :=
  match carveLoop random carveFuel carveStart with
  | None => None
  | Some s =>
      match noisePass random 15 (maze s) (calls s) with
      | None => None
      | Some (m, _) => Some (clearPickup (clearExit m))
      end
  end.

(** The cell [(x, y)] is open. *)
Definition isOpen (m : Maze) (c : Cell) : bool :=
  match index m (fst c) with
  | Some row => match index row (snd c) with
                | Some v => (v =? OPEN)%Z
                | None => false
                end
  | None => false
  end.

(** One step of a walk through the maze: from an open cell to one of
    its four neighbours, open too. *)
Definition adjacent (a b : Cell) : Prop :=
  (fst a = fst b /\ Z.abs (snd a - snd b) = 1)%Z \/
  (snd a = snd b /\ Z.abs (fst a - fst b) = 1)%Z.

(** [reaches m a b]: a flood-fill of the open cells started at [a]
    gets to [b]. *)
Inductive reaches (m : Maze) (a : Cell) : Cell -> Prop :=
| reaches_start : isOpen m a = true -> reaches m a a
| reaches_step (b c : Cell) :
    reaches m a b -> adjacent b c -> isOpen m c = true -> reaches m a c.

(** A grid of [MAZE_SIZE] rows of [MAZE_SIZE] cells. *)
Definition wellShaped (m : Maze) : Prop :=
  length m = Z.to_nat MAZE_SIZE /\
  Forall (fun row => length row = Z.to_nat MAZE_SIZE) m.

(** [Math.random()] returns a number of [0, 1). *)
Definition legal (random : nat -> Q) : Prop :=
  forall n : nat, 0 <= random n /\ random n < 1.

(** The cells the carving loop visits: odd coordinates from 1 to 27. *)
Definition odds : list Z := map (fun k => (2 * Z.of_nat k + 1)%Z) (seq 0 14).
Definition lattice : list Cell := list_prod odds odds.

(** What the carving loop maintains: the grid keeps its shape, the
    current cell and the cells on the stack are open, and every open
    cell is reached from the entrance. *)
Definition carveInvariant (s : Carve) : Prop :=
  wellShaped (maze s) /\
  isOpen (maze s) (current s) = true /\
  Forall (fun c => isOpen (maze s) c = true) (stack s) /\
  (forall c : Cell, isOpen (maze s) c = true -> reaches (maze s) (1, 1)%Z c).

(** What bounds the carving loop: the visited cells are distinct cells
    of the lattice, and so are the current cell and those on the
    stack. *)
Definition carveBounded (s : Carve) : Prop :=
  NoDup (visited s) /\
  incl (visited s) lattice /\
  In (current s) lattice /\
  incl (stack s) lattice.

(** The turns left at most: two for each cell not yet visited, one for
    each cell on the stack. *)
Definition turnsLeft (s : Carve) : nat :=
  2 * (length lattice - length (visited s)) + length (stack s).

(** The oracle of the failing run: alternately 0 and 1/2 while the
    maze is carved (195 calls), then 0.32 and 0.08, which make the first
    noise attempt fall on cell (10, 4), then 0. *)
Definition isolatingRandom (n : nat) : Q :=
  if (n <? 195)%nat then inject_Z (Z.of_nat n mod 2) / 2
  else nth (n - 195) [ 32 # 100; 8 # 100 ] 0.

End MazeGen.

(* ================================================================== *)
(** * Corridors, lanes and agents: the data                            *)
(* ================================================================== *)

Module Entities.

Inductive CorridorType : Type := horizontal | vertical.

(** A corridor object.  For a horizontal one [cstart], [cend] and
    [cfixed] are the fields [startX], [endX] and [z]; for a vertical one
    they are [startZ], [endZ] and [x].  The field [id] is a string made
    of the type, the start, the fixed coordinate and the length, so two
    corridors have the same id exactly when they are equal here. *)
Record Corridor : Type := mkCorridor {
  ctype : CorridorType;
  cstart : Z;
  cend : Z;
  cfixed : Z;
  clength : Z
}.

Inductive Axis : Type := axisX | axisZ.

(** The [lane] object stored in [laneInfo] (its [name] is left out). *)
Record Lane : Type := mkLane {
  xMin : Q;
  xMax : Q;
  zMin : Q;
  zMax : Q;
  axis : Axis;
  fixedCoord : Q
}.

Inductive State : Type := hopping | chasing | queued.

(** An entry of [jumpers].  Left out: the mesh, and the fields the
    update never reads ([speed], [health], [lastAttackTime],
    [laneName], [chaseRange]).  [patrolDirection] is 1 or -1.
    [globalChase] exists in the mode-select edition only, where it is
    undefined, hence false, until Survival sets it. *)
Record Jumper : Type := mkJumper {
  position : Vector3;
  direction : Vector3;
  state : State;
  laneInfo : Lane;
  patrolAxis : Axis;
  patrolMin : Q;
  patrolMax : Q;
  patrolDirection : Z;
  jumpPhase : Q;
  baseY : Q;
  globalChase : bool
}.

Definition ctypeEqb (a b : CorridorType) : bool :=
  match a, b with
  | horizontal, horizontal | vertical, vertical => true
  | _, _ => false
  end.

Definition corridorEqb (a b : Corridor) : bool :=
  ctypeEqb (ctype a) (ctype b) && (cstart a =? cstart b)%Z &&
  (cend a =? cend b)%Z && (cfixed a =? cfixed b)%Z &&
  (clength a =? clength b)%Z.

Definition axisEqb (a b : Axis) : bool :=
  match a, b with
  | axisX, axisX | axisZ, axisZ => true
  | _, _ => false
  end.

Definition stateEqb (a b : State) : bool :=
  match a, b with
  | hopping, hopping | chasing, chasing | queued, queued => true
  | _, _ => false
  end.

(** The coordinate of a position along an axis. *)
Definition along (a : Axis) (p : Vector3) : Q :=
  match a with axisX => vx p | axisZ => vz p end.

End Entities.

(* ================================================================== *)
(** * Corridor extractor and spawn allocator ([createJumpers])         *)
(* ================================================================== *)

Module Spawn.
Import Grid MazeGen Entities.

Definition JUMPER_COUNT : nat := 15.

(** The indices 1 .. MAZE_SIZE - 2 of both scans. *)
Definition inner : list Z := map Z.of_nat (seq 1 (Z.to_nat MAZE_SIZE - 2)).

(** [if (!usedCorridors.has(corridorId)) { corridors.push(...);
    usedCorridors.add(corridorId) }]: the ids in [usedCorridors] are
    those of the corridors pushed so far. *)
Definition pushNew (corridors : list Corridor) (c : Corridor) : list Corridor :=
  if existsb (corridorEqb c) corridors then corridors else corridors ++ [c].

(** The corridor pushed for a run of [length] cells from [start]. *)
Definition runCorridor (t : CorridorType) (fixed start length : Z) : Corridor :=
  {| ctype := t; cstart := start; cend := (start + length - 1)%Z;
     cfixed := fixed; clength := length |}.

(** A corridor as the scans push them: a run of at least two cells. *)
Definition isRun (c : Corridor) : Prop :=
  exists t fixed start length,
    c = runCorridor t fixed start length /\ (2 <= length)%Z.

(** The inner loop of a scan, along one row or column: [cellOpen i]
    is the test [maze[..][..] === 0] at index [i] of the line; [start]
    and [length] are the loop's variables.  The scans read rows
    1 .. MAZE_SIZE - 2 only, which every generated grid has. *)
Fixpoint scanLine (t : CorridorType) (fixed : Z) (cellOpen : Z -> bool)
    (line : list Z) (start length : Z) (corridors : list Corridor)
  : list Corridor :=
  match line with
  | [] =>
      if (length >=? 2)%Z then pushNew corridors (runCorridor t fixed start length)
      else corridors
  | i :: rest =>
      if cellOpen i then
        scanLine t fixed cellOpen rest
          (if (start =? -1)%Z then i else start) (length + 1)%Z corridors
      else
        scanLine t fixed cellOpen rest (-1)%Z 0%Z
          (if (length >=? 2)%Z then pushNew corridors (runCorridor t fixed start length)
           else corridors)
  end.

(** Both scans: the rows first (horizontal corridors), then the
    columns. *)
Definition findCorridors (maze : Maze) : list Corridor :=
  let rows :=
    fold_left
      (fun acc z =>
         scanLine horizontal z (fun x => isOpen maze (x, z)) inner (-1)%Z 0%Z acc)
      inner [] in
  fold_left
    (fun acc x =>
       scanLine vertical x (fun z => isOpen maze (x, z)) inner (-1)%Z 0%Z acc)
    inner rows.

(** [Array.prototype.sort] with a comparator is stable: an insertion
    sort that puts an element after the ones it does not precede. *)
Fixpoint insertBy (cmp : Corridor -> Corridor -> Z) (c : Corridor)
    (sorted : list Corridor) : list Corridor :=
  match sorted with
  | [] => [c]
  | h :: rest =>
      if (cmp c h <? 0)%Z then c :: h :: rest
      else h :: insertBy cmp c rest
  end.

Definition sortBy (cmp : Corridor -> Corridor -> Z) (l : list Corridor)
  : list Corridor :=
  fold_left (fun sorted c => insertBy cmp c sorted) l [].

(** The first comparator: by type (['horizontal'] before ['vertical']),
    then by row or column. *)
Definition byPosition (a b : Corridor) : Z :=
  match ctype a, ctype b with
  | horizontal, vertical => (-1)%Z
  | vertical, horizontal => 1%Z
  | _, _ => (cfixed a - cfixed b)%Z
  end.

(** The second comparator: longest first. *)
Definition byLength (a b : Corridor) : Z := (clength b - clength a)%Z.

(** The spacing loop: some selected corridor of the same type lies
    closer than [minDistance] (4.0 in the first pass, 2.0 in the
    second; the coordinates are integers). *)
Definition tooClose (minDistance : Z) (selected : list Corridor)
    (corridor : Corridor) : bool :=
  existsb
    (fun s =>
       let dist := Z.abs (cfixed corridor - cfixed s) in
       ctypeEqb (ctype corridor) (ctype s) && (dist <? minDistance)%Z)
    selected.

(** "First pass: Select long corridors (length >= 5)". *)
Fixpoint firstPass (corridors selected : list Corridor) : list Corridor :=
  match corridors with
  | [] => selected
  | corridor :: rest =>
      if (JUMPER_COUNT <=? length selected)%nat then selected
      else if (clength corridor >=? 5)%Z then
             if tooClose 4 selected corridor then firstPass rest selected
             else firstPass rest (selected ++ [corridor])
           else firstPass rest selected
  end.

(** "Second pass: Fill remaining slots with any corridors".  The test
    [selectedCorridors.includes(corridor)] compares objects; an object
    is in the list exactly when an equal corridor is, the scan pushing
    no two equal ones. *)
Fixpoint secondPass (corridors selected : list Corridor) : list Corridor :=
  match corridors with
  | [] => selected
  | corridor :: rest =>
      if (JUMPER_COUNT <=? length selected)%nat then selected
      else if existsb (corridorEqb corridor) selected then secondPass rest selected
           else if tooClose 2 selected corridor then secondPass rest selected
                else secondPass rest (selected ++ [corridor])
  end.

(** The selection of [createJumpers] from the sorted corridors. *)
Definition selectCorridors (corridors : list Corridor) : list Corridor :=
  secondPass corridors (firstPass corridors []).

(** The spacing of a selection: any two of its corridors of the same
    orientation, at different places of the list, have fixed
    coordinates at least [minDistance] apart. *)
Definition spaced (minDistance : Z) (selected : list Corridor) : Prop :=
  forall (i j : nat) (a b : Corridor),
    i <> j ->
    nth_error selected i = Some a ->
    nth_error selected j = Some b ->
    ctype a = ctype b ->
    (minDistance <= Z.abs (cfixed a - cfixed b))%Z.

Definition toWorld (g : Z) : Q := inject_Z g - halfSize.

(** The agent made for a selected corridor; [phase] is its random
    initial [jumpPhase]. *)
Definition spawnJumper (phase : Q) (corridor : Corridor) : Jumper :=
  match ctype corridor with
  | horizontal =>
      let worldZ := toWorld (cfixed corridor) in
      let worldStartX := toWorld (cstart corridor) in
      let worldEndX := toWorld (cend corridor) in
      let centerX := (worldStartX + worldEndX) / 2 in
      {| position := vec3 centerX (8 # 10) worldZ;
         direction := vec3 1 0 0;
         state := hopping;
         laneInfo := {| xMin := worldStartX + (1 # 2);
                        xMax := worldEndX - (1 # 2);
                        zMin := worldZ - (1 # 2);
                        zMax := worldZ + (1 # 2);
                        axis := axisX;
                        fixedCoord := worldZ |};
         patrolAxis := axisX;
         patrolMin := worldStartX + 1;
         patrolMax := worldEndX - 1;
         patrolDirection := 1;
         jumpPhase := phase;
         baseY := 8 # 10;
         globalChase := false |}
  | vertical =>
      let worldX := toWorld (cfixed corridor) in
      let worldStartZ := toWorld (cstart corridor) in
      let worldEndZ := toWorld (cend corridor) in
      let centerZ := (worldStartZ + worldEndZ) / 2 in
      {| position := vec3 worldX (8 # 10) centerZ;
         direction := vec3 0 0 1;
         state := hopping;
         laneInfo := {| xMin := worldX - (1 # 2);
                        xMax := worldX + (1 # 2);
                        zMin := worldStartZ + (1 # 2);
                        zMax := worldEndZ - (1 # 2);
                        axis := axisZ;
                        fixedCoord := worldX |};
         patrolAxis := axisZ;
         patrolMin := worldStartZ + 1;
         patrolMax := worldEndZ - 1;
         patrolDirection := 1;
         jumpPhase := phase;
         baseY := 8 # 10;
         globalChase := false |}
  end.

(** [createJumpers()]: the new content of [jumpers].  [phase i] is the
    random phase drawn for the [i]-th agent. *)
Definition createJumpers (phase : nat -> Q) (maze : Maze) : list Jumper :=
  let corridors := sortBy byLength (sortBy byPosition (findCorridors maze)) in
  let selectedCorridors := selectCorridors corridors in
  map (fun ic : nat * Corridor => spawnJumper (phase (fst ic)) (snd ic))
      (combine (seq 0 (length selectedCorridors)) selectedCorridors).

End Spawn.

(* ================================================================== *)
(** * Lane-confined agents ([updateJumpers])                           *)
(* ================================================================== *)

Module Agent.
Import Grid Entities.

Definition JUMPER_SPEED : Q := 8 # 100.
Definition JUMP_FREQUENCY : Q := 20 # 100.

(** [gameMode] of the mode-select edition. *)
Inductive GameMode : Type := hunt | survival.

Definition isSurvival (gameMode : GameMode) : bool :=
  match gameMode with survival => true | hunt => false end.

(** The lane test, written out in the source at each of its uses: the
    position [p] is within [tolerance] of the lane's fixed coordinate
    and, along the patrol axis, within the lane's span widened by
    [margin].  Aggro uses 1.2 and 1.0, combat 0.8 and 0.5. *)
Definition inLane (tolerance margin : Q) (p : Vector3) (jumper : Jumper) : bool :=
  let lane := laneInfo jumper in
  match patrolAxis jumper with
  | axisX =>
      let playerInLaneZ := Qltb (Qabs (vz p - fixedCoord lane)) tolerance in
      let playerInLaneX :=
        Qleb (xMin lane - margin) (vx p) && Qleb (vx p) (xMax lane + margin) in
      playerInLaneZ && playerInLaneX
  | axisZ =>
      let playerInLaneX := Qltb (Qabs (vx p - fixedCoord lane)) tolerance in
      let playerInLaneZ :=
        Qleb (zMin lane - margin) (vz p) && Qleb (vz p) (zMax lane + margin) in
      playerInLaneX && playerInLaneZ
  end.

Definition playerInLane (player : Vector3) (jumper : Jumper) : bool :=
  inLane (12 # 10) 1 player jumper.

(** The lane predicate as the specification words it, for a lane with
    patrol axis x: [|p.z - fixedCoord| < tolerance] and
    [p.x] in [[xMin - margin, xMax + margin]]; x and z swapped for a
    lane with patrol axis z. *)
Definition withinLane (tolerance margin : Q) (p : Vector3) (jumper : Jumper)
  : Prop :=
  let lane := laneInfo jumper in
  match patrolAxis jumper with
  | axisX =>
      Qabs (vz p - fixedCoord lane) < tolerance /\
      xMin lane - margin <= vx p /\ vx p <= xMax lane + margin
  | axisZ =>
      Qabs (vx p - fixedCoord lane) < tolerance /\
      zMin lane - margin <= vz p /\ vz p <= zMax lane + margin
  end.

Definition setState (jumper : Jumper) (s : State) : Jumper :=
  {| position := position jumper; direction := direction jumper;
     state := s; laneInfo := laneInfo jumper;
     patrolAxis := patrolAxis jumper; patrolMin := patrolMin jumper;
     patrolMax := patrolMax jumper;
     patrolDirection := patrolDirection jumper;
     jumpPhase := jumpPhase jumper; baseY := baseY jumper;
     globalChase := globalChase jumper |}.

Definition setGlobalChase (jumper : Jumper) (b : bool) : Jumper :=
  {| position := position jumper; direction := direction jumper;
     state := state jumper; laneInfo := laneInfo jumper;
     patrolAxis := patrolAxis jumper; patrolMin := patrolMin jumper;
     patrolMax := patrolMax jumper;
     patrolDirection := patrolDirection jumper;
     jumpPhase := jumpPhase jumper; baseY := baseY jumper;
     globalChase := b |}.

(** A direction given to [targetDirection.set]: [d] along x or along z,
    the other coordinates 0. *)
Inductive Target : Type := alongX (d : Z) | alongZ (d : Z).

Definition magnitude (t : Target) : Z :=
  match t with alongX d | alongZ d => d end.

(** [targetDirection.normalize()]: for a vector along one axis, the
    sign of its coordinate. *)
Definition normalize (t : Target) : Vector3 :=
  match t with
  | alongX d => vec3 (inject_Z (Z.sgn d)) 0 0
  | alongZ d => vec3 0 0 (inject_Z (Z.sgn d))
  end.

Definition onAxis (a : Axis) (d : Z) : Target :=
  match a with axisX => alongX d | axisZ => alongZ d end.

Definition lengthSq (v : Vector3) : Q := vx v * vx v + vy v * vy v + vz v * vz v.

(** [v.length() > r], for [r >= 0]. *)
Definition longerThan (v : Vector3) (r : Q) : bool := Qltb (r * r) (lengthSq v).

(** The bounce of the hopping and queued states: the new
    [patrolDirection]. *)
Definition bounce (jumper : Jumper) (currentPos : Q) : Z :=
  if Qleb (patrolMax jumper - (3 # 10)) currentPos then (-1)%Z
  else if Qleb currentPos (patrolMin jumper + (3 # 10)) then 1%Z
       else patrolDirection jumper.

(** Lane-based chasing: towards the player's coordinate on the patrol
    axis. *)
Definition chaseTarget (player : Vector3) (jumper : Jumper) : Target :=
  match patrolAxis jumper with
  | axisX => if Qltb (vx (position jumper)) (vx player) then alongX 1 else alongX (-1)
  | axisZ => if Qltb (vz (position jumper)) (vz player) then alongZ 1 else alongZ (-1)
  end.

(** "FORCE LANE ALIGNMENT". *)
Definition alignToLane (lane : Lane) (p : Vector3) : Vector3 :=
  match axis lane with
  | axisX => vec3 (vx p) (vy p) (fixedCoord lane)
  | axisZ => vec3 (fixedCoord lane) (vy p) (vz p)
  end.

(** "CLAMP to lane boundaries":
    [Math.max(patrolMin, Math.min(patrolMax, coordinate))]. *)
Definition clamp (lo hi v : Q) : Q := Qmax lo (Qmin hi v).

Definition clampToPatrol (a : Axis) (lo hi : Q) (p : Vector3) : Vector3 :=
  match a with
  | axisX => vec3 (clamp lo hi (vx p)) (vy p) (vz p)
  | axisZ => vec3 (vx p) (vy p) (clamp lo hi (vz p))
  end.

Definition addScaled (p d : Vector3) (k : Q) : Vector3 :=
  vec3 (vx p + vx d * k) (vy p + vy d * k) (vz p + vz d * k).

(** The grid cell of [p] is outside the grid or a wall: the test
    Survival's pursuit applies to its candidate position. *)
Definition inWallCell (maze : Maze) (p : Vector3) : bool :=
  outside (fst (gridCoord p)) (snd (gridCoord p)) ||
  match isWallCell maze (fst (gridCoord p)) (snd (gridCoord p)) with
  | Some true => true
  | _ => false
  end.

(** The y coordinate written back to the agent: [jumpHeight] is the
    height of the hop at the new jump phase. *)
Definition hopY (jumpHeight : Q) (jumper : Jumper) : Q :=
  let chaseMultiplier := if stateEqb (state jumper) chasing then 14 # 10 else 1 in
  baseY jumper + jumpHeight * chaseMultiplier.

End Agent.

(** ** The basic edition ([game.js]) *)

Module Basic.
Import Grid Entities Agent.

Section Frame.

(** [jumpHeightAt phase] is the height of the hop at jump phase
    [phase] (a parabola over the phase modulo 2 pi); it only feeds the
    y coordinate. *)
Variable jumpHeightAt : Q -> Q.

(** [player.position] during the frame. *)
Variable player : Vector3.

(** First pass of [updateJumpers]: the state of one agent. *)
Definition updateState (jumper : Jumper) : Jumper :=
  let shouldAttack := playerInLane player jumper in
  if shouldAttack && negb (stateEqb (state jumper) chasing) then
    setState jumper chasing
  else if negb shouldAttack && stateEqb (state jumper) chasing then
    setState jumper hopping
  else jumper.

(** Second pass of [updateJumpers]: the move of one agent. *)
Definition moveJumper (jumper : Jumper) : Jumper :=
  let lane := laneInfo jumper in
  let currentPos := along (patrolAxis jumper) (position jumper) in
  let phase := jumpPhase jumper + JUMP_FREQUENCY in
  let patrolDirection' :=
    match state jumper with
    | hopping | queued => bounce jumper currentPos
    | chasing => patrolDirection jumper
    end in
  let targetDirection :=
    match state jumper with
    | hopping | queued => onAxis (patrolAxis jumper) patrolDirection'
    | chasing => chaseTarget player jumper
    end in
  let direction' :=
    if negb (magnitude targetDirection =? 0)%Z then normalize targetDirection
    else direction jumper in
  let moveSpeed :=
    if stateEqb (state jumper) queued then JUMPER_SPEED * (7 # 10)
    else JUMPER_SPEED in
  let moved :=
    if longerThan direction' (1 # 10)
    then addScaled (position jumper) direction' moveSpeed
    else position jumper in
  let newPosition :=
    clampToPatrol (patrolAxis jumper) (patrolMin jumper) (patrolMax jumper)
      (alignToLane lane moved) in
  {| position := vec3 (vx newPosition) (hopY (jumpHeightAt phase) jumper)
                      (vz newPosition);
     direction := direction';
     state := state jumper;
     laneInfo := lane;
     patrolAxis := patrolAxis jumper;
     patrolMin := patrolMin jumper;
     patrolMax := patrolMax jumper;
     patrolDirection := patrolDirection';
     jumpPhase := phase;
     baseY := baseY jumper;
     globalChase := globalChase jumper |}.

(** One frame of one agent, and of all of them: each pass reads and
    writes the agent it is at, and nothing of the others. *)
Definition updateJumper (jumper : Jumper) : Jumper :=
  moveJumper (updateState jumper).

Definition updateJumpers (jumpers : list Jumper) : list Jumper :=
  map moveJumper (map updateState jumpers).

End Frame.

(** The agent after a run of frames, one player position per frame. *)
Definition run (jumpHeightAt : Q -> Q) (players : list Vector3)
    (jumper : Jumper) : Jumper :=
  fold_left (fun j player => updateJumper jumpHeightAt player j) players jumper.

End Basic.

(** ** The mode-select edition (Hunt and Survival) *)

Module ModeSelect.
Import Grid Entities Agent.

Section Frame.

Variable jumpHeightAt : Q -> Q.
Variable player : Vector3.
Variable gameMode : GameMode.
Variable maze : Maze.

Definition updateState (jumper : Jumper) : Jumper :=
  let playerInLane := playerInLane player jumper in
  if isSurvival gameMode then
    if playerInLane && negb (stateEqb (state jumper) chasing) then
      setGlobalChase (setState jumper chasing) true
    else jumper
  else
    let shouldAttack := playerInLane in
    if shouldAttack && negb (stateEqb (state jumper) chasing) then
      setState jumper chasing
    else if negb shouldAttack && stateEqb (state jumper) chasing then
      setState jumper hopping
    else jumper.

(** Survival's pursuit: the direction and the new [patrolAxis]. *)
Definition pursuit (jumper : Jumper) : Target * Axis :=
  let canMoveX := axisEqb (patrolAxis jumper) axisX in
  let canMoveZ := axisEqb (patrolAxis jumper) axisZ in
  let dx := vx player - vx (position jumper) in
  let dz := vz player - vz (position jumper) in
  if canMoveX && Qltb (1 # 2) (Qabs dx) then
    (alongX (if Qltb 0 dx then 1 else -1), patrolAxis jumper)
  else if canMoveZ && Qltb (1 # 2) (Qabs dz) then
    (alongZ (if Qltb 0 dz then 1 else -1), patrolAxis jumper)
  else if Qltb (Qabs dz) (Qabs dx) then
    (alongX (if Qltb 0 dx then 1 else -1), axisX)
  else
    (alongZ (if Qltb 0 dz then 1 else -1), axisZ).

(** The move of one agent.  [None] is the TypeError of reading a row
    the grid does not have. *)
Definition moveJumper (jumper : Jumper) : option Jumper :=
  let lane := laneInfo jumper in
  let currentPos := along (patrolAxis jumper) (position jumper) in
  let phase := jumpPhase jumper + JUMP_FREQUENCY in
  let global := globalChase jumper && isSurvival gameMode in
  let patrolDirection' :=
    match state jumper with
    | hopping | queued => bounce jumper currentPos
    | chasing => patrolDirection jumper
    end in
  let '(targetDirection, patrolAxis') :=
    match state jumper with
    | hopping | queued =>
        (onAxis (patrolAxis jumper) patrolDirection', patrolAxis jumper)
    | chasing =>
        if global then pursuit jumper
        else (chaseTarget player jumper, patrolAxis jumper)
    end in
  let direction' :=
    if negb (magnitude targetDirection =? 0)%Z then normalize targetDirection
    else direction jumper in
  let moveSpeed :=
    if stateEqb (state jumper) queued then JUMPER_SPEED * (7 # 10)
    else if global then JUMPER_SPEED * (5 # 10)
         else JUMPER_SPEED in
  let moved :=
    if longerThan direction' (1 # 10)
    then addScaled (position jumper) direction' moveSpeed
    else position jumper in
  let newPosition : option Vector3 :=
    if global then
      let mazeX := Qfloor (vx moved + halfSize) in
      let mazeZ := Qfloor (vz moved + halfSize) in
      if outside mazeX mazeZ then Some (position jumper)
      else match isWallCell maze mazeX mazeZ with
           | None => None
           | Some true => Some (position jumper)
           | Some false => Some moved
           end
    else
      Some (clampToPatrol patrolAxis' (patrolMin jumper) (patrolMax jumper)
              (alignToLane lane moved)) in
  match newPosition with
  | None => None
  | Some newPosition =>
      Some {| position := vec3 (vx newPosition)
                               (hopY (jumpHeightAt phase) jumper)
                               (vz newPosition);
              direction := direction';
              state := state jumper;
              laneInfo := lane;
              patrolAxis := patrolAxis';
              patrolMin := patrolMin jumper;
              patrolMax := patrolMax jumper;
              patrolDirection := patrolDirection';
              jumpPhase := phase;
              baseY := baseY jumper;
              globalChase := globalChase jumper |}
  end.

Definition updateJumper (jumper : Jumper) : option Jumper :=
  moveJumper (updateState jumper).

End Frame.

(** The agent after a run of frames, one player position per frame. *)
Fixpoint run (jumpHeightAt : Q -> Q) (gameMode : GameMode) (maze : Maze)
    (players : list Vector3) (jumper : Jumper) : option Jumper :=
  match players with
  | [] => Some jumper
  | player :: rest =>
      match updateJumper jumpHeightAt player gameMode maze jumper with
      | None => None
      | Some jumper' => run jumpHeightAt gameMode maze rest jumper'
      end
  end.

End ModeSelect.

(* ================================================================== *)
(** * Combat: knife and bullets ([shoot], [updateBullets])             *)
(* ================================================================== *)

Module Combat.
Import Grid Entities Agent.

Definition KNIFE_RANGE : Q := 28 # 10.

(** The square of [a.distanceTo(b)]. *)
Definition distanceSq (a b : Vector3) : Q :=
  (vx a - vx b) * (vx a - vx b) + (vy a - vy b) * (vy a - vy b) +
  (vz a - vz b) * (vz a - vz b).

(** [a.distanceTo(b) < r], for [r >= 0]. *)
Definition closerThan (a b : Vector3) (r : Q) : bool :=
  Qltb (distanceSq a b) (r * r).

(** [inSameLane], with the combat tolerance 0.8 and margin 0.5. *)
Definition inSameLane (p : Vector3) (jumper : Jumper) : bool :=
  inLane (8 # 10) (1 # 2) p jumper.

(** The condition under which the knife kills [jumper]. *)
Definition knifeHits (player : Vector3) (jumper : Jumper) : bool :=
  inSameLane player jumper && closerThan player (position jumper) KNIFE_RANGE.

(** The condition under which a bullet at [bullet] kills [jumper]. *)
Definition bulletHits (bullet : Vector3) (jumper : Jumper) : bool :=
  inSameLane bullet jumper && closerThan bullet (position jumper) (7 # 10).

Definition maxHits : nat := 1.

(** The knife loop of [shoot()], from the last agent to the first, on
    the reversed array: the agents left (reversed) and [hitCount].
    [removeJumper] splices the agent out of [jumpers]; its chase queue
    is empty throughout, nothing ever being put in it. *)
Fixpoint knifeLoop (player : Vector3) (reversed : list Jumper) (hitCount : nat)
  : list Jumper * nat :=
  match reversed with
  | [] => ([], hitCount)
  | jumper :: rest =>
      if (hitCount <? maxHits)%nat then
        if knifeHits player jumper then knifeLoop player rest (S hitCount)
        else let (others, n) := knifeLoop player rest hitCount in
             (jumper :: others, n)
      else (reversed, hitCount)
  end.

(** A knife swing: the agents left and the number of hits. *)
Definition knifeAttack (player : Vector3) (jumpers : list Jumper)
  : list Jumper * nat :=
  let (others, n) := knifeLoop player (rev jumpers) 0 in (rev others, n).

Record Bullet : Type := mkBullet {
  bulletPosition : Vector3;
  velocity : Vector3;
  lifetime : Z
}.

(** The loop over the agents of [updateBullets], from the last to the
    first, on the reversed array: [Some] of the agents left when one is
    hit, where the loop breaks. *)
Fixpoint hitScan (bullet : Vector3) (reversed : list Jumper)
  : option (list Jumper) :=
  match reversed with
  | [] => None
  | jumper :: rest =>
      if bulletHits bullet jumper then Some rest
      else match hitScan bullet rest with
           | Some others => Some (jumper :: others)
           | None => None
           end
  end.

(** One bullet of [updateBullets]: the bullet, if it flies on, and the
    agents left.  The outer [None] is a TypeError of the wall test. *)
Definition stepBullet (playerRadius : Q) (maze : Maze) (bullet : Bullet)
    (jumpers : list Jumper) : option (option Bullet * list Jumper) :=
  let p := bulletPosition bullet in
  let v := velocity bullet in
  let moved :=
    {| bulletPosition := vec3 (vx p + vx v) (vy p + vy v) (vz p + vz v);
       velocity := v;
       lifetime := (lifetime bullet + 1)%Z |} in
  match isWallAt playerRadius maze (bulletPosition moved) with
  | None => None
  | Some wall =>
      if wall || (200 <? lifetime moved)%Z then Some (None, jumpers)
      else match hitScan (bulletPosition moved) (rev jumpers) with
           | Some others => Some (None, rev others)
           | None => Some (Some moved, jumpers)
           end
  end.

End Combat.

(* ================================================================== *)
(** * Player collision resolution ([updatePlayer])                     *)
(* ================================================================== *)

Module Player.
Import Grid Agent.

Definition microDistance : Q := 5 # 1000.

Definition microDirections : list Vector3 :=
  [ vec3 microDistance 0 0;
    vec3 (- microDistance) 0 0;
    vec3 0 0 microDistance;
    vec3 0 0 (- microDistance);
    vec3 microDistance 0 microDistance;
    vec3 (- microDistance) 0 microDistance;
    vec3 microDistance 0 (- microDistance);
    vec3 (- microDistance) 0 (- microDistance) ].

Definition add (a b : Vector3) : Vector3 :=
  vec3 (vx a + vx b) (vy a + vy b) (vz a + vz b).

Definition setX (p : Vector3) (x : Q) : Vector3 := vec3 x (vy p) (vz p).
Definition setZ (p : Vector3) (z : Q) : Vector3 := vec3 (vx p) (vy p) z.

Section Resolve.

Variable playerRadius : Q.
Variable maze : Maze.

(** The loop over [microDirections]: the first unblocked displacement
    of [currentPos] is taken; [position] stays if there is none. *)
Fixpoint microLoop (currentPos position : Vector3) (dirs : list Vector3)
  : option Vector3 :=
  match dirs with
  | [] => Some position
  | dir :: rest =>
      let microPos := add currentPos dir in
      match isWallAt playerRadius maze microPos with
      | None => None
      | Some false => Some microPos
      | Some true => microLoop currentPos position rest
      end
  end.

(** The collision part of [updatePlayer()]: the player's position
    after the frame, from its position and the candidate
    [newPosition].  [None] is a TypeError of the wall test. *)
Definition resolveCollision (position newPosition : Vector3) : option Vector3 :=
  match isWallAt playerRadius maze newPosition with
  | None => None
  | Some false => Some newPosition
  | Some true =>
      let slideX := setX position (vx newPosition) in
      match isWallAt playerRadius maze slideX with
      | None => None
      | Some blockedX =>
          let position1 := if blockedX then position else setX position (vx slideX) in
          let moved1 := negb blockedX in
          let slideZ := setZ position1 (vz newPosition) in
          match isWallAt playerRadius maze slideZ with
          | None => None
          | Some blockedZ =>
              let position2 :=
                if blockedZ then position1 else setZ position1 (vz slideZ) in
              let moved := moved1 || negb blockedZ in
              if negb moved then microLoop position2 position2 microDirections
              else Some position2
          end
      end
  end.

(** "Position update with collision detection": nothing is tried
    unless the velocity is longer than 0.001. *)
Definition updatePosition (position velocity : Vector3) : option Vector3 :=
  if longerThan velocity (1 # 1000)
  then resolveCollision position (add position velocity)
  else Some position.

(** The wall test as a plain verdict; an error counts as blocked. *)
Definition blocked (p : Vector3) : bool :=
  match isWallAt playerRadius maze p with
  | Some false => false
  | _ => true
  end.

(** The fallback order in the words of the specification: the full
    candidate, the X-only slide, the Z-only slide, then the eight
    micro-displacements, axis-aligned first; the first unblocked one is
    taken, and the position stays when all are blocked. *)
Definition candidates (position newPosition : Vector3) : list Vector3 :=
  [ newPosition;
    setX position (vx newPosition);
    setZ position (vz newPosition) ] ++
  map (add position) microDirections.

Definition fallbackOrder (position newPosition : Vector3) : Vector3 :=
  match find (fun c => negb (blocked c)) (candidates position newPosition) with
  | Some c => c
  | None => position
  end.

End Resolve.

End Player.

(* ================================================================== *)
(** * Scenarios                                                        *)
(* ================================================================== *)

Module Scenario.
Import Grid MazeGen Entities Spawn Agent.

(** A hop of height 0: the y coordinate plays no part below. *)
Definition flat (phase : Q) : Q := 0.

(** The horizontal corridor of row 3 from column 5 to column 9, and
    the agent spawned in it: patrol bounds -9 and -7, lane at z = -12
    from x = -9.5 to x = -6.5. *)
Definition longCorridor : Corridor := runCorridor horizontal 3 5 5.
Definition patroller : Jumper := spawnJumper 0 longCorridor.

(** A player in that lane, one unit beyond the agent's upper patrol
    bound. *)
Definition playerAtLaneEnd : Vector3 := vec3 (- (6)) (3 # 2) (- (12)).

(** A grid whose only open cells are (1,1) and (2,1): one horizontal
    corridor of length 2, in row 1. *)
Definition twoCellGrid : Maze := setCell (setCell allWalls 1 1 OPEN) 2 1 OPEN.
Definition shortCorridor : Corridor := runCorridor horizontal 1 1 2.

(** Four corridors of length 6: rows 1, 3 and 5 and column 1. *)
Definition fourCorridors : list Corridor :=
  [ runCorridor horizontal 1 1 6; runCorridor horizontal 3 1 6;
    runCorridor horizontal 5 1 6; runCorridor vertical 1 1 6 ].

(** The agent spawned in the corridor of row 15, columns 13 to 17
    (the lane at z = 0 from x = -1.5 to x = 1.5), and two player
    positions: in the lane, and then far off along z. *)
Definition sentinel : Jumper := spawnJumper 0 (runCorridor horizontal 15 13 5).
Definition playerInSight : Vector3 := vec3 1 (3 # 2) 1.
Definition playerFarAlongZ : Vector3 := vec3 1 (3 # 2) 5.

(** The grid whose only open cells are those of that corridor. *)
Definition corridorGrid : Maze :=
  fold_left (fun m x => setCell m x 15 OPEN) [ 13; 14; 15; 16; 17 ]%Z allWalls.

(** The patroller standing at its lower patrol bound, x = -9, and
    three attackers at its height: in its lane at distance 2.79 and at
    distance 2.81, and at distance 1 across the lane, in a crossing
    corridor. *)
Definition knifeTarget : Jumper :=
  {| position := vec3 (- (9)) (8 # 10) (- (12));
     direction := direction patroller;
     state := state patroller;
     laneInfo := laneInfo patroller;
     patrolAxis := patrolAxis patroller;
     patrolMin := patrolMin patroller;
     patrolMax := patrolMax patroller;
     patrolDirection := patrolDirection patroller;
     jumpPhase := jumpPhase patroller;
     baseY := baseY patroller;
     globalChase := globalChase patroller |}.
Definition attackerAt279 : Vector3 := vec3 (- (621 # 100)) (8 # 10) (- (12)).
Definition attackerAt281 : Vector3 := vec3 (- (619 # 100)) (8 # 10) (- (12)).
Definition attackerAcross : Vector3 := vec3 (- (9)) (8 # 10) (- (11)).

(** A grid without walls. *)
Definition openGrid : Maze :=
  repeat (repeat OPEN (Z.to_nat MAZE_SIZE)) (Z.to_nat MAZE_SIZE).

End Scenario.

(* ================================================================== *)
(** * Proof steps                                                      *)
(* ================================================================== *)

(** Case analysis on the bounds guard that the goal tests. *)
Ltac case_outside H :=
  match goal with
  | |- context [Grid.outside ?gx ?gz] => destruct (Grid.outside gx gz) eqn:H
  end.

(* ================================================================== *)
(** * Landmarks of the level                                           *)
(* ================================================================== *)

Module Landmarks.
Import Grid MazeGen.

Definition PLAYER_HEIGHT : Q := 15 # 10.

(** Where [createPlayer] and [restartGame] put the player. *)
Definition playerStart : Vector3 :=
  vec3 (- halfSize + (15 # 10)) PLAYER_HEIGHT (- halfSize + (15 # 10)).

(** [exit], as [createExit] sets it. *)
Definition exit : Vector3 :=
  vec3 (halfSize - (15 # 10)) 0 (halfSize - (15 # 10)).

(** Where [createPistolPickup] puts the pistol, on the ground plane. *)
Definition pistolPosition : Vector3 := vec3 (- (6)) (5 # 10) 3.

(** The cells of the grid that are not on its border. *)
Definition interior (c : Cell) : Prop :=
  (1 <= fst c <= MAZE_SIZE - 2)%Z /\ (1 <= snd c <= MAZE_SIZE - 2)%Z.

(** The four cells cleared at the exit corner and the nine cleared
    around the pistol. *)
Definition exitCells : list Cell :=
  [ (28, 28); (28, 27); (27, 28); (27, 27) ]%Z.

Definition pickupCells : list Cell :=
  map (fun d : Z * Z => (pistolMazeX + fst d, pistolMazeZ + snd d)%Z)
      (list_prod [ -1; 0; 1 ]%Z [ -1; 0; 1 ]%Z).

(** A lattice cell two steps away, inside the border. *)
Definition twoApart (a b : Cell) : Prop :=
  ((fst b = fst a /\ Z.abs (snd b - snd a) = 2) \/
   (snd b = snd a /\ Z.abs (fst b - fst a) = 2))%Z /\
  (1 <= fst b < MAZE_SIZE - 1)%Z /\ (1 <= snd b < MAZE_SIZE - 1)%Z.

(** What the carving loop maintains about the border and the visited
    set: nothing on the border is open; visited cells are open; a
    visited cell with an unvisited cell two steps away is the current
    cell or on the stack. *)
Definition carveCovers (s : Carve) : Prop :=
  (forall c, isOpen (maze s) c = true -> interior c) /\
  interior (current s) /\
  Forall interior (stack s) /\
  In (1, 1)%Z (visited s) /\
  In (current s) (visited s) /\
  incl (stack s) (visited s) /\
  (forall c, In c (visited s) -> isOpen (maze s) c = true) /\
  (forall v u, In v (visited s) -> twoApart v u -> ~ In u (visited s) ->
               v = current s \/ In v (stack s)).

End Landmarks.

(* ================================================================== *)
(** * Collision: what the two wall tests look at                       *)
(* ================================================================== *)

Module Collision.
Import Grid.

(** The cell [(gx, gz)] blocks: it is outside the grid or a wall. *)
Definition cellBlocked (m : Maze) (gx gz : Z) : bool :=
  outside gx gz ||
  match isWallCell m gx gz with
  | Some true => true
  | _ => false
  end.

(** The eight [checkPoints] of [isWallAt] around the grid position
    [(x, z)], in the order of the source. *)
Definition checkPointsOf (x z r : Q) : list (Q * Q) :=
  [ (x - r, z - r); (x + r, z - r); (x - r, z + r); (x + r, z + r);
    (x - r, z); (x + r, z); (x, z - r); (x, z + r) ].

(** The four [corners] of [isWallAtZombie]. *)
Definition cornersOf (x z r : Q) : list (Q * Q) :=
  [ (x - r, z - r); (x + r, z - r); (x - r, z + r); (x + r, z + r) ].

End Collision.

(* ================================================================== *)
(** * The player over several frames; the exit tests                   *)
(* ================================================================== *)

Module Walk.
Import Grid Entities Agent Combat Player Landmarks.

(** The player's position after a run of frames, one velocity (as the
    kinematics of [updatePlayer] left it) per frame. *)
Fixpoint walk (playerRadius : Q) (maze : Maze) (velocities : list Vector3)
    (p : Vector3) : option Vector3 :=
  match velocities with
  | [] => Some p
  | v :: rest =>
      match updatePosition playerRadius maze p v with
      | None => None
      | Some p' => walk playerRadius maze rest p'
      end
  end.

(** The win test of the basic edition and of Hunt mode:
    [player.position.distanceTo(exit) < 1.2 && jumpers.length === 0]. *)
Definition beamReached (p : Vector3) (jumpers : list Jumper) : bool :=
  closerThan p exit (12 # 10) && (length jumpers =? 0)%nat.

(** The win test of Survival mode:
    [player.position.distanceTo(exit) < 2.0]. *)
Definition doorReached (p : Vector3) : bool := closerThan p exit 2.

End Walk.

(* ================================================================== *)
(** * Corridors as runs of open cells                                  *)
(* ================================================================== *)

Module Runs.
Import Grid MazeGen Entities Spawn.

(** The cell at place [i] of the row or column of a corridor. *)
Definition cellAt (t : CorridorType) (fixed i : Z) : Cell :=
  match t with
  | horizontal => (i, fixed)
  | vertical => (fixed, i)
  end.

(** The cells from [first] to [last] of row or column [fixed] form a
    maximal run of open cells within the scanned part of the grid
    (1 .. MAZE_SIZE - 2), of at least two cells. *)
Definition maximalRun (maze : Maze) (t : CorridorType) (fixed first last : Z)
  : Prop :=
  (1 <= fixed <= MAZE_SIZE - 2)%Z /\
  (1 <= first)%Z /\ (first < last)%Z /\ (last <= MAZE_SIZE - 2)%Z /\
  (forall i, (first <= i <= last)%Z -> isOpen maze (cellAt t fixed i) = true) /\
  (first = 1%Z \/ isOpen maze (cellAt t fixed (first - 1)) = false) /\
  (last = (MAZE_SIZE - 2)%Z \/ isOpen maze (cellAt t fixed (last + 1)) = false).

(** The state of a scan about to read place [a] of a line: no run
    under way, the place before being closed or absent; or a run under
    way from [start], all open up to [a - 1] and closed before. *)
Definition scanState (cellOpen : Z -> bool) (a start length : Z) : Prop :=
  (length = 0%Z /\ start = (-1)%Z /\
   (a = 1%Z \/ cellOpen (a - 1)%Z = false)) \/
  ((1 <= length)%Z /\ (1 <= start)%Z /\ (start + length = a)%Z /\
   (forall i, (start <= i < a)%Z -> cellOpen i = true) /\
   (start = 1%Z \/ cellOpen (start - 1)%Z = false)).

(** The test of a scan at place [i] of row or column [fixed]. *)
Definition lineOpen (maze : Maze) (t : CorridorType) (fixed i : Z) : bool :=
  isOpen maze (cellAt t fixed i).

(** [c] is the corridor of a maximal run of row or column [fixed]. *)
Definition runOf (maze : Maze) (t : CorridorType) (fixed : Z) (c : Corridor)
  : Prop :=
  exists first length,
    c = runCorridor t fixed first length /\
    maximalRun maze t fixed first (first + length - 1).

(** The places [a], [a + 1], ... of a line, [n] of them. *)
Definition places (a : Z) (n : nat) : list Z :=
  map (fun k => (a + Z.of_nat k)%Z) (seq 0 n).

End Runs.

Module Scans.
Import Grid MazeGen Entities Spawn Runs.

(** One of the two scans of [findCorridors]: the lines [lines] of
    orientation [t], each read from place 1 to place MAZE_SIZE - 2. *)
Definition scanAll (maze : Maze) (t : CorridorType) (lines : list Z)
    (corridors : list Corridor) : list Corridor :=
  fold_left
    (fun acc k => scanLine t k (lineOpen maze t k) inner (-1)%Z 0%Z acc)
    lines corridors.

(** [c] is the corridor of a maximal run of some row or column. *)
Definition isMaximalRun (maze : Maze) (c : Corridor) : Prop :=
  clength c = (cend c - cstart c + 1)%Z /\
  maximalRun maze (ctype c) (cfixed c) (cstart c) (cend c).

End Scans.

Module Patrol.
Import Grid MazeGen Entities Spawn Agent.

(** The position lies in one of the cells of the corridor. *)
Definition insideCorridor (c : Corridor) (p : Vector3) : Prop :=
  match ctype c with
  | horizontal =>
      snd (gridCoord p) = cfixed c /\
      (cstart c <= fst (gridCoord p) <= cend c)%Z
  | vertical =>
      fst (gridCoord p) = cfixed c /\
      (cstart c <= snd (gridCoord p) <= cend c)%Z
  end.

Definition corridorAxis (c : Corridor) : Axis :=
  match ctype c with horizontal => axisX | vertical => axisZ end.

(** The other horizontal coordinate than the one [a] names. *)
Definition across (a : Axis) (p : Vector3) : Q :=
  match a with axisX => vz p | axisZ => vx p end.

(** What the Hunt frames keep of an agent spawned in corridor [c]: its
    lane and patrol fields, its place on the corridor's line and
    between the corridor's ends. *)
Definition onPatrol (c : Corridor) (j : Jumper) : Prop :=
  axis (laneInfo j) = corridorAxis c /\
  patrolAxis j = corridorAxis c /\
  fixedCoord (laneInfo j) = toWorld (cfixed c) /\
  patrolMin j = toWorld (cstart c) + 1 /\
  patrolMax j = toWorld (cend c) - 1 /\
  across (corridorAxis c) (position j) == toWorld (cfixed c) /\
  toWorld (cstart c) <= along (corridorAxis c) (position j) /\
  along (corridorAxis c) (position j) <= toWorld (cend c).

(** [j] is the agent [createJumpers] makes for [c], the [i]-th corridor
    it selects. *)
Definition madeFor (phase : nat -> Q) (maze : Maze) (j : Jumper) (i : nat)
    (c : Corridor) : Prop :=
  nth_error
    (selectCorridors (sortBy byLength (sortBy byPosition (findCorridors maze))))
    i = Some c /\
  j = spawnJumper (phase i) c.

End Patrol.

Module Roster.
Import Entities Spawn.

(** Some selected corridor of the orientation of [c] lies closer than
    [minDistance] rows or columns. *)
Definition crowded (minDistance : Z) (selected : list Corridor) (c : Corridor)
  : Prop :=
  exists s : Corridor,
    In s selected /\ ctype c = ctype s /\
    (Z.abs (cfixed c - cfixed s) < minDistance)%Z.

End Roster.

Module Contact.
Import Grid Entities Spawn Agent Combat.

(** The loop over [jumpers] that ends [updatePlayer], in the basic
    edition: [jumper] calls [loseGame]. *)
Definition catches (player : Vector3) (jumper : Jumper) : bool :=
  inSameLane player jumper && closerThan player (position jumper) (9 # 10).

(** The same loop in the mode-select edition: a global chaser of
    Survival needs no lane. *)
Definition catchesIn (gameMode : GameMode) (player : Vector3) (jumper : Jumper)
  : bool :=
  if globalChase jumper && isSurvival gameMode
  then closerThan player (position jumper) (9 # 10)
  else inSameLane player jumper && closerThan player (position jumper) (9 # 10).

(** The position is in a cell of the corridor or in the cell beside
    it, on the side of the smaller index: the agent's line is the
    boundary between the two. *)
Definition besideCorridor (c : Corridor) (p : Vector3) : Prop :=
  match ctype c with
  | horizontal =>
      (cstart c <= fst (gridCoord p) <= cend c)%Z /\
      (cfixed c - 1 <= snd (gridCoord p) <= cfixed c)%Z
  | vertical =>
      (cstart c <= snd (gridCoord p) <= cend c)%Z /\
      (cfixed c - 1 <= fst (gridCoord p) <= cfixed c)%Z
  end.

End Contact.

Module Bullets.
Import Grid Entities Agent Combat.

(** The loop of [updateBullets] over [bullets], from the last to the
    first, on the reversed array: the bullets kept (reversed) and the
    agents left.  [None] is a TypeError of the wall test. *)
Fixpoint bulletLoop (playerRadius : Q) (maze : Maze) (reversed : list Bullet)
    (jumpers : list Jumper) : option (list Bullet * list Jumper) :=
  match reversed with
  | [] => Some ([], jumpers)
  | bullet :: rest =>
      match stepBullet playerRadius maze bullet jumpers with
      | None => None
      | Some (flying, jumpers') =>
          match bulletLoop playerRadius maze rest jumpers' with
          | None => None
          | Some (kept, jumpers'') =>
              Some (match flying with
                    | Some bullet' => bullet' :: kept
                    | None => kept
                    end, jumpers'')
          end
      end
  end.

(** [updateBullets()]: the new contents of [bullets] and [jumpers]. *)
Definition updateBullets (playerRadius : Q) (maze : Maze)
    (bullets : list Bullet) (jumpers : list Jumper)
  : option (list Bullet * list Jumper) :=
  match bulletLoop playerRadius maze (rev bullets) jumpers with
  | None => None
  | Some (kept, jumpers') => Some (rev kept, jumpers')
  end.

(** The bullet one frame on: moved by its velocity, a frame older. *)
Definition advance (bullet : Bullet) : Bullet :=
  let p := bulletPosition bullet in
  let v := velocity bullet in
  {| bulletPosition := vec3 (vx p + vx v) (vy p + vy v) (vz p + vz v);
     velocity := v;
     lifetime := (lifetime bullet + 1)%Z |}.

End Bullets.

(* ================================================================== *)
(** * Weapons: the knife, the pistol and its ammunition                *)
(* ================================================================== *)

Module Arsenal.
Import Entities Agent Combat Landmarks.

Inductive Weapon : Type := knife | pistol.

Definition SHOOT_COOLDOWN : Z := 300.
Definition KNIFE_COOLDOWN : Z := 200.

(** The globals the weapons read and write: [currentWeapon],
    [ammoCount], [lastShotTime], and whether [pistolPickup] holds the
    pickup ([false] is [null]). *)
Record Weapons : Type := mkWeapons {
  currentWeapon : Weapon;
  ammoCount : Z;
  lastShotTime : Z;
  pistolPickup : bool
}.

(** The globals after [init()]: the pickup is in the maze. *)
Definition initial : Weapons :=
  {| currentWeapon := knife; ammoCount := 30; lastShotTime := 0;
     pistolPickup := true |}.

(** [shoot()] at time [now] (milliseconds, [Date.now()]):  the globals
    and whether a bullet is pushed.  [isSwinging] is
    [knifeObject && knifeObject.userData.isSwinging]. *)
Definition shoot (now : Z) (isSwinging : bool) (w : Weapons) : Weapons * bool :=
  match currentWeapon w with
  | knife =>
      if (now - lastShotTime w <? KNIFE_COOLDOWN)%Z then (w, false)
      else if isSwinging then (w, false)
      else ({| currentWeapon := currentWeapon w; ammoCount := ammoCount w;
               lastShotTime := now; pistolPickup := pistolPickup w |}, false)
  | pistol =>
      if (now - lastShotTime w <? SHOOT_COOLDOWN)%Z then (w, false)
      else if (ammoCount w <=? 0)%Z then (w, false)
      else ({| currentWeapon := currentWeapon w;
               ammoCount := (ammoCount w - 1)%Z;
               lastShotTime := now; pistolPickup := pistolPickup w |}, true)
  end.

(** [switchWeapon()], the Q key. *)
Definition switchWeapon (w : Weapons) : Weapons :=
  match currentWeapon w with
  | knife =>
      if negb (pistolPickup w) then
        if (ammoCount w >? 0)%Z then
          {| currentWeapon := pistol; ammoCount := ammoCount w;
             lastShotTime := lastShotTime w; pistolPickup := pistolPickup w |}
        else w
      else w
  | pistol =>
      {| currentWeapon := knife; ammoCount := ammoCount w;
         lastShotTime := lastShotTime w; pistolPickup := pistolPickup w |}
  end.

(** "Pistol pickup system" of [updatePlayer()], the player at
    [player]; [pickupY] is the height of the pickup, which [animate]
    makes bob around 0.5. *)
Definition pickUp (player : Vector3) (pickupY : Q) (w : Weapons) : Weapons :=
  match currentWeapon w with
  | knife =>
      if pistolPickup w &&
         closerThan player
           (vec3 (vx pistolPosition) pickupY (vz pistolPosition)) 2 then
        {| currentWeapon := pistol; ammoCount := 30;
           lastShotTime := lastShotTime w; pistolPickup := false |}
      else w
  | pistol => w
  end.

(** What [restartGame()] does to these globals: it removes the pickup
    and makes no new one. *)
Definition restartGame (w : Weapons) : Weapons :=
  {| currentWeapon := knife; ammoCount := 30; lastShotTime := 0;
     pistolPickup := false |}.

Inductive Event : Type :=
| Shoot (now : Z) (isSwinging : bool)
| SwitchWeapon
| PlayerFrame (player : Vector3) (pickupY : Q).

(** The globals after an event of a game, and the bullets pushed. *)
Definition step (w : Weapons) (e : Event) : Weapons * nat :=
  match e with
  | Shoot now isSwinging =>
      let (w', fired) := shoot now isSwinging w in
      (w', if fired then 1%nat else 0%nat)
  | SwitchWeapon => (switchWeapon w, 0%nat)
  | PlayerFrame player pickupY => (pickUp player pickupY w, 0%nat)
  end.

(** The globals after the events of a game, in order, and the number
    of bullets pushed. *)
Fixpoint play (w : Weapons) (events : list Event) : Weapons * nat :=
  match events with
  | [] => (w, 0%nat)
  | e :: rest =>
      let (w1, n1) := step w e in
      let (w2, n2) := play w1 rest in
      (w2, (n1 + n2)%nat)
  end.

(** The rounds still to be had in the game: those of the pickup, not
    yet taken, or those left. *)
Definition rounds (w : Weapons) : Z :=
  if pistolPickup w then 30%Z else ammoCount w.

End Arsenal.

Module ArsenalFacts.
Import Entities Agent Combat Landmarks Arsenal.

(** The event is no frame with the player closer than 2.0 to the
    pickup. *)
Definition awayFromPickup (e : Event) : Prop :=
  match e with
  | PlayerFrame player pickupY =>
      closerThan player
        (vec3 (vx pistolPosition) pickupY (vz pistolPosition)) 2 = false
  | _ => True
  end.

(** What every event keeps: the rounds between 0 and 30, and the
    knife in hand while the pickup lies in the maze. *)
Definition sound (w : Weapons) : Prop :=
  (0 <= ammoCount w <= 30)%Z /\
  (pistolPickup w = true -> currentWeapon w = knife).

End ArsenalFacts.

(* ================================================================== *)
(** * The carved maze as a tree                                        *)
(* ================================================================== *)

Module Perfect.
Import Grid MazeGen.

Definition cell_eq_dec (a b : Cell) : {a = b} + {a <> b} :=
  match Z.eq_dec (fst a) (fst b), Z.eq_dec (snd a) (snd b) with
  | left Ex, left Ey => left (injective_projections a b Ex Ey)
  | right N, _ => right (fun E : a = b => N (f_equal fst E))
  | _, right N => right (fun E : a = b => N (f_equal snd E))
  end.

(** The cells of the grid, and those of them that are open. *)
Definition allCells : list Cell :=
  list_prod (map Z.of_nat (seq 0 (Z.to_nat MAZE_SIZE)))
            (map Z.of_nat (seq 0 (Z.to_nat MAZE_SIZE))).

Definition openCells (m : Maze) : list Cell := filter (isOpen m) allCells.

(** The cell lies between two cells of [cells], its neighbours in its
    row or in its column: it is the passage that joins them. *)
Definition between (cells : list Cell) (c : Cell) : Prop :=
  (In (fst c - 1, snd c)%Z cells /\ In (fst c + 1, snd c)%Z cells) \/
  (In (fst c, snd c - 1)%Z cells /\ In (fst c, snd c + 1)%Z cells).

(** What the carving loop maintains about the open cells: one less
    than twice the visited cells, each a visited cell or a passage
    between two visited cells. *)
Definition carveTree (s : Carve) : Prop :=
  (length (openCells (maze s)) + 1 = 2 * length (visited s))%nat /\
  forall c, isOpen (maze s) c = true ->
            In c (visited s) \/ between (visited s) c.

End Perfect.

(* ================================================================== *)
(** * Survival's reinforcements ([spawnSurvivalMonsters])              *)
(* ================================================================== *)

Module Monsters.
Import Grid MazeGen Entities Spawn Agent.

(** The scan of [spawnSurvivalMonsters]: that of [createJumpers]
    without the set of ids, every run being pushed. *)
Fixpoint scanLinePlain (t : CorridorType) (fixed : Z) (cellOpen : Z -> bool)
    (line : list Z) (start length : Z) (corridors : list Corridor)
  : list Corridor :=
  match line with
  | [] =>
      if (length >=? 2)%Z then corridors ++ [ runCorridor t fixed start length ]
      else corridors
  | i :: rest =>
      if cellOpen i then
        scanLinePlain t fixed cellOpen rest
          (if (start =? -1)%Z then i else start) (length + 1)%Z corridors
      else
        scanLinePlain t fixed cellOpen rest (-1)%Z 0%Z
          (if (length >=? 2)%Z
           then corridors ++ [ runCorridor t fixed start length ]
           else corridors)
  end.

Definition findCorridorsPlain (maze : Maze) : list Corridor :=
  let rows :=
    fold_left
      (fun acc z =>
         scanLinePlain horizontal z (fun x => isOpen maze (x, z)) inner
           (-1)%Z 0%Z acc)
      inner [] in
  fold_left
    (fun acc x =>
       scanLinePlain vertical x (fun z => isOpen maze (x, z)) inner
         (-1)%Z 0%Z acc)
    inner rows.

(** "Calculate approximate center of this corridor": [(testX, testZ)]. *)
Definition corridorCenter (c : Corridor) : Q * Q :=
  match ctype c with
  | horizontal =>
      ((inject_Z (cstart c) + inject_Z (cend c)) / 2 - halfSize,
       inject_Z (cfixed c) - halfSize)
  | vertical =>
      (inject_Z (cfixed c) - halfSize,
       (inject_Z (cstart c) + inject_Z (cend c)) / 2 - halfSize)
  end.

(** The loop of the [attempts]: each draws a corridor and keeps it if
    it is farther from the player than the one kept so far.  The kept
    corridor comes with the square of its distance; [None] is the
    first turn, where [maxDistance] is -1 and any distance is greater.
    The outer [None] is the TypeError of a draw beyond the array.  [n]
    counts the calls of [Math.random()]. *)
Fixpoint pickFar (random : nat -> Q) (player : Vector3)
    (corridors : list Corridor) (attempts : nat) (n : nat)
    (selected : option (Corridor * Q)) : option (option (Corridor * Q) * nat) :=
  match attempts with
  | O => Some (selected, n)
  | S attempts' =>
      match index corridors
              (Qfloor (random n * inject_Z (Z.of_nat (length corridors)))) with
      | None => None
      | Some testCorridor =>
          let (testX, testZ) := corridorCenter testCorridor in
          let dx := testX - vx player in
          let dz := testZ - vz player in
          let distanceSq := dx * dx + dz * dz in
          let farther :=
            match selected with
            | None => true
            | Some (_, maxDistanceSq) => Qltb maxDistanceSq distanceSq
            end in
          pickFar random player corridors attempts' (S n)
            (if farther then Some (testCorridor, distanceSq) else selected)
      end
  end.

(** The monster pushed for a corridor.  Its lane has the bounds of its
    own axis only; the others are [undefined] in the source, every
    comparison with them false: the model gives them an empty span,
    wider than any margin. *)
Definition spawnMonster (phase : Q) (corridor : Corridor) : Jumper :=
  match ctype corridor with
  | horizontal =>
      let worldZ := toWorld (cfixed corridor) in
      let worldStartX := toWorld (cstart corridor) in
      let worldEndX := toWorld (cend corridor) in
      let centerX := (worldStartX + worldEndX) / 2 in
      {| position := vec3 centerX (8 # 10) worldZ;
         direction := vec3 1 0 0;
         state := hopping;
         laneInfo := {| xMin := worldStartX;
                        xMax := worldEndX;
                        zMin := 2;
                        zMax := - (2);
                        axis := axisX;
                        fixedCoord := worldZ |};
         patrolAxis := axisX;
         patrolMin := worldStartX + 1;
         patrolMax := worldEndX - 1;
         patrolDirection := 1;
         jumpPhase := phase;
         baseY := 8 # 10;
         globalChase := false |}
  | vertical =>
      let worldX := toWorld (cfixed corridor) in
      let worldStartZ := toWorld (cstart corridor) in
      let worldEndZ := toWorld (cend corridor) in
      let centerZ := (worldStartZ + worldEndZ) / 2 in
      {| position := vec3 worldX (8 # 10) centerZ;
         direction := vec3 0 0 1;
         state := hopping;
         laneInfo := {| xMin := 2;
                        xMax := - (2);
                        zMin := worldStartZ;
                        zMax := worldEndZ;
                        axis := axisZ;
                        fixedCoord := worldX |};
         patrolAxis := axisZ;
         patrolMin := worldStartZ + 1;
         patrolMax := worldEndZ - 1;
         patrolDirection := 1;
         jumpPhase := phase;
         baseY := 8 # 10;
         globalChase := false |}
  end.

(** The loop over the [count] monsters: [jumpers] with the monsters
    pushed, and the calls of [Math.random()] made.  [phase n] is the
    jump phase made of the [n]-th random number. *)
Fixpoint spawnLoop (random phase : nat -> Q) (player : Vector3)
    (corridors : list Corridor) (count : nat) (n : nat)
    (jumpers : list Jumper) : option (list Jumper * nat) :=
  match count with
  | O => Some (jumpers, n)
  | S count' =>
      let attempts := Nat.min 10 (length corridors) in
      match pickFar random player corridors attempts n None with
      | None => None
      | Some (None, _) => None
      | Some (Some (corridor, _), n') =>
          spawnLoop random phase player corridors count' (S n')
            (jumpers ++ [ spawnMonster (phase n') corridor ])
      end
  end.

(** [spawnSurvivalMonsters(count)]: the new [jumpers].  Nothing is
    done for a grid without rows or without corridors. *)
Definition spawnSurvivalMonsters (random phase : nat -> Q) (player : Vector3)
    (maze : Maze) (count : nat) (n : nat) (jumpers : list Jumper)
  : option (list Jumper * nat) :=
  if (length maze =? 0)%nat then Some (jumpers, n)
  else
    let corridors := findCorridorsPlain maze in
    if (length corridors =? 0)%nat then Some (jumpers, n)
    else spawnLoop random phase player corridors count n jumpers.

End Monsters.

(* ================================================================== *)
(** * Combat legality in the words of the specification               *)
(* ================================================================== *)

Module Legality.
Import Entities Agent Combat.

(** An attacker at [q] may hit [jumper] with the knife: [q] is in the
    agent's lane (within 0.8 of its fixed coordinate and within its
    span widened by 0.5) and closer to the agent than 2.8. *)
Definition knifeLegal (q : Vector3) (jumper : Jumper) : Prop :=
  withinLane (8 # 10) (1 # 2) q jumper /\
  distanceSq q (position jumper) < (28 # 10) * (28 # 10).

(** A projectile at [q] may hit [jumper]: the same lane, and closer
    than 0.7. *)
Definition bulletLegal (q : Vector3) (jumper : Jumper) : Prop :=
  withinLane (8 # 10) (1 # 2) q jumper /\
  distanceSq q (position jumper) < (7 # 10) * (7 # 10).

End Legality.

(* ================================================================== *)
(** * Properties                                                       *)
(* ================================================================== *)

Import Grid MazeGen Entities Spawn Agent Combat Player.

(** ** Comparisons *)

Lemma Qleb_spec (a b : Q) : Qleb a b = true <-> a <= b.
Proof. apply Qle_bool_iff. Qed.

Lemma Qltb_spec (a b : Q) : Qltb a b = true <-> a < b.
Proof.
  unfold Qltb. rewrite negb_true_iff.
  destruct (Qle_bool b a) eqn:E.
  - apply Qle_bool_iff in E. split; [discriminate | intro H; exfalso; lra].
  - split; [intros _ | reflexivity].
    destruct (Qlt_le_dec a b) as [L | L]; [exact L |].
    apply Qle_bool_iff in L. congruence.
Qed.

Lemma Qltb_false (a b : Q) : Qltb a b = false <-> b <= a.
Proof.
  split; intro H.
  - destruct (Qlt_le_dec a b) as [L | L]; [| exact L].
    apply Qltb_spec in L. congruence.
  - destruct (Qltb a b) eqn:E; [| reflexivity].
    apply Qltb_spec in E. exfalso; lra.
Qed.

Lemma Qleb_false (a b : Q) : Qleb a b = false <-> b < a.
Proof.
  split; intro H.
  - destruct (Qlt_le_dec b a) as [L | L]; [exact L |].
    apply Qleb_spec in L. congruence.
  - destruct (Qleb a b) eqn:E; [| reflexivity].
    apply Qleb_spec in E. exfalso; lra.
Qed.

(** ** Grid and collision *)

Section GridFacts.

Variable playerRadius : Q.
Variable maze : Maze.

Lemma outside_iff (gx gz : Z) :
  outside gx gz = true <->
  ~ (0 <= gx < MAZE_SIZE)%Z \/ ~ (0 <= gz < MAZE_SIZE)%Z.
Proof.
  unfold outside. rewrite !orb_true_iff, !Z.ltb_lt, !Z.geb_le. lia.
Qed.

Lemma outside_false_iff (gx gz : Z) :
  outside gx gz = false <->
  (0 <= gx < MAZE_SIZE)%Z /\ (0 <= gz < MAZE_SIZE)%Z.
Proof.
  destruct (outside gx gz) eqn:E.
  - apply outside_iff in E. split; [discriminate | lia].
  - split; [intros _ | reflexivity].
    assert (H : ~ (~ (0 <= gx < MAZE_SIZE)%Z \/ ~ (0 <= gz < MAZE_SIZE)%Z)).
    { intro H. apply outside_iff in H. congruence. }
    lia.
Qed.

Lemma isWallCell_defined (x z : Z) :
  hasRows maze -> outside x z = false ->
  exists b, isWallCell maze x z = Some b.
Proof.
  intros Hrows Hin. apply outside_false_iff in Hin.
  unfold isWallCell, index.
  destruct (x <? 0)%Z eqn:Hx; [apply Z.ltb_lt in Hx; lia |].
  destruct (nth_error maze (Z.to_nat x)) as [row |] eqn:Hrow.
  - destruct (if (z <? 0)%Z then None else nth_error row (Z.to_nat z));
      eauto.
  - apply nth_error_None in Hrow. unfold hasRows in Hrows.
    unfold MAZE_SIZE in *. lia.
Qed.

Lemma checkPointsLoop_defined (pts : list (Q * Q)) :
  hasRows maze -> exists b, checkPointsLoop maze pts = Some b.
Proof.
  intro Hrows. induction pts as [| [px pz] rest IH]; simpl; [eauto |].
  destruct (outside (Qfloor px) (Qfloor pz)) eqn:Hout; [eauto |].
  destruct (isWallCell_defined _ _ Hrows Hout) as [[|] ->]; eauto.
Qed.

(** With all its rows the grid answers every thick-body query. *)
Lemma isWallAt_defined (p : Vector3) :
  hasRows maze -> exists b, isWallAt playerRadius maze p = Some b.
Proof.
  intro Hrows. unfold isWallAt.
  case_outside Hout; [eauto |].
  destruct (isWallCell_defined _ _ Hrows Hout) as [[|] ->]; [eauto |].
  apply checkPointsLoop_defined, Hrows.
Qed.

(** The wall test reads the x and z coordinates only. *)
Lemma isWallAt_xz (a b : Vector3) :
  vx a = vx b -> vz a = vz b ->
  isWallAt playerRadius maze a = isWallAt playerRadius maze b.
Proof. unfold isWallAt. intros -> ->. reflexivity. Qed.

(** C8.  A query whose grid coordinate [floor(p + N/2)] is outside
    [0, N) on either axis is answered "wall" by both collision tests,
    the thick-body [isWallAt] and the thin-body [isWallAtZombie],
    whatever the grid holds and without reading it: the answer is a
    value, never an error. *)
Theorem out_of_bounds_is_wall (p : Vector3) :
  ~ (0 <= fst (gridCoord p) < MAZE_SIZE)%Z \/
  ~ (0 <= snd (gridCoord p) < MAZE_SIZE)%Z ->
  isWallAt playerRadius maze p = Some true /\
  isWallAtZombie maze p = Some true.
Proof.
  intro Hout. apply outside_iff in Hout. unfold gridCoord in Hout.
  cbn [fst snd] in Hout. unfold isWallAt, isWallAtZombie.
  rewrite Hout. split; reflexivity.
Qed.

End GridFacts.

(** C8 at the position (20, 0, 0), whose grid column is 35, on a grid
    without any row. *)
Lemma out_of_bounds_is_wall_witness :
  (~ (0 <= fst (gridCoord (vec3 20 0 0)) < MAZE_SIZE)%Z \/
   ~ (0 <= snd (gridCoord (vec3 20 0 0)) < MAZE_SIZE)%Z) /\
  isWallAt (1 # 4) [] (vec3 20 0 0) = Some true /\
  isWallAtZombie [] (vec3 20 0 0) = Some true.
Proof.
  assert (H : ~ (0 <= fst (gridCoord (vec3 20 0 0)) < MAZE_SIZE)%Z \/
              ~ (0 <= snd (gridCoord (vec3 20 0 0)) < MAZE_SIZE)%Z).
  { left. vm_compute. intros [_ H]. discriminate H. }
  split; [exact H |].
  exact (out_of_bounds_is_wall (1 # 4) [] (vec3 20 0 0) H).
Defined.

(** ** Player collision resolution *)

Section PlayerFacts.

Variable playerRadius : Q.
Variable maze : Maze.
Hypothesis maze_rows : hasRows maze.

Lemma blocked_spec (p : Vector3) :
  isWallAt playerRadius maze p = Some (blocked playerRadius maze p).
Proof.
  unfold blocked.
  destruct (isWallAt_defined playerRadius maze p maze_rows) as [[|] ->];
    reflexivity.
Qed.

(** The micro-displacement loop takes the first unblocked displacement
    in the order of [microDirections]. *)
Lemma microLoop_find (currentPos p : Vector3) (dirs : list Vector3) :
  microLoop playerRadius maze currentPos p dirs =
  Some match find (fun c => negb (blocked playerRadius maze c))
                  (map (add currentPos) dirs) with
       | Some c => c
       | None => p
       end.
Proof.
  induction dirs as [| dir rest IH]; simpl; [reflexivity |].
  rewrite blocked_spec.
  destruct (blocked playerRadius maze (add currentPos dir)); simpl;
    [exact IH | reflexivity].
Qed.

Lemma resolveCollision_fallback (p newPosition : Vector3) :
  resolveCollision playerRadius maze p newPosition =
  Some (fallbackOrder playerRadius maze p newPosition).
Proof.
  unfold resolveCollision, fallbackOrder, candidates.
  cbn [app find].
  rewrite (blocked_spec newPosition).
  destruct (blocked playerRadius maze newPosition) eqn:Hfull;
    cbn [negb]; [| reflexivity].
  rewrite (blocked_spec (setX p (vx newPosition))).
  destruct (blocked playerRadius maze (setX p (vx newPosition))) eqn:HX;
    cbn [negb orb].
  - rewrite (blocked_spec (setZ p (vz newPosition))).
    destruct (blocked playerRadius maze (setZ p (vz newPosition))) eqn:HZ;
      cbn [negb].
    + apply microLoop_find.
    + reflexivity.
  - (* the X slide went through: the Z slide is tried from the new
       position, that is at the blocked full candidate *)
    rewrite (isWallAt_xz playerRadius maze
               (setZ (setX p (vx (setX p (vx newPosition)))) (vz newPosition))
               newPosition eq_refl eq_refl).
    rewrite (blocked_spec newPosition), Hfull. reflexivity.
Qed.

(** C9.  On a grid with all its rows, a frame of player movement
    returns the first unblocked position (thick-body test) of, in this
    order: the full candidate, the X-only slide, the Z-only slide and
    the eight micro-displacements of 0.005 (right, left, forward, back,
    then the four diagonals); when all are blocked the position is
    unchanged.  It always returns, without error.  The candidates are
    tried only when the velocity is longer than 0.001; otherwise the
    position is unchanged too. *)
Theorem player_fallback_order (p velocity : Vector3) :
  updatePosition playerRadius maze p velocity =
  Some (if longerThan velocity (1 # 1000)
        then fallbackOrder playerRadius maze p (add p velocity)
        else p).
Proof.
  unfold updatePosition.
  destruct (longerThan velocity (1 # 1000)); [| reflexivity].
  apply resolveCollision_fallback.
Qed.

End PlayerFacts.

(** C9 on the grid in which only the entrance cell is open: the player
    stands in it and moves right. *)
Lemma player_fallback_order_witness :
  hasRows (setCell allWalls 1 1 OPEN) /\
  updatePosition (1 # 4) (setCell allWalls 1 1 OPEN)
    (vec3 (- (27 # 2)) (3 # 2) (- (27 # 2))) (vec3 (8 # 100) 0 0) =
  Some (if longerThan (vec3 (8 # 100) 0 0) (1 # 1000)
        then fallbackOrder (1 # 4) (setCell allWalls 1 1 OPEN)
               (vec3 (- (27 # 2)) (3 # 2) (- (27 # 2)))
               (add (vec3 (- (27 # 2)) (3 # 2) (- (27 # 2))) (vec3 (8 # 100) 0 0))
        else vec3 (- (27 # 2)) (3 # 2) (- (27 # 2))).
Proof.
  split; [reflexivity |].
  apply (player_fallback_order (1 # 4) (setCell allWalls 1 1 OPEN)).
  reflexivity.
Defined.

(** A player wedged in solid rock: every candidate is blocked and the
    frame leaves the position as it is. *)
Example stuck_player_stays :
  updatePosition (1 # 4) allWalls (vec3 0 (3 # 2) 0) (vec3 (8 # 100) 0 (8 # 100)) =
  Some (vec3 0 (3 # 2) 0).
Proof. vm_compute. reflexivity. Qed.

(** ** Agents: the state update *)

Lemma stateEqb_spec (a b : State) : stateEqb a b = true <-> a = b.
Proof. destruct a, b; simpl; split; congruence. Qed.

Lemma inLane_spec (tolerance margin : Q) (p : Vector3) (j : Jumper) :
  inLane tolerance margin p j = true <-> withinLane tolerance margin p j.
Proof.
  unfold inLane, withinLane.
  destruct (patrolAxis j);
    rewrite !andb_true_iff, Qltb_spec, !Qleb_spec; tauto.
Qed.

Lemma inLane_false (tolerance margin : Q) (p : Vector3) (j : Jumper) :
  inLane tolerance margin p j = false <-> ~ withinLane tolerance margin p j.
Proof.
  rewrite <- inLane_spec. destruct (inLane tolerance margin p j);
    split; congruence.
Qed.

Section AgentFacts.

Variable jumpHeightAt : Q -> Q.
Variable player : Vector3.
Variable maze : Maze.

(** In Hunt mode the mode-select edition does what the basic edition
    does. *)
Lemma hunt_updateState (j : Jumper) :
  ModeSelect.updateState player hunt j = Basic.updateState player j.
Proof. reflexivity. Qed.

Lemma hunt_moveJumper (j : Jumper) :
  ModeSelect.moveJumper jumpHeightAt player hunt maze j =
  Some (Basic.moveJumper jumpHeightAt player j).
Proof.
  unfold ModeSelect.moveJumper, Basic.moveJumper.
  replace (globalChase j && isSurvival hunt) with false
    by (destruct (globalChase j); reflexivity).
  destruct (state j); reflexivity.
Qed.

Lemma hunt_updateJumper (j : Jumper) :
  ModeSelect.updateJumper jumpHeightAt player hunt maze j =
  Some (Basic.updateJumper jumpHeightAt player j).
Proof.
  unfold ModeSelect.updateJumper, Basic.updateJumper.
  rewrite hunt_updateState. apply hunt_moveJumper.
Qed.

Lemma basic_updateState_state (j : Jumper) :
  state (Basic.updateState player j) =
  if playerInLane player j then chasing
  else match state j with chasing => hopping | s => s end.
Proof.
  unfold Basic.updateState.
  destruct (playerInLane player j), (state j) eqn:E; simpl;
    try rewrite E; reflexivity.
Qed.

Lemma basic_moveJumper_state (j : Jumper) :
  state (Basic.moveJumper jumpHeightAt player j) = state j.
Proof. reflexivity. Qed.

(** The two passes over [jumpers] amount to one frame of each agent. *)
Lemma basic_updateJumpers_each (jumpers : list Jumper) :
  Basic.updateJumpers jumpHeightAt player jumpers =
  map (Basic.updateJumper jumpHeightAt player) jumpers.
Proof. unfold Basic.updateJumpers. rewrite map_map. reflexivity. Qed.

(** C3.  In Hunt mode, in both editions, an agent is chasing after a
    frame exactly when the player's position satisfies the aggro lane
    predicate of that agent: within 1.2 of the lane's fixed coordinate
    and, along the patrol axis, within the lane's span widened by 1.0
    at each end.  An agent that was chasing is hopping after the first
    frame in which the predicate is false. *)
Theorem hunt_chasing_iff_player_in_lane (j : Jumper) :
  ModeSelect.updateJumper jumpHeightAt player hunt maze j =
    Some (Basic.updateJumper jumpHeightAt player j) /\
  (state (Basic.updateJumper jumpHeightAt player j) = chasing <->
   withinLane (12 # 10) 1 player j) /\
  (state j = chasing -> ~ withinLane (12 # 10) 1 player j ->
   state (Basic.updateJumper jumpHeightAt player j) = hopping).
Proof.
  split; [apply hunt_updateJumper |].
  unfold Basic.updateJumper.
  rewrite basic_moveJumper_state, basic_updateState_state.
  split.
  - rewrite <- inLane_spec. fold (playerInLane player j).
    destruct (playerInLane player j).
    + tauto.
    + destruct (state j); split; congruence.
  - intros Hchasing Hout. apply inLane_false in Hout.
    fold (playerInLane player j) in Hout. rewrite Hout, Hchasing.
    reflexivity.
Qed.

End AgentFacts.

(** C3 at the patroller: the player at the end of its lane makes it
    chase; the player gone across to z = -5, it hops again. *)
Lemma hunt_chasing_iff_player_in_lane_witness :
  state (Basic.updateJumper Scenario.flat Scenario.playerAtLaneEnd
           Scenario.patroller) = chasing /\
  state (Basic.updateJumper Scenario.flat (vec3 (- (6)) (3 # 2) (- (5)))
           (Basic.updateJumper Scenario.flat Scenario.playerAtLaneEnd
              Scenario.patroller)) = hopping.
Proof.
  split.
  - apply (hunt_chasing_iff_player_in_lane Scenario.flat
             Scenario.playerAtLaneEnd Scenario.openGrid Scenario.patroller).
    apply inLane_spec. vm_compute. reflexivity.
  - apply (hunt_chasing_iff_player_in_lane Scenario.flat
             (vec3 (- (6)) (3 # 2) (- (5))) Scenario.openGrid
             (Basic.updateJumper Scenario.flat Scenario.playerAtLaneEnd
                Scenario.patroller)).
    + reflexivity.
    + intro Hin. apply inLane_spec in Hin. vm_compute in Hin.
      discriminate Hin.
Defined.

(** ** Agents: the clamp to the patrol bounds *)

Lemma clamp_compat (lo hi v w : Q) : v == w -> clamp lo hi v == clamp lo hi w.
Proof.
  intro H. unfold clamp.
  apply Q.max_compat; [reflexivity |].
  apply Q.min_compat; [reflexivity | exact H].
Qed.

Lemma clamp_between (lo hi v : Q) :
  lo <= hi -> lo <= clamp lo hi v /\ clamp lo hi v <= hi.
Proof.
  intro H. unfold clamp. split.
  - apply Q.le_max_l.
  - apply Q.max_lub; [exact H | apply Q.le_min_l].
Qed.

(** With the bounds the wrong way round, the clamp returns its lower
    bound whatever the coordinate. *)
Lemma clamp_pinned (lo hi v : Q) : hi <= lo -> clamp lo hi v == lo.
Proof.
  intro H. unfold clamp. apply Q.max_l.
  apply Qle_trans with hi; [apply Q.le_min_l | exact H].
Qed.

Section ClampFacts.

Variable jumpHeightAt : Q -> Q.
Variable player : Vector3.
Variable maze : Maze.

(** A Hunt move ends with the clamp, in every state. *)
Lemma basic_moveJumper_clamped (j : Jumper) :
  exists v : Q,
    along (patrolAxis j) (position (Basic.moveJumper jumpHeightAt player j)) =
    clamp (patrolMin j) (patrolMax j) v.
Proof.
  unfold Basic.moveJumper. destruct (patrolAxis j); cbn; eauto.
Qed.

Lemma basic_updateState_fields (j : Jumper) :
  patrolAxis (Basic.updateState player j) = patrolAxis j /\
  patrolMin (Basic.updateState player j) = patrolMin j /\
  patrolMax (Basic.updateState player j) = patrolMax j /\
  laneInfo (Basic.updateState player j) = laneInfo j /\
  position (Basic.updateState player j) = position j.
Proof.
  unfold Basic.updateState.
  destruct (playerInLane player j && negb (stateEqb (state j) chasing));
    [repeat split |].
  destruct (negb (playerInLane player j) && stateEqb (state j) chasing);
    repeat split.
Qed.

Lemma basic_updateJumper_fields (j : Jumper) :
  patrolAxis (Basic.updateJumper jumpHeightAt player j) = patrolAxis j /\
  patrolMin (Basic.updateJumper jumpHeightAt player j) = patrolMin j /\
  patrolMax (Basic.updateJumper jumpHeightAt player j) = patrolMax j /\
  laneInfo (Basic.updateJumper jumpHeightAt player j) = laneInfo j.
Proof.
  unfold Basic.updateJumper.
  destruct (basic_updateState_fields j) as (A & B & C & D & _).
  cbn. auto.
Qed.

(** The corrected form of C1.  In Hunt mode, in both editions, the
    move of a chasing agent whose lane runs along its patrol axis is one
    step of [JUMPER_SPEED] towards the player's coordinate on that axis,
    then clamped to the patrol bounds: with [patrolMin <= patrolMax] the
    agent's coordinate is within the bounds after the move and never
    beyond them. *)
Theorem hunt_chase_is_clamped (j : Jumper) :
  state j = chasing ->
  axis (laneInfo j) = patrolAxis j ->
  patrolMin j <= patrolMax j ->
  ModeSelect.moveJumper jumpHeightAt player hunt maze j =
    Some (Basic.moveJumper jumpHeightAt player j) /\
  patrolAxis (Basic.moveJumper jumpHeightAt player j) = patrolAxis j /\
  along (patrolAxis j) (position (Basic.moveJumper jumpHeightAt player j)) ==
    clamp (patrolMin j) (patrolMax j)
      (along (patrolAxis j) (position j) +
       (if Qltb (along (patrolAxis j) (position j)) (along (patrolAxis j) player)
        then JUMPER_SPEED else - JUMPER_SPEED)) /\
  patrolMin j <=
    along (patrolAxis j) (position (Basic.moveJumper jumpHeightAt player j)) /\
  along (patrolAxis j) (position (Basic.moveJumper jumpHeightAt player j)) <=
    patrolMax j.
Proof.
  intros Hstate Hlane Hbounds.
  split; [apply hunt_moveJumper |].
  split; [reflexivity |].
  split.
  - unfold Basic.moveJumper, chaseTarget, alignToLane.
    rewrite Hstate, Hlane.
    destruct (patrolAxis j); cbn [along];
      match goal with
      | |- context [Qltb ?a ?b] => destruct (Qltb a b)
      end; cbn; apply clamp_compat; unfold JUMPER_SPEED; ring.
  - destruct (basic_moveJumper_clamped j) as [v ->].
    apply clamp_between, Hbounds.
Qed.

End ClampFacts.

(** Frames do not touch the patrol bounds of a Hunt agent. *)
Lemma basic_run_fields (jumpHeightAt : Q -> Q) (players : list Vector3)
    (j : Jumper) :
  patrolAxis (Basic.run jumpHeightAt players j) = patrolAxis j /\
  patrolMin (Basic.run jumpHeightAt players j) = patrolMin j /\
  patrolMax (Basic.run jumpHeightAt players j) = patrolMax j.
Proof.
  unfold Basic.run. revert j.
  induction players as [| p rest IH]; intro j; simpl; [auto |].
  destruct (IH (Basic.updateJumper jumpHeightAt p j)) as (A & B & C).
  destruct (basic_updateJumper_fields jumpHeightAt p j) as (A' & B' & C' & _).
  rewrite A, B, C. auto.
Qed.

(** C1 as stated fails.  The agent spawned in the corridor of row 3,
    columns 5 to 9, with the player standing in its lane at x = -6: the
    agent starts chasing, reaches its upper patrol bound -7 in 13
    frames, and the next chasing frame, the player still ahead, leaves
    it at -7 instead of one step further. *)
Lemma hunt_chase_unclamped_counterexample :
  state (Basic.run Scenario.flat (repeat Scenario.playerAtLaneEnd 13)
           Scenario.patroller) = chasing /\
  vx (position (Basic.run Scenario.flat (repeat Scenario.playerAtLaneEnd 13)
                  Scenario.patroller)) == patrolMax Scenario.patroller /\
  patrolMax Scenario.patroller < vx Scenario.playerAtLaneEnd /\
  state (Basic.run Scenario.flat (repeat Scenario.playerAtLaneEnd 14)
           Scenario.patroller) = chasing /\
  vx (position (Basic.run Scenario.flat (repeat Scenario.playerAtLaneEnd 14)
                  Scenario.patroller)) == patrolMax Scenario.patroller /\
  ~ vx (position (Basic.run Scenario.flat (repeat Scenario.playerAtLaneEnd 14)
                    Scenario.patroller)) ==
    vx (position (Basic.run Scenario.flat (repeat Scenario.playerAtLaneEnd 13)
                    Scenario.patroller)) + JUMPER_SPEED.
Proof.
  repeat split; try (vm_compute; reflexivity).
  vm_compute. discriminate.
Qed.

(** The corrected C1 at the same agent, chasing at its upper bound. *)
Lemma hunt_chase_is_clamped_witness :
  patrolMin Scenario.patroller <=
    along (patrolAxis Scenario.patroller)
      (position (Basic.moveJumper Scenario.flat Scenario.playerAtLaneEnd
                   (Basic.run Scenario.flat (repeat Scenario.playerAtLaneEnd 13)
                      Scenario.patroller))) /\
  along (patrolAxis Scenario.patroller)
    (position (Basic.moveJumper Scenario.flat Scenario.playerAtLaneEnd
                 (Basic.run Scenario.flat (repeat Scenario.playerAtLaneEnd 13)
                    Scenario.patroller))) <=
    patrolMax Scenario.patroller.
Proof.
  assert (Hstate :
            state (Basic.run Scenario.flat (repeat Scenario.playerAtLaneEnd 13)
                     Scenario.patroller) = chasing) by reflexivity.
  assert (Hlane :
            axis (laneInfo (Basic.run Scenario.flat
                              (repeat Scenario.playerAtLaneEnd 13)
                              Scenario.patroller)) =
            patrolAxis (Basic.run Scenario.flat
                          (repeat Scenario.playerAtLaneEnd 13)
                          Scenario.patroller)) by reflexivity.
  assert (Hbounds :
            patrolMin (Basic.run Scenario.flat
                         (repeat Scenario.playerAtLaneEnd 13)
                         Scenario.patroller) <=
            patrolMax (Basic.run Scenario.flat
                         (repeat Scenario.playerAtLaneEnd 13)
                         Scenario.patroller))
    by (vm_compute; discriminate).
  destruct (hunt_chase_is_clamped Scenario.flat Scenario.playerAtLaneEnd
              Scenario.openGrid _ Hstate Hlane Hbounds)
    as (_ & _ & _ & Hlo & Hhi).
  split; [exact Hlo | exact Hhi].
Defined.

(** ** Agents in short corridors *)

Lemma spawn_bounds (phase : Q) (t : CorridorType) (fixed start length : Z) :
  patrolMax (spawnJumper phase (runCorridor t fixed start length)) -
  patrolMin (spawnJumper phase (runCorridor t fixed start length)) ==
  inject_Z length - 3.
Proof.
  unfold spawnJumper, runCorridor. destruct t; cbn;
    unfold toWorld; unfold Z.sub; rewrite !inject_Z_plus;
    change (inject_Z (- (1))) with (- (1)); ring.
Qed.

(** A run of two or three cells pins the agent spawned in it. *)
Lemma short_run_pins_agent (jumpHeightAt : Q -> Q) (maze : Maze)
    (phase : Q) (t : CorridorType) (fixed start length : Z)
    (players : list Vector3) (player : Vector3) :
  (2 <= length <= 3)%Z ->
  patrolMax (spawnJumper phase (runCorridor t fixed start length)) <=
    patrolMin (spawnJumper phase (runCorridor t fixed start length)) /\
  (length = 2%Z ->
   patrolMin (spawnJumper phase (runCorridor t fixed start length)) ==
   patrolMax (spawnJumper phase (runCorridor t fixed start length)) + 1) /\
  ModeSelect.updateJumper jumpHeightAt player hunt maze
    (Basic.run jumpHeightAt players
       (spawnJumper phase (runCorridor t fixed start length))) =
  Some (Basic.updateJumper jumpHeightAt player
          (Basic.run jumpHeightAt players
             (spawnJumper phase (runCorridor t fixed start length)))) /\
  along (patrolAxis (spawnJumper phase (runCorridor t fixed start length)))
    (position
       (Basic.updateJumper jumpHeightAt player
          (Basic.run jumpHeightAt players
             (spawnJumper phase (runCorridor t fixed start length))))) ==
  patrolMin (spawnJumper phase (runCorridor t fixed start length)) /\
  (forall s : State,
     along (patrolAxis (spawnJumper phase (runCorridor t fixed start length)))
       (position
          (Basic.moveJumper jumpHeightAt player
             (setState
                (Basic.run jumpHeightAt players
                   (spawnJumper phase (runCorridor t fixed start length)))
                s))) ==
     patrolMin (spawnJumper phase (runCorridor t fixed start length))).
Proof.
  intro Hlen.
  set (j0 := spawnJumper phase (runCorridor t fixed start length)).
  pose proof (spawn_bounds phase t fixed start length) as Hb. fold j0 in Hb.
  assert (Hle : inject_Z length <= 3).
  { change 3 with (inject_Z 3). rewrite <- Zle_Qle. lia. }
  assert (Hflip : patrolMax j0 <= patrolMin j0) by lra.
  destruct (basic_run_fields jumpHeightAt players j0) as (Ha & Hmin & Hmax).
  set (j := Basic.run jumpHeightAt players j0) in *.
  split; [exact Hflip |].
  split.
  { intros ->. change (inject_Z 2) with 2 in Hb. lra. }
  split; [apply hunt_updateJumper |].
  split.
  - destruct (basic_updateState_fields player j) as (A & B & C & _).
    unfold Basic.updateJumper.
    destruct (basic_moveJumper_clamped jumpHeightAt player
                (Basic.updateState player j)) as [v Hv].
    rewrite A, B, C, Ha, Hmin, Hmax in Hv. rewrite Hv.
    apply clamp_pinned, Hflip.
  - intro s.
    destruct (basic_moveJumper_clamped jumpHeightAt player (setState j s))
      as [v Hv].
    cbn [setState patrolAxis patrolMin patrolMax] in Hv.
    rewrite Ha, Hmin, Hmax in Hv. rewrite Hv.
    apply clamp_pinned, Hflip.
Qed.

(** ** Corridors found and selected *)

Lemma pushNew_In (corridors : list Corridor) (c x : Corridor) :
  In x (pushNew corridors c) -> In x corridors \/ x = c.
Proof.
  unfold pushNew. destruct (existsb (corridorEqb c) corridors); [auto |].
  rewrite in_app_iff. simpl. intuition.
Qed.

Lemma scanLine_runs (t : CorridorType) (fixed : Z) (cellOpen : Z -> bool)
    (line : list Z) :
  forall (start length : Z) (corridors : list Corridor),
    Forall isRun corridors ->
    Forall isRun (scanLine t fixed cellOpen line start length corridors).
Proof.
  assert (Hpush : forall start length corridors,
             Forall isRun corridors ->
             Forall isRun
               (if (length >=? 2)%Z
                then pushNew corridors (runCorridor t fixed start length)
                else corridors)).
  { intros start length corridors Hall.
    destruct (length >=? 2)%Z eqn:Hlen; [| exact Hall].
    apply Forall_forall. intros x Hx.
    apply pushNew_In in Hx. destruct Hx as [Hx | ->].
    - rewrite Forall_forall in Hall. auto.
    - exists t, fixed, start, length. split; [reflexivity |].
      apply Z.geb_le in Hlen. exact Hlen. }
  induction line as [| i rest IH]; intros start length corridors Hall;
    cbn [scanLine].
  - apply Hpush, Hall.
  - destruct (cellOpen i); apply IH; [exact Hall | apply Hpush, Hall].
Qed.

Lemma fold_scan_runs (t : CorridorType) (cellOpen : Z -> Z -> bool)
    (lines : list Z) :
  forall corridors : list Corridor,
    Forall isRun corridors ->
    Forall isRun
      (fold_left
         (fun acc k => scanLine t k (cellOpen k) inner (-1)%Z 0%Z acc)
         lines corridors).
Proof.
  induction lines as [| k rest IH]; intros corridors Hall; cbn [fold_left];
    [exact Hall |].
  apply IH, scanLine_runs, Hall.
Qed.

(** Every corridor found is a run of at least two cells. *)
Lemma findCorridors_runs (maze : Maze) : Forall isRun (findCorridors maze).
Proof.
  unfold findCorridors.
  apply (fold_scan_runs vertical (fun x z => isOpen maze (x, z))).
  apply (fold_scan_runs horizontal (fun z x => isOpen maze (x, z))).
  constructor.
Qed.

Lemma insertBy_In (cmp : Corridor -> Corridor -> Z) (c x : Corridor)
    (sorted : list Corridor) :
  In x (insertBy cmp c sorted) <-> x = c \/ In x sorted.
Proof.
  induction sorted as [| h rest IH]; simpl.
  - intuition.
  - destruct (cmp c h <? 0)%Z; simpl; [intuition |].
    rewrite IH. intuition.
Qed.

(** Sorting keeps the corridors. *)
Lemma sortBy_In (cmp : Corridor -> Corridor -> Z) (l : list Corridor)
    (x : Corridor) :
  In x (sortBy cmp l) <-> In x l.
Proof.
  unfold sortBy.
  assert (H : forall acc, In x (fold_left (fun s c => insertBy cmp c s) l acc)
                          <-> In x l \/ In x acc).
  { induction l as [| c rest IH]; intro acc; simpl; [intuition |].
    rewrite IH, insertBy_In. intuition. }
  rewrite H. simpl. intuition.
Qed.

Lemma firstPass_In (corridors : list Corridor) :
  forall (selected : list Corridor) (x : Corridor),
    In x (firstPass corridors selected) -> In x selected \/ In x corridors.
Proof.
  induction corridors as [| c rest IH]; intros selected x; cbn [firstPass];
    [auto |].
  destruct (JUMPER_COUNT <=? length selected)%nat; [auto |].
  destruct (clength c >=? 5)%Z; [| intro H; apply IH in H; cbn [In]; tauto].
  destruct (tooClose 4 selected c); intro H; apply IH in H; cbn [In];
    [tauto |].
  rewrite in_app_iff in H. cbn [In] in H. tauto.
Qed.

Lemma secondPass_In (corridors : list Corridor) :
  forall (selected : list Corridor) (x : Corridor),
    In x (secondPass corridors selected) -> In x selected \/ In x corridors.
Proof.
  induction corridors as [| c rest IH]; intros selected x; cbn [secondPass];
    [auto |].
  destruct (JUMPER_COUNT <=? length selected)%nat; [auto |].
  destruct (existsb (corridorEqb c) selected);
    [intro H; apply IH in H; cbn [In]; tauto |].
  destruct (tooClose 2 selected c); intro H; apply IH in H; cbn [In];
    [tauto |].
  rewrite in_app_iff in H. cbn [In] in H. tauto.
Qed.

(** Every selected corridor is one of the corridors found. *)
Lemma selected_found (maze : Maze) (c : Corridor) :
  In c (selectCorridors (sortBy byLength (sortBy byPosition (findCorridors maze)))) ->
  In c (findCorridors maze).
Proof.
  unfold selectCorridors. intro H.
  apply secondPass_In in H. destruct H as [H | H].
  - apply firstPass_In in H. destruct H as [[] | H].
    apply sortBy_In, sortBy_In in H. exact H.
  - apply sortBy_In, sortBy_In in H. exact H.
Qed.

(** C10.  For every corridor of length at most 3 that the allocator
    selects (the second pass takes any corridor found, of length 2 or
    more), the patrol bounds of the spawned agent are the wrong way
    round, [patrolMax <= patrolMin] (for length 2,
    [patrolMin = patrolMax + 1]); so after any number of Hunt frames
    the next frame, in either edition, and the move in any state, put
    the agent's patrol-axis coordinate at [patrolMin]. *)
Theorem short_corridor_pins_agent (jumpHeightAt : Q -> Q) (grid maze : Maze)
    (phase : Q) (c : Corridor) (players : list Vector3) (player : Vector3) :
  In c (selectCorridors
          (sortBy byLength (sortBy byPosition (findCorridors grid)))) ->
  (clength c <= 3)%Z ->
  patrolMax (spawnJumper phase c) <= patrolMin (spawnJumper phase c) /\
  (clength c = 2%Z ->
   patrolMin (spawnJumper phase c) == patrolMax (spawnJumper phase c) + 1) /\
  ModeSelect.updateJumper jumpHeightAt player hunt maze
    (Basic.run jumpHeightAt players (spawnJumper phase c)) =
  Some (Basic.updateJumper jumpHeightAt player
          (Basic.run jumpHeightAt players (spawnJumper phase c))) /\
  along (patrolAxis (spawnJumper phase c))
    (position
       (Basic.updateJumper jumpHeightAt player
          (Basic.run jumpHeightAt players (spawnJumper phase c)))) ==
  patrolMin (spawnJumper phase c) /\
  (forall s : State,
     along (patrolAxis (spawnJumper phase c))
       (position
          (Basic.moveJumper jumpHeightAt player
             (setState (Basic.run jumpHeightAt players (spawnJumper phase c))
                s))) ==
     patrolMin (spawnJumper phase c)).
Proof.
  intros Hsel Hshort.
  apply selected_found in Hsel.
  pose proof (findCorridors_runs grid) as Hruns.
  rewrite Forall_forall in Hruns.
  destruct (Hruns c Hsel) as (t & fixed & start & length & -> & Hlen).
  cbn [runCorridor clength] in Hshort |- *.
  apply short_run_pins_agent. lia.
Qed.

(** C10 at the corridor of the two-cell grid. *)
Lemma short_corridor_pins_agent_witness :
  In Scenario.shortCorridor
    (selectCorridors
       (sortBy byLength (sortBy byPosition (findCorridors Scenario.twoCellGrid)))) /\
  (clength Scenario.shortCorridor <= 3)%Z /\
  along (patrolAxis (spawnJumper 0 Scenario.shortCorridor))
    (position
       (Basic.updateJumper Scenario.flat Scenario.playerAtLaneEnd
          (Basic.run Scenario.flat [] (spawnJumper 0 Scenario.shortCorridor)))) ==
  patrolMin (spawnJumper 0 Scenario.shortCorridor).
Proof.
  assert (Hsel : In Scenario.shortCorridor
                   (selectCorridors
                      (sortBy byLength
                         (sortBy byPosition
                            (findCorridors Scenario.twoCellGrid)))))
    by (vm_compute; left; reflexivity).
  assert (Hshort : (clength Scenario.shortCorridor <= 3)%Z)
    by (vm_compute; discriminate).
  split; [exact Hsel |]. split; [exact Hshort |].
  destruct (short_corridor_pins_agent Scenario.flat Scenario.twoCellGrid
              Scenario.openGrid 0 Scenario.shortCorridor []
              Scenario.playerAtLaneEnd Hsel Hshort)
    as (_ & _ & _ & Hpin & _).
  exact Hpin.
Defined.

(** ** The spacing of the selection *)

Lemma ctypeEqb_spec (a b : CorridorType) : ctypeEqb a b = true <-> a = b.
Proof. destruct a, b; simpl; split; congruence. Qed.

Lemma tooClose_false (d : Z) (selected : list Corridor) (c s : Corridor) :
  tooClose d selected c = false ->
  In s selected -> ctype c = ctype s ->
  (d <= Z.abs (cfixed c - cfixed s))%Z.
Proof.
  unfold tooClose. intros Hfar Hin Htype.
  destruct (Z_le_gt_dec d (Z.abs (cfixed c - cfixed s))) as [H | H];
    [exact H | exfalso].
  assert (Hclose : existsb
                     (fun s0 => ctypeEqb (ctype c) (ctype s0) &&
                                (Z.abs (cfixed c - cfixed s0) <? d)%Z)
                     selected = true).
  { apply existsb_exists. exists s. split; [exact Hin |].
    apply andb_true_iff. split; [apply ctypeEqb_spec, Htype |].
    apply Z.ltb_lt. lia. }
  congruence.
Qed.

(** Appending a corridor that passed the spacing test keeps the
    selection spaced. *)
Lemma spaced_snoc (d : Z) (selected : list Corridor) (c : Corridor) :
  spaced d selected -> tooClose d selected c = false ->
  spaced d (selected ++ [c]).
Proof.
  intros Hsp Hfar i j a b Hij Ha Hb Htype.
  destruct (Nat.lt_ge_cases i (length selected)) as [Hi | Hi];
    destruct (Nat.lt_ge_cases j (length selected)) as [Hj | Hj].
  - rewrite nth_error_app1 in Ha, Hb by assumption. eauto.
  - rewrite nth_error_app1 in Ha by assumption.
    rewrite nth_error_app2 in Hb by assumption.
    destruct (j - length selected)%nat as [| k]; simpl in Hb;
      [| destruct k; discriminate].
    injection Hb as <-.
    apply nth_error_In in Ha.
    rewrite <- Z.abs_opp.
    replace (- (cfixed a - cfixed c))%Z with (cfixed c - cfixed a)%Z by lia.
    apply (tooClose_false d selected c a Hfar Ha). congruence.
  - rewrite nth_error_app2 in Ha by assumption.
    rewrite nth_error_app1 in Hb by assumption.
    destruct (i - length selected)%nat as [| k]; simpl in Ha;
      [| destruct k; discriminate].
    injection Ha as <-.
    apply nth_error_In in Hb.
    apply (tooClose_false d selected c b Hfar Hb Htype).
  - rewrite nth_error_app2 in Ha, Hb by assumption.
    destruct (i - length selected)%nat as [| k] eqn:Ei; simpl in Ha;
      [| destruct k; discriminate].
    destruct (j - length selected)%nat as [| k] eqn:Ej; simpl in Hb;
      [| destruct k; discriminate].
    exfalso. lia.
Qed.

Lemma spaced_weaken (d d' : Z) (selected : list Corridor) :
  (d' <= d)%Z -> spaced d selected -> spaced d' selected.
Proof.
  intros Hle Hsp i j a b Hij Ha Hb Htype.
  specialize (Hsp i j a b Hij Ha Hb Htype). lia.
Qed.

Lemma spaced_nil (d : Z) : spaced d [].
Proof. intros [|i] j a b _ Ha; discriminate Ha. Qed.

Section Passes.

Variable corridors0 : list Corridor.

(** What both passes keep: the selection stays spaced, only grows at
    its end, and never exceeds [JUMPER_COUNT]. *)
Lemma firstPass_invariant (corridors : list Corridor) :
  forall selected : list Corridor,
    spaced 4 selected ->
    Forall (fun c => (5 <= clength c)%Z) selected ->
    (length selected <= JUMPER_COUNT)%nat ->
    spaced 4 (firstPass corridors selected) /\
    Forall (fun c => (5 <= clength c)%Z) (firstPass corridors selected) /\
    (length (firstPass corridors selected) <= JUMPER_COUNT)%nat.
Proof.
  induction corridors as [| c rest IH]; intros selected Hsp Hlong Hlen;
    cbn [firstPass]; [auto |].
  destruct (JUMPER_COUNT <=? length selected)%nat eqn:Hfull; [auto |].
  apply Nat.leb_gt in Hfull.
  destruct (clength c >=? 5)%Z eqn:Hc; [| auto].
  destruct (tooClose 4 selected c) eqn:Hfar; [auto |].
  apply IH.
  - apply spaced_snoc; assumption.
  - apply Forall_app. split; [exact Hlong |].
    constructor; [apply Z.geb_le in Hc; exact Hc | constructor].
  - rewrite length_app. simpl. lia.
Qed.

Lemma secondPass_invariant (corridors : list Corridor) :
  forall selected : list Corridor,
    spaced 2 selected ->
    (length selected <= JUMPER_COUNT)%nat ->
    spaced 2 (secondPass corridors selected) /\
    (exists extra, secondPass corridors selected = selected ++ extra) /\
    (length (secondPass corridors selected) <= JUMPER_COUNT)%nat.
Proof.
  induction corridors as [| c rest IH]; intros selected Hsp Hlen;
    cbn [secondPass].
  - split; [exact Hsp |]. split; [exists []; symmetry; apply app_nil_r | exact Hlen].
  - destruct (JUMPER_COUNT <=? length selected)%nat eqn:Hfull.
    { split; [exact Hsp |].
      split; [exists []; symmetry; apply app_nil_r | exact Hlen]. }
    apply Nat.leb_gt in Hfull.
    destruct (existsb (corridorEqb c) selected); [auto |].
    destruct (tooClose 2 selected c) eqn:Hfar; [auto |].
    destruct (IH (selected ++ [c])) as (A & (extra & B) & C).
    + apply spaced_snoc; assumption.
    + rewrite length_app. simpl. lia.
    + split; [exact A |]. split; [| exact C].
      exists (c :: extra). rewrite B, <- app_assoc. reflexivity.
Qed.

(** C7.  Whatever the corridors, the first pass selects corridors of
    length 5 or more whose same-orientation pairs are at least 4 apart;
    the final selection, after the second pass, begins with them, has
    all its same-orientation pairs at least 2 apart, and holds at most
    [JUMPER_COUNT] corridors. *)
Theorem selection_is_spaced :
  spaced 4 (firstPass corridors0 []) /\
  Forall (fun c => (5 <= clength c)%Z) (firstPass corridors0 []) /\
  spaced 2 (selectCorridors corridors0) /\
  (exists extra, selectCorridors corridors0 = firstPass corridors0 [] ++ extra) /\
  (length (selectCorridors corridors0) <= JUMPER_COUNT)%nat.
Proof.
  destruct (firstPass_invariant corridors0 [] (spaced_nil 4) (Forall_nil _))
    as (A & B & C); [unfold JUMPER_COUNT; simpl; lia |].
  destruct (secondPass_invariant corridors0 (firstPass corridors0 [])
              (spaced_weaken 4 2 _ ltac:(lia) A) C) as (D & E & F).
  unfold selectCorridors. auto.
Qed.

End Passes.

(** C7 on four corridors: rows 1 and 5 and the column are taken by
    the first pass (row 3 is only 2 from row 1), row 3 by the second;
    rows 1 and 3 end up 2 apart. *)
Lemma selection_is_spaced_witness :
  selectCorridors Scenario.fourCorridors =
    [ runCorridor horizontal 1 1 6; runCorridor horizontal 5 1 6;
      runCorridor vertical 1 1 6; runCorridor horizontal 3 1 6 ] /\
  (2 <= Z.abs (cfixed (runCorridor horizontal 1 1 6) -
               cfixed (runCorridor horizontal 3 1 6)))%Z.
Proof.
  split; [reflexivity |].
  destruct (selection_is_spaced Scenario.fourCorridors) as (_ & _ & H & _).
  apply (H 0%nat 3%nat); [discriminate | reflexivity | reflexivity | reflexivity].
Defined.

(** ** Survival: the sticky chase *)

Section SurvivalFacts.

Variable jumpHeightAt : Q -> Q.
Variable maze : Maze.
Hypothesis maze_rows : hasRows maze.

Lemma survival_updateState_keeps (player : Vector3) (j : Jumper) :
  (globalChase j = true ->
   globalChase (ModeSelect.updateState player survival j) = true) /\
  (state j = chasing ->
   state (ModeSelect.updateState player survival j) = chasing).
Proof.
  unfold ModeSelect.updateState. cbn [isSurvival].
  destruct (playerInLane player j && negb (stateEqb (state j) chasing));
    cbn; auto.
Qed.

Lemma survival_updateState_sets (player : Vector3) (j : Jumper) :
  withinLane (12 # 10) 1 player j -> state j <> chasing ->
  globalChase (ModeSelect.updateState player survival j) = true /\
  state (ModeSelect.updateState player survival j) = chasing.
Proof.
  intros Hin Hnot. apply inLane_spec in Hin.
  unfold ModeSelect.updateState, playerInLane. cbn [isSurvival].
  rewrite Hin.
  destruct (stateEqb (state j) chasing) eqn:E;
    [apply stateEqb_spec in E; contradiction |].
  cbn. auto.
Qed.

(** A move changes neither the state nor [globalChase]; on a grid with
    all its rows it always returns. *)
Lemma moveJumper_keeps (player : Vector3) (gameMode : GameMode) (j : Jumper) :
  exists j',
    ModeSelect.moveJumper jumpHeightAt player gameMode maze j = Some j' /\
    state j' = state j /\ globalChase j' = globalChase j.
Proof.
  unfold ModeSelect.moveJumper.
  destruct (globalChase j && isSurvival gameMode) eqn:G.
  - destruct (ModeSelect.pursuit player j) as [t a] eqn:P.
    destruct (state j) eqn:S; cbv beta iota zeta;
      case_outside Hout; eauto;
      destruct (isWallCell_defined maze _ _ maze_rows Hout) as [[|] ->];
      eauto.
  - destruct (state j) eqn:S; cbv beta iota zeta; eauto.
Qed.

Lemma survival_run_keeps (players : list Vector3) :
  forall j : Jumper,
  exists j',
    ModeSelect.run jumpHeightAt survival maze players j = Some j' /\
    (globalChase j = true -> globalChase j' = true) /\
    (state j = chasing -> state j' = chasing).
Proof.
  induction players as [| player rest IH]; intro j; cbn [ModeSelect.run].
  - exists j. auto.
  - unfold ModeSelect.updateJumper.
    destruct (moveJumper_keeps player survival
                (ModeSelect.updateState player survival j))
      as (j1 & -> & Hs & Hg).
    destruct (survival_updateState_keeps player j) as [Kg Ks].
    destruct (IH j1) as (j' & Hrun & Hg' & Hs').
    exists j'. split; [exact Hrun |].
    split; intro H.
    + apply Hg'. rewrite Hg. auto.
    + apply Hs'. rewrite Hs. auto.
Qed.

(** C4.  In Survival mode, on a grid with all its rows: the frame in
    which the player satisfies the lane predicate of an agent that is
    not chasing sets both its state to chasing and its [globalChase]
    flag; and every run of frames, wherever the player goes, returns an
    agent whose [globalChase] is still set if it was, and which is
    still chasing if it was. *)
Theorem survival_chase_is_sticky (players : list Vector3) (player : Vector3)
    (j : Jumper) :
  (withinLane (12 # 10) 1 player j -> state j <> chasing ->
   globalChase (ModeSelect.updateState player survival j) = true /\
   state (ModeSelect.updateState player survival j) = chasing) /\
  exists j',
    ModeSelect.run jumpHeightAt survival maze players j = Some j' /\
    (globalChase j = true -> globalChase j' = true) /\
    (state j = chasing -> state j' = chasing).
Proof.
  split; [apply survival_updateState_sets | apply survival_run_keeps].
Qed.

End SurvivalFacts.

(** C4 on the open grid: the sentinel sees the player in its lane, and
    is still chasing, its flag set, after the player has gone far off. *)
Lemma survival_chase_is_sticky_witness :
  hasRows Scenario.openGrid /\
  globalChase
    (ModeSelect.updateState Scenario.playerInSight survival Scenario.sentinel) =
  true /\
  exists j',
    ModeSelect.run Scenario.flat survival Scenario.openGrid
      [ Scenario.playerFarAlongZ; Scenario.playerFarAlongZ ]
      (ModeSelect.updateState Scenario.playerInSight survival Scenario.sentinel) =
    Some j' /\
    globalChase j' = true /\ state j' = chasing.
Proof.
  assert (Hrows : hasRows Scenario.openGrid) by reflexivity.
  assert (Hin : withinLane (12 # 10) 1 Scenario.playerInSight Scenario.sentinel)
    by (apply inLane_spec; vm_compute; reflexivity).
  assert (Hnot : state Scenario.sentinel <> chasing) by discriminate.
  destruct (survival_chase_is_sticky Scenario.flat Scenario.openGrid Hrows
              [] Scenario.playerInSight Scenario.sentinel)
    as [Hset _].
  destruct (Hset Hin Hnot) as [Hg Hs].
  destruct (survival_chase_is_sticky Scenario.flat Scenario.openGrid Hrows
              [ Scenario.playerFarAlongZ; Scenario.playerFarAlongZ ]
              Scenario.playerInSight
              (ModeSelect.updateState Scenario.playerInSight survival
                 Scenario.sentinel))
    as [_ (j' & Hrun & Kg & Ks)].
  split; [exact Hrows |]. split; [exact Hg |].
  exists j'. split; [exact Hrun |]. split; [exact (Kg Hg) | exact (Ks Hs)].
Defined.

(** ** Survival: the pursuit *)

Section PursuitFacts.

Variable jumpHeightAt : Q -> Q.
Variable player : Vector3.
Variable maze : Maze.
Hypothesis maze_rows : hasRows maze.

(** The axis the pursuit moves along, which becomes the patrol axis:
    the agent's own while the player is more than 0.5 away on it,
    otherwise the axis of the greater displacement (z on a tie). *)
Lemma pursuit_axis (j : Jumper) :
  let d := along (patrolAxis j) player - along (patrolAxis j) (position j) in
  let dx := vx player - vx (position j) in
  let dz := vz player - vz (position j) in
  ((1 # 2) < Qabs d -> snd (ModeSelect.pursuit player j) = patrolAxis j) /\
  (Qabs d <= (1 # 2) ->
   (snd (ModeSelect.pursuit player j) = axisX <-> Qabs dz < Qabs dx)).
Proof.
  unfold ModeSelect.pursuit.
  destruct (patrolAxis j) eqn:Ha; cbn [axisEqb along andb];
    cbv zeta;
    match goal with
    | |- context [Qltb (1 # 2) ?a] =>
        destruct (Qltb (1 # 2) a) eqn:Hfar;
        [apply Qltb_spec in Hfar | apply Qltb_false in Hfar]
    end; cbn [snd];
    (split; [intro Hfar' | intro Hnear]);
    try reflexivity; try (exfalso; lra);
    match goal with
    | |- context [Qltb (Qabs ?a) (Qabs ?b)] =>
        destruct (Qltb (Qabs a) (Qabs b)) eqn:Hcmp;
        [apply Qltb_spec in Hcmp | apply Qltb_false in Hcmp]
    end; cbn [snd]; try (exfalso; lra);
    split; intro H; try reflexivity; try discriminate; try assumption;
    try (exfalso; lra).
Qed.

(** The direction of the pursuit: along its axis, towards the player. *)
Lemma pursuit_target (j : Jumper) :
  fst (ModeSelect.pursuit player j) =
  onAxis (snd (ModeSelect.pursuit player j))
    (if Qltb 0 (along (snd (ModeSelect.pursuit player j)) player -
                along (snd (ModeSelect.pursuit player j)) (position j))
     then 1 else -1)%Z.
Proof.
  unfold ModeSelect.pursuit.
  destruct (patrolAxis j) eqn:Ha; cbn [axisEqb andb]; cbv zeta;
    repeat match goal with
           | |- context [if ?c then (_, _) else _] => destruct c
           end; reflexivity.
Qed.

(** The corrected form of C6.  In Survival mode, on a grid with all its
    rows, a chasing agent with [globalChase] set moves along its own
    patrol axis as long as the player is more than 0.5 away on that
    axis; only otherwise does it compare [|dx|] with [|dz|] and take,
    and re-label its patrol axis to, the axis of the greater one (z on
    a tie).  The candidate is half a [JUMPER_SPEED] step towards the
    player on that axis; if its grid cell is outside the grid or a wall
    the agent's x and z are unchanged, otherwise they are the
    candidate's. *)
Theorem survival_pursuit_step (j : Jumper) :
  state j = chasing -> globalChase j = true ->
  exists j',
    ModeSelect.moveJumper jumpHeightAt player survival maze j = Some j' /\
    ((1 # 2) < Qabs (along (patrolAxis j) player -
                     along (patrolAxis j) (position j)) ->
     patrolAxis j' = patrolAxis j) /\
    (Qabs (along (patrolAxis j) player -
           along (patrolAxis j) (position j)) <= (1 # 2) ->
     (patrolAxis j' = axisX <->
      Qabs (vz player - vz (position j)) < Qabs (vx player - vx (position j)))) /\
    let candidate :=
      addScaled (position j)
        (normalize
           (onAxis (patrolAxis j')
              (if Qltb 0 (along (patrolAxis j') player -
                          along (patrolAxis j') (position j))
               then 1 else -1)%Z))
        (JUMPER_SPEED * (5 # 10)) in
    vx (position j') = (if inWallCell maze candidate then vx (position j)
                        else vx candidate) /\
    vz (position j') = (if inWallCell maze candidate then vz (position j)
                        else vz candidate).
Proof.
  intros Hstate Hglobal.
  pose proof (pursuit_axis j) as Haxis.
  pose proof (pursuit_target j) as Htarget.
  unfold ModeSelect.moveJumper.
  rewrite Hstate, Hglobal. cbn [isSurvival andb stateEqb].
  destruct (ModeSelect.pursuit player j) as [t a] eqn:P.
  cbn [fst snd] in Haxis, Htarget. cbv zeta in Haxis.
  cbv beta iota zeta.
  assert (Hmag : negb (magnitude t =? 0)%Z = true).
  { rewrite Htarget.
    destruct a, (Qltb 0 _); reflexivity. }
  rewrite Hmag.
  assert (Hlong : longerThan (normalize t) (1 # 10) = true).
  { rewrite Htarget.
    destruct a, (Qltb 0 _); reflexivity. }
  rewrite Hlong.
  case_outside Hout.
  - eexists. split; [reflexivity |].
    cbn [patrolAxis position vx vz]. rewrite <- Htarget.
    unfold inWallCell, gridCoord. cbn [fst snd]. rewrite Hout.
    cbn [orb]. tauto.
  - destruct (isWallCell_defined maze _ _ maze_rows Hout) as [[|] Hcell];
      rewrite Hcell;
      (eexists; split; [reflexivity |]);
      cbn [patrolAxis position vx vz]; rewrite <- Htarget;
      unfold inWallCell, gridCoord; cbn [fst snd]; rewrite Hout, Hcell;
      cbn [orb]; tauto.
Qed.

End PursuitFacts.

(** C6 as stated fails.  The sentinel, chasing in Survival after
    seeing the player, has patrol axis x; the player is then 0.96 away
    along x and 5 away along z.  The displacement is greater along z,
    yet the agent steps 0.04 along x, keeps its z, and keeps its patrol
    axis x. *)
Lemma survival_greater_axis_counterexample :
  exists j1 j2,
    ModeSelect.run Scenario.flat survival Scenario.openGrid
      [ Scenario.playerInSight ] Scenario.sentinel = Some j1 /\
    state j1 = chasing /\ globalChase j1 = true /\ patrolAxis j1 = axisX /\
    Qabs (vx Scenario.playerFarAlongZ - vx (position j1)) <
    Qabs (vz Scenario.playerFarAlongZ - vz (position j1)) /\
    ModeSelect.moveJumper Scenario.flat Scenario.playerFarAlongZ survival
      Scenario.openGrid j1 = Some j2 /\
    patrolAxis j2 = axisX /\
    vz (position j2) == vz (position j1) /\
    vx (position j2) == vx (position j1) + (4 # 100).
Proof.
  eexists. eexists.
  split; [vm_compute; reflexivity |].
  repeat split; vm_compute; reflexivity.
Qed.

(** The test of the pursuit is the lookup of the candidate's own cell,
    not the thin-body test: in its corridor, walled on both sides, the
    sentinel steps on although [isWallAtZombie] calls the candidate a
    wall (its corners at z - 0.001 lie in the row below). *)
Example pursuit_check_is_not_thin_body :
  exists j1 j2,
    ModeSelect.run Scenario.flat survival Scenario.corridorGrid
      [ Scenario.playerInSight ] Scenario.sentinel = Some j1 /\
    ModeSelect.moveJumper Scenario.flat Scenario.playerInSight survival
      Scenario.corridorGrid j1 = Some j2 /\
    vx (position j2) == vx (position j1) + (4 # 100) /\
    isWallAtZombie Scenario.corridorGrid (position j2) = Some true.
Proof.
  eexists. eexists.
  split; [vm_compute; reflexivity |].
  repeat split; vm_compute; reflexivity.
Qed.

(** The corrected C6 at the sentinel, the player far off along z: the
    agent stays on its axis x. *)
Lemma survival_pursuit_step_witness :
  hasRows Scenario.openGrid /\
  exists j',
    ModeSelect.moveJumper Scenario.flat Scenario.playerFarAlongZ survival
      Scenario.openGrid
      (ModeSelect.updateState Scenario.playerInSight survival Scenario.sentinel) =
    Some j' /\
    patrolAxis j' = axisX.
Proof.
  assert (Hrows : hasRows Scenario.openGrid) by reflexivity.
  split; [exact Hrows |].
  destruct (survival_pursuit_step Scenario.flat Scenario.playerFarAlongZ
              Scenario.openGrid Hrows
              (ModeSelect.updateState Scenario.playerInSight survival
                 Scenario.sentinel) eq_refl eq_refl)
    as (j' & Hmove & Hown & _).
  exists j'. split; [exact Hmove |].
  apply Hown. vm_compute. reflexivity.
Defined.

(** ** Combat legality *)

Lemma closerThan_spec (a b : Vector3) (r : Q) :
  closerThan a b r = true <-> distanceSq a b < r * r.
Proof. apply Qltb_spec. Qed.

Lemma knifeHits_spec (q : Vector3) (j : Jumper) :
  knifeHits q j = true <->
  withinLane (8 # 10) (1 # 2) q j /\
  distanceSq q (position j) < KNIFE_RANGE * KNIFE_RANGE.
Proof.
  unfold knifeHits, inSameLane.
  rewrite andb_true_iff, inLane_spec, closerThan_spec. tauto.
Qed.

Lemma bulletHits_spec (q : Vector3) (j : Jumper) :
  bulletHits q j = true <->
  withinLane (8 # 10) (1 # 2) q j /\
  distanceSq q (position j) < (7 # 10) * (7 # 10).
Proof.
  unfold bulletHits, inSameLane.
  rewrite andb_true_iff, inLane_spec, closerThan_spec. tauto.
Qed.

(** The knife loop registers one hit when some agent can be hit, and
    none otherwise. *)
Lemma knifeLoop_count (q : Vector3) (reversed : list Jumper) :
  snd (knifeLoop q reversed 0) =
  if existsb (knifeHits q) reversed then 1%nat else 0%nat.
Proof.
  induction reversed as [| j rest IH]; [reflexivity |].
  cbn [knifeLoop existsb]. change (0 <? maxHits)%nat with true.
  cbv iota.
  destruct (knifeHits q j); cbn [orb].
  - destruct rest; reflexivity.
  - destruct (knifeLoop q rest 0) as [others n]. exact IH.
Qed.

Lemma knifeAttack_count (q : Vector3) (jumpers : list Jumper) :
  snd (knifeAttack q jumpers) =
  if existsb (knifeHits q) jumpers then 1%nat else 0%nat.
Proof.
  unfold knifeAttack.
  pose proof (knifeLoop_count q (rev jumpers)) as H.
  destruct (knifeLoop q (rev jumpers) 0) as [others n]. cbn [snd] in *.
  rewrite H.
  destruct (existsb (knifeHits q) (rev jumpers)) eqn:E1;
    destruct (existsb (knifeHits q) jumpers) eqn:E2; try reflexivity.
  - apply existsb_exists in E1. destruct E1 as (x & Hin & Hx).
    apply in_rev in Hin.
    assert (existsb (knifeHits q) jumpers = true)
      by (apply existsb_exists; eauto).
    congruence.
  - apply existsb_exists in E2. destruct E2 as (x & Hin & Hx).
    apply in_rev in Hin.
    assert (existsb (knifeHits q) (rev jumpers) = true)
      by (apply existsb_exists; eauto).
    congruence.
Qed.

(** The scan of a bullet finds an agent exactly when some agent can
    be hit. *)
Lemma hitScan_found (bullet : Vector3) (reversed : list Jumper) :
  hitScan bullet reversed <> None <->
  existsb (bulletHits bullet) reversed = true.
Proof.
  induction reversed as [| j rest IH]; cbn [hitScan existsb].
  - split; [intro H; contradiction H; reflexivity | discriminate].
  - destruct (bulletHits bullet j); cbn [orb].
    + split; [reflexivity | discriminate].
    + rewrite <- IH. destruct (hitScan bullet rest); split; intro H;
        try discriminate; try (contradiction H; reflexivity).
Qed.

(** ** The maze generator *)

Lemma nth_error_setNth {A : Type} (a : list A) (n k : nat) (v : A) :
  nth_error (setNth a n v) k =
  if ((k =? n) && (n <? length a))%nat then Some v else nth_error a k.
Proof.
  revert n k. induction a as [| h rest IH]; intros n k.
  - cbn [setNth length].
    replace (n <? 0)%nat with false by reflexivity.
    rewrite andb_false_r. destruct n; reflexivity.
  - destruct n as [| n], k as [| k]; cbn [setNth nth_error length];
      try reflexivity.
    rewrite IH. reflexivity.
Qed.

Lemma index_setIndex {A : Type} (a : list A) (i k : Z) (v : A) :
  index (setIndex a i v) k =
  match index a i with
  | Some _ => if (k =? i)%Z then Some v else index a k
  | None => index a k
  end.
Proof.
  unfold index, setIndex.
  destruct (i <? 0)%Z eqn:Hi; [reflexivity |].
  apply Z.ltb_ge in Hi.
  destruct (k <? 0)%Z eqn:Hk.
  - apply Z.ltb_lt in Hk.
    destruct (nth_error a (Z.to_nat i)); [| reflexivity].
    destruct (k =? i)%Z eqn:E; [apply Z.eqb_eq in E; lia | reflexivity].
  - apply Z.ltb_ge in Hk. rewrite nth_error_setNth.
    destruct (nth_error a (Z.to_nat i)) eqn:Hn.
    + assert (Hlt : (Z.to_nat i < length a)%nat)
        by (apply nth_error_Some; congruence).
      apply Nat.ltb_lt in Hlt. rewrite Hlt, andb_true_r.
      destruct (k =? i)%Z eqn:E.
      * apply Z.eqb_eq in E. subst k. rewrite Nat.eqb_refl. reflexivity.
      * apply Z.eqb_neq in E.
        destruct (Z.to_nat k =? Z.to_nat i)%nat eqn:E';
          [apply Nat.eqb_eq in E'; lia | reflexivity].
    + apply nth_error_None in Hn. apply Nat.ltb_ge in Hn.
      rewrite Hn, andb_false_r. reflexivity.
Qed.

(** Opening a cell closes none. *)
Lemma setCell_open_keeps (m : Maze) (x y : Z) (c : Cell) :
  isOpen m c = true -> isOpen (setCell m x y OPEN) c = true.
Proof.
  unfold isOpen, setCell. intro H.
  destruct (index m x) as [row |] eqn:Hrow; [| exact H].
  rewrite index_setIndex, Hrow.
  destruct (fst c =? x)%Z eqn:E; [| exact H].
  apply Z.eqb_eq in E. rewrite E, Hrow in H.
  rewrite index_setIndex.
  destruct (index row y); [| exact H].
  destruct (snd c =? y)%Z; [reflexivity | exact H].
Qed.

(** A cell open after [maze[x][y] = 0] was open before or is the cell
    written. *)
Lemma setCell_open_inv (m : Maze) (x y : Z) (c : Cell) :
  isOpen (setCell m x y OPEN) c = true -> isOpen m c = true \/ c = (x, y).
Proof.
  unfold isOpen, setCell.
  destruct (index m x) as [row |] eqn:Hrow; [| auto].
  rewrite index_setIndex, Hrow.
  destruct (fst c =? x)%Z eqn:E; [| auto].
  apply Z.eqb_eq in E. rewrite E, Hrow.
  rewrite index_setIndex.
  destruct (index row y); [| auto].
  destruct (snd c =? y)%Z eqn:E'; [| auto].
  apply Z.eqb_eq in E'. intros _. right.
  destruct c as [cx cy]. cbn in E, E'. congruence.
Qed.

Lemma noisePass_keeps (random : nat -> Q) (attempts : nat) (c : Cell) :
  forall (m : Maze) (n : nat) (m' : Maze) (n' : nat),
    noisePass random attempts m n = Some (m', n') ->
    isOpen m c = true -> isOpen m' c = true.
Proof.
  induction attempts as [| k IH]; intros m n m' n' Hrun Hopen;
    cbn [noisePass] in Hrun.
  - injection Hrun as <- _. exact Hopen.
  - cbv zeta in Hrun.
    destruct (isWallCell m _ _) as [[|] |]; [| eauto | discriminate].
    apply IH in Hrun; [exact Hrun |].
    repeat match goal with
           | |- isOpen (if ?b then _ else _) c = true => destruct b
           | |- isOpen (setCell _ _ _ OPEN) c = true => apply setCell_open_keeps
           end; exact Hopen.
Qed.

Lemma clearExit_keeps (m : Maze) (c : Cell) :
  isOpen m c = true -> isOpen (clearExit m) c = true.
Proof.
  intro H. unfold clearExit. cbv zeta.
  repeat apply setCell_open_keeps. exact H.
Qed.

Lemma clearPickup_keeps (m : Maze) (c : Cell) :
  isOpen m c = true -> isOpen (clearPickup m) c = true.
Proof.
  unfold clearPickup.
  generalize (list_prod [ -1; 0; 1 ]%Z [ -1; 0; 1 ]%Z).
  intro l. revert m.
  induction l as [| d rest IH]; intros m H; cbn [fold_left]; [exact H |].
  apply IH.
  destruct (negb (outside _ _)); [apply setCell_open_keeps |]; exact H.
Qed.

(** X2.  The passes after the carving only open cells: a cell open in the
    carved maze is open in the generated one. *)
Theorem post_passes_never_close (random : nat -> Q) (s : Carve) (m : Maze)
    (c : Cell) :
  carveLoop random carveFuel carveStart = Some s ->
  generateMaze random = Some m ->
  isOpen (maze s) c = true -> isOpen m c = true.
Proof.
  intros Hcarve Hgen Hopen. unfold generateMaze in Hgen.
  rewrite Hcarve in Hgen.
  destruct (noisePass random 15 (maze s) (calls s)) as [[m1 n1] |] eqn:Hnoise;
    [| discriminate].
  injection Hgen as <-.
  apply clearPickup_keeps, clearExit_keeps.
  exact (noisePass_keeps random 15 c _ _ _ _ Hnoise Hopen).
Qed.

(** [post_passes_never_close] at the isolating oracle and the lattice
    cell (27, 27). *)
Lemma post_passes_never_close_witness :
  exists (s : Carve) (m : Maze),
    carveLoop isolatingRandom carveFuel carveStart = Some s /\
    generateMaze isolatingRandom = Some m /\
    isOpen (maze s) (27, 27)%Z = true /\
    isOpen m (27, 27)%Z = true.
Proof.
  eexists. eexists.
  split; [vm_compute; reflexivity |].
  split; [vm_compute; reflexivity |].
  split; [vm_compute; reflexivity |].
  eapply (post_passes_never_close isolatingRandom);
    vm_compute; reflexivity.
Defined.


(** ** The carved maze is connected *)

Lemma length_setNth {A : Type} (a : list A) (n : nat) (v : A) :
  length (setNth a n v) = length a.
Proof.
  revert n. induction a as [| h rest IH]; intro n; [reflexivity |].
  destruct n; cbn [setNth length]; [reflexivity | rewrite IH; reflexivity].
Qed.

Lemma Forall_setNth {A : Type} (P : A -> Prop) (a : list A) (n : nat) (v : A) :
  Forall P a -> P v -> Forall P (setNth a n v).
Proof.
  intros Hall Hv. revert n.
  induction Hall as [| h rest Hh Hrest IH]; intro n; [constructor |].
  destruct n; cbn [setNth]; constructor; auto.
Qed.

Lemma index_Some {A : Type} (a : list A) (i : Z) :
  (0 <= i < Z.of_nat (length a))%Z -> exists v, index a i = Some v.
Proof.
  intro H. unfold index.
  destruct (i <? 0)%Z eqn:E; [apply Z.ltb_lt in E; lia |].
  destruct (nth_error a (Z.to_nat i)) eqn:Hn; [eauto |].
  apply nth_error_None in Hn. lia.
Qed.

Lemma index_In {A : Type} (a : list A) (i : Z) (v : A) :
  index a i = Some v -> In v a.
Proof.
  unfold index. destruct (i <? 0)%Z; [discriminate |].
  apply nth_error_In.
Qed.

Lemma setCell_shape (m : Maze) (x y v : Z) :
  wellShaped m -> wellShaped (setCell m x y v).
Proof.
  intros [Hlen Hrows]. unfold setCell.
  destruct (index m x) as [row |] eqn:Hrow; [| split; assumption].
  unfold setIndex.
  destruct (x <? 0)%Z; [split; assumption |].
  split; [rewrite length_setNth; exact Hlen |].
  apply Forall_setNth; [exact Hrows |].
  destruct (y <? 0)%Z; [| rewrite length_setNth];
    apply index_In in Hrow; rewrite Forall_forall in Hrows; auto.
Qed.

(** Inside a grid of the right shape, [maze[x][y] = 0] opens the
    cell. *)
Lemma setCell_opens (m : Maze) (x y : Z) :
  wellShaped m -> outside x y = false ->
  isOpen (setCell m x y OPEN) (x, y) = true.
Proof.
  intros [Hlen Hrows] Hin. apply outside_false_iff in Hin.
  destruct Hin as [Hx Hy]. unfold MAZE_SIZE in *.
  unfold isOpen, setCell. cbn [fst snd].
  destruct (index_Some m x ltac:(lia)) as [row Hrow].
  rewrite Hrow, index_setIndex, Hrow, Z.eqb_refl.
  assert (Hr : length row = 30%nat).
  { apply index_In in Hrow. rewrite Forall_forall in Hrows. auto. }
  destruct (index_Some row y ltac:(lia)) as [v Hv].
  rewrite index_setIndex, Hv, Z.eqb_refl. reflexivity.
Qed.

Lemma reaches_mono (m m' : Maze) (a b : Cell) :
  (forall c, isOpen m c = true -> isOpen m' c = true) ->
  reaches m a b -> reaches m' a b.
Proof.
  intros Hsub H. induction H as [Ha | b c Hb IH Hadj Hc].
  - apply reaches_start, Hsub, Ha.
  - apply reaches_step with b; auto.
Qed.

(** What [getNeighbors] returns: a cell two steps away inside the
    border, not visited, and the cell in between. *)
Lemma getNeighbors_In (visited : list Cell) (x y nx ny wallX wallY : Z) :
  In (nx, ny, wallX, wallY) (getNeighbors visited x y) ->
  adjacent (x, y) (wallX, wallY) /\
  adjacent (wallX, wallY) (nx, ny) /\
  has visited (nx, ny) = false /\
  (1 <= nx < MAZE_SIZE - 1)%Z /\ (1 <= ny < MAZE_SIZE - 1)%Z /\
  ((nx = x /\ Z.abs (ny - y) = 2) \/ (ny = y /\ Z.abs (nx - x) = 2))%Z.
Proof.
  unfold getNeighbors, directions. cbn [flat_map].
  rewrite !in_app_iff.
  intros [H | [H | [H | [H | []]]]];
    match type of H with
    | In _ (if ?c then _ else _) => destruct c eqn:Hc; [| destruct H]
    end;
    match type of H with
    | In _ (if ?c then _ else _) => destruct c eqn:Hv; [| destruct H]
    end;
    destruct H as [H | []]; injection H as <- <- <- <-;
    apply negb_true_iff in Hv;
    rewrite !andb_true_iff, !Z.geb_le, !Z.ltb_lt in Hc;
    unfold adjacent, MAZE_SIZE in *; cbn [fst snd];
    change (0 / 2)%Z with 0%Z; change (2 / 2)%Z with 1%Z;
    change (-2 / 2)%Z with (-1)%Z;
    (split; [| split; [| split; [exact Hv |]]]); lia.
Qed.

Lemma carveTurn_invariant (random : nat -> Q) (s s' : Carve) :
  carveInvariant s -> carveTurn random s = Continue s' -> carveInvariant s'.
Proof.
  intros (Hshape & Hcur & Hstack & Hreach). unfold carveTurn.
  destruct (0 <? length (getNeighbors (visited s) (fst (current s))
                           (snd (current s))))%nat.
  - destruct (index _ _) as [[[[nx ny] wallX] wallY] |] eqn:Hpick;
      [| discriminate].
    intro E. injection E as <-.
    apply index_In in Hpick.
    destruct (current s) as [x y] eqn:Ecur. cbn [fst snd] in Hpick.
    apply getNeighbors_In in Hpick.
    destruct Hpick as (Hadj1 & Hadj2 & _ & Hnx & Hny & Hdir).
    set (m1 := setCell (maze s) wallX wallY OPEN).
    set (m2 := setCell m1 nx ny OPEN).
    assert (Hkeep : forall c, isOpen (maze s) c = true -> isOpen m2 c = true).
    { intros c Hc. apply setCell_open_keeps, setCell_open_keeps, Hc. }
    assert (Hshape1 : wellShaped m1) by (apply setCell_shape, Hshape).
    assert (Hn : isOpen m2 (nx, ny) = true).
    { apply setCell_opens; [exact Hshape1 |].
      apply outside_false_iff. unfold MAZE_SIZE in *. lia. }
    unfold carveInvariant. cbn [maze current stack].
    fold m1. fold m2.
    split; [apply setCell_shape, Hshape1 |].
    split; [exact Hn |].
    split.
    { constructor; [apply Hkeep, Hcur |].
      eapply Forall_impl; [| exact Hstack]. cbv beta. auto. }
    intros c Hc.
    assert (Hx : reaches m2 (1, 1)%Z (x, y)).
    { apply reaches_mono with (maze s); [exact Hkeep |]. apply Hreach, Hcur. }
    assert (Hw : isOpen m2 (wallX, wallY) = true).
    { apply setCell_open_keeps. apply setCell_opens; [exact Hshape |].
      apply outside_false_iff. unfold adjacent in Hadj2.
      cbn [fst snd] in Hadj2. unfold MAZE_SIZE in *. lia. }
    apply setCell_open_inv in Hc. destruct Hc as [Hc | ->].
    + apply setCell_open_inv in Hc. destruct Hc as [Hc | ->].
      * apply reaches_mono with (maze s); [exact Hkeep |]. apply Hreach, Hc.
      * apply reaches_step with (x, y); assumption.
    + apply reaches_step with (wallX, wallY); [| assumption | assumption].
      apply reaches_step with (x, y); assumption.
  - destruct (stack s) as [| top rest] eqn:Estack; [discriminate |].
    intro E. injection E as <-.
    unfold carveInvariant. cbn [maze current stack].
    inversion Hstack as [| ? ? Htop Hrest]; subst.
    auto.
Qed.

Lemma carveLoop_invariant (random : nat -> Q) (fuel : nat) :
  forall s s' : Carve,
    carveInvariant s -> carveLoop random fuel s = Some s' -> carveInvariant s'.
Proof.
  induction fuel as [| fuel IH]; intros s s' Hinv; cbn [carveLoop];
    [discriminate |].
  destruct (carveTurn random s) as [s1 | s1 |] eqn:Hturn.
  - apply IH. apply (carveTurn_invariant random s s1 Hinv Hturn).
  - intro E. injection E as <-.
    unfold carveTurn in Hturn.
    destruct (0 <? _)%nat.
    + destruct (index _ _) as [[[[? ?] ?] ?] |]; discriminate.
    + destruct (stack s); [| discriminate]. injection Hturn as <-.
      exact Hinv.
  - discriminate.
Qed.

Lemma allWalls_shape : wellShaped allWalls.
Proof.
  unfold wellShaped, allWalls. rewrite repeat_length.
  split; [reflexivity |].
  apply Forall_forall. intros row Hrow.
  apply repeat_spec in Hrow. subst row. apply repeat_length.
Qed.

Lemma allWalls_closed (c : Cell) : isOpen allWalls c = false.
Proof.
  unfold isOpen. destruct (index allWalls (fst c)) as [row |] eqn:Hrow;
    [| reflexivity].
  apply index_In, repeat_spec in Hrow. subst row.
  destruct (index _ (snd c)) as [v |] eqn:Hv; [| reflexivity].
  apply index_In, repeat_spec in Hv. subst v. reflexivity.
Qed.

Lemma carveStart_invariant : carveInvariant carveStart.
Proof.
  unfold carveInvariant, carveStart. cbn [maze current stack].
  assert (Hopen : isOpen (setCell allWalls 1 1 OPEN) (1, 1)%Z = true)
    by (apply setCell_opens; [apply allWalls_shape | reflexivity]).
  split; [apply setCell_shape, allWalls_shape |].
  split; [exact Hopen |].
  split; [constructor |].
  intros c Hc. apply setCell_open_inv in Hc.
  destruct Hc as [Hc | ->].
  - rewrite allWalls_closed in Hc. discriminate.
  - apply reaches_start, Hopen.
Qed.

(** X1.  The perfect-maze guarantee before the noise pass: whatever the
    oracle, every open cell of the carved maze is reached from the
    entrance, which is open. *)
Theorem carved_maze_connected (random : nat -> Q) (s : Carve) :
  carveLoop random carveFuel carveStart = Some s ->
  wellShaped (maze s) /\
  isOpen (maze s) (1, 1)%Z = true /\
  forall c : Cell, isOpen (maze s) c = true -> reaches (maze s) (1, 1)%Z c.
Proof.
  intro Hrun.
  destruct (carveLoop_invariant random carveFuel carveStart s
              carveStart_invariant Hrun) as (Hshape & Hcur & _ & Hreach).
  split; [exact Hshape |]. split; [| exact Hreach].
  pose proof (Hreach _ Hcur) as H.
  clear - H. induction H as [Ha | b c Hb IH Hadj Hc]; auto.
Qed.

(** [carved_maze_connected] at the isolating oracle. *)
Lemma carved_maze_connected_witness :
  exists s : Carve,
    carveLoop isolatingRandom carveFuel carveStart = Some s /\
    wellShaped (maze s) /\
    isOpen (maze s) (1, 1)%Z = true /\
    forall c : Cell, isOpen (maze s) c = true -> reaches (maze s) (1, 1)%Z c.
Proof.
  eexists. split; [vm_compute; reflexivity |].
  apply (carved_maze_connected isolatingRandom).
  vm_compute; reflexivity.
Defined.


(** ** The generator always returns *)

Lemma Qfloor_pick (r : Q) (n : Z) :
  0 <= r -> r < 1 -> (0 < n)%Z -> (0 <= Qfloor (r * inject_Z n) < n)%Z.
Proof.
  intros Hlo Hhi Hn.
  assert (Hq : 0 < inject_Z n).
  { change 0 with (inject_Z 0). rewrite <- Zlt_Qlt. exact Hn. }
  split.
  - change 0%Z with (Qfloor 0). apply Qfloor_resp_le. nra.
  - rewrite Zlt_Qlt.
    apply Qle_lt_trans with (r * inject_Z n); [apply Qfloor_le | nra].
Qed.

Lemma cellEqb_spec (a b : Cell) : cellEqb a b = true <-> a = b.
Proof.
  destruct a as [ax ay], b as [bx by']. unfold cellEqb. cbn [fst snd].
  rewrite andb_true_iff, !Z.eqb_eq. split; [intros [-> ->] | intro E].
  - reflexivity.
  - injection E as -> ->. auto.
Qed.

Lemma has_false (visited : list Cell) (c : Cell) :
  has visited c = false -> ~ In c visited.
Proof.
  unfold has. intros H Hin.
  assert (E : existsb (cellEqb c) visited = true).
  { apply existsb_exists. exists c. split; [exact Hin |].
    apply cellEqb_spec. reflexivity. }
  congruence.
Qed.

(** Two steps from an odd coordinate, inside the border, is an odd
    coordinate. *)
Lemma odds_step (x nx : Z) :
  In x odds -> (nx = x \/ Z.abs (nx - x) = 2)%Z ->
  (1 <= nx < MAZE_SIZE - 1)%Z -> In nx odds.
Proof.
  unfold MAZE_SIZE. intros Hx Hstep Hin.
  assert (Hodd : exists k, (0 <= k < 14)%Z /\ x = (2 * k + 1)%Z).
  { unfold odds in Hx. apply in_map_iff in Hx.
    destruct Hx as (k & <- & Hk). apply in_seq in Hk.
    exists (Z.of_nat k). lia. }
  destruct Hodd as (k & Hk & ->).
  assert (Hn : exists k', (0 <= k' < 14)%Z /\ nx = (2 * k' + 1)%Z).
  { destruct Hstep as [-> | Hstep]; [exists k; lia |].
    destruct (Z.abs_spec (nx - (2 * k + 1))) as [[_ E] | [_ E]].
    - exists (k + 1)%Z. lia.
    - exists (k - 1)%Z. lia. }
  destruct Hn as (k' & Hk' & ->).
  unfold odds. apply in_map_iff. exists (Z.to_nat k').
  split; [lia |]. apply in_seq. lia.
Qed.

Lemma carveTurn_progress (random : nat -> Q) (s : Carve) :
  legal random -> carveBounded s ->
  match carveTurn random s with
  | Continue s' => carveBounded s' /\ (turnsLeft s' < turnsLeft s)%nat
  | Break _ => True
  | Throw => False
  end.
Proof.
  intros Hlegal (Hnd & Hvis & Hcur & Hstack). unfold carveTurn.
  destruct (0 <? length (getNeighbors (visited s) (fst (current s))
                           (snd (current s))))%nat eqn:Hlen.
  - apply Nat.ltb_lt in Hlen.
    destruct (Hlegal (calls s)) as [Hlo Hhi].
    pose proof (Qfloor_pick (random (calls s)) _ Hlo Hhi
                  ltac:(apply (Nat2Z.inj_lt 0); exact Hlen)) as Hpick.
    destruct (index_Some _ _ Hpick) as [[[[nx ny] wallX] wallY] Hidx].
    rewrite Hidx. apply index_In in Hidx.
    destruct (current s) as [x y] eqn:Ecur. cbn [fst snd] in Hidx.
    apply getNeighbors_In in Hidx.
    destruct Hidx as (_ & _ & Hnew & Hnx & Hny & Hdir).
    apply has_false in Hnew.
    assert (Hlat : In (nx, ny) lattice).
    { unfold lattice in *. apply in_prod_iff in Hcur.
      destruct Hcur as [Hx Hy]. apply in_prod_iff.
      split; [apply (odds_step x) | apply (odds_step y)];
        try assumption; lia. }
    assert (Hnd' : NoDup ((nx, ny) :: visited s))
      by (constructor; assumption).
    assert (Hvis' : incl ((nx, ny) :: visited s) lattice)
      by (intros c [<- | Hc]; auto).
    pose proof (NoDup_incl_length Hnd' Hvis') as Hcount.
    unfold carveBounded, turnsLeft. cbn [visited current stack length] in *.
    split; [| unfold Cell in *; lia].
    split; [exact Hnd' |]. split; [exact Hvis' |]. split; [exact Hlat |].
    intros c [<- | Hc]; auto.
  - destruct (stack s) as [| top rest] eqn:Estack; [exact I |].
    unfold carveBounded, turnsLeft. cbn [visited current stack].
    rewrite Estack in *. cbn [length].
    split; [| lia].
    split; [exact Hnd |]. split; [exact Hvis |].
    split; [apply Hstack; left; reflexivity |].
    intros c Hc. apply Hstack. right. exact Hc.
Qed.

(** With enough turns the carving loop leaves normally. *)
Lemma carveLoop_returns (random : nat -> Q) (fuel : nat) :
  legal random ->
  forall s : Carve,
    carveBounded s -> (turnsLeft s < fuel)%nat ->
    exists s', carveLoop random fuel s = Some s'.
Proof.
  intro Hlegal. induction fuel as [| fuel IH]; intros s Hb Hfuel; [lia |].
  cbn [carveLoop].
  pose proof (carveTurn_progress random s Hlegal Hb) as Hturn.
  destruct (carveTurn random s) as [s1 | s1 |].
  - destruct Hturn as [Hb1 Hless]. apply IH; [exact Hb1 | lia].
  - eauto.
  - destruct Hturn.
Qed.

Lemma noisePass_returns (random : nat -> Q) (attempts : nat) :
  legal random ->
  forall (m : Maze) (n : nat),
    wellShaped m ->
    exists m' n', noisePass random attempts m n = Some (m', n') /\ wellShaped m'.
Proof.
  intro Hlegal. induction attempts as [| k IH]; intros m n Hshape;
    cbn [noisePass]; [eauto |].
  cbv zeta.
  destruct (Hlegal n) as [Hlo Hhi].
  pose proof (Qfloor_pick (random n) (MAZE_SIZE - 4) Hlo Hhi
                ltac:(unfold MAZE_SIZE; lia)) as Hx.
  assert (Hrow : exists row,
             index m (Qfloor (random n * inject_Z (MAZE_SIZE - 4)) + 2) = Some row).
  { apply index_Some. destruct Hshape as [Hlen _]. rewrite Hlen.
    unfold MAZE_SIZE in *. lia. }
  destruct Hrow as [row Hrow].
  unfold isWallCell at 1. rewrite Hrow.
  destruct (index row _) as [v |]; [| apply IH, Hshape].
  destruct (v =? WALL)%Z; [| apply IH, Hshape].
  apply IH.
  repeat match goal with
         | |- wellShaped (if ?b then _ else _) => destruct b
         | |- wellShaped (setCell _ _ _ _) => apply setCell_shape
         end; exact Hshape.
Qed.

Lemma clearExit_shape (m : Maze) : wellShaped m -> wellShaped (clearExit m).
Proof.
  intro H. unfold clearExit. cbv zeta. repeat apply setCell_shape. exact H.
Qed.

Lemma clearPickup_shape (m : Maze) : wellShaped m -> wellShaped (clearPickup m).
Proof.
  unfold clearPickup.
  generalize (list_prod [ -1; 0; 1 ]%Z [ -1; 0; 1 ]%Z).
  intro l. revert m.
  induction l as [| d rest IH]; intros m H; cbn [fold_left]; [exact H |].
  apply IH.
  destruct (negb (outside _ _)); [apply setCell_shape |]; exact H.
Qed.

Lemma carveStart_bounded : carveBounded carveStart.
Proof.
  unfold carveBounded, carveStart. cbn [visited current stack].
  assert (H : In (1, 1)%Z lattice) by (vm_compute; auto).
  split; [constructor; [intros [] | constructor] |].
  split; [intros c [<- | []]; exact H |].
  split; [exact H | intros c []].
Qed.

(** X3.  For every legal oracle the generator returns a grid, of 30 rows of
    30 cells. *)
Theorem generateMaze_returns (random : nat -> Q) :
  legal random ->
  exists m : Maze,
    generateMaze random = Some m /\ wellShaped m /\ hasRows m.
Proof.
  intro Hlegal. unfold generateMaze.
  destruct (carveLoop_returns random carveFuel Hlegal carveStart
              carveStart_bounded ltac:(vm_compute; lia)) as [s Hs].
  rewrite Hs.
  destruct (carveLoop_invariant random carveFuel carveStart s
              carveStart_invariant Hs) as (Hshape & _).
  destruct (noisePass_returns random 15 Hlegal (maze s) (calls s) Hshape)
    as (m & n & -> & Hm).
  eexists. split; [reflexivity |].
  assert (H : wellShaped (clearPickup (clearExit m)))
    by (apply clearPickup_shape, clearExit_shape, Hm).
  split; [exact H | exact (proj1 H)].
Qed.

(** ** A run that isolates a cell *)

(** The oracle of the failing run is a legal [Math.random]. *)
Lemma isolatingRandom_legal : legal isolatingRandom.
Proof.
  intro n. unfold isolatingRandom.
  destruct (n <? 195)%nat.
  - pose proof (Z.mod_pos_bound (Z.of_nat n) 2 ltac:(lia)) as H.
    assert (E : (Z.of_nat n mod 2 = 0 \/ Z.of_nat n mod 2 = 1)%Z) by lia.
    destruct E as [-> | ->]; split; vm_compute; congruence.
  - destruct (n - 195)%nat as [| [| k]]; cbn [nth];
      [| | destruct k]; split; vm_compute; congruence.
Qed.

(** [generateMaze_returns] at the isolating oracle. *)
Lemma generateMaze_returns_witness :
  legal isolatingRandom /\
  exists m : Maze,
    generateMaze isolatingRandom = Some m /\ wellShaped m /\ hasRows m.
Proof.
  split; [exact isolatingRandom_legal |].
  exact (generateMaze_returns isolatingRandom isolatingRandom_legal).
Defined.


Lemma reaches_open (m : Maze) (a b : Cell) : reaches m a b -> isOpen m b = true.
Proof. intro H. destruct H; assumption. Qed.

(** C2 fails on the code.  With the legal oracle [isolatingRandom] the
    carving leaves the cell (10, 4) and its four neighbours walls; the
    first noise attempt opens (10, 4) alone; and the generator returns
    a grid in which (10, 4) is open and no flood-fill from the entrance
    (1, 1) reaches it. *)
Theorem generateMaze_isolated_cell :
  exists (s : Carve) (m : Maze),
    carveLoop isolatingRandom carveFuel carveStart = Some s /\
    isOpen (maze s) (10, 4)%Z = false /\
    generateMaze isolatingRandom = Some m /\
    isOpen m (1, 1)%Z = true /\
    isOpen m (10, 4)%Z = true /\
    ~ reaches m (1, 1)%Z (10, 4)%Z.
Proof.
  eexists. eexists.
  split; [vm_compute; reflexivity |].
  split; [vm_compute; reflexivity |].
  split; [vm_compute; reflexivity |].
  split; [vm_compute; reflexivity |].
  split; [vm_compute; reflexivity |].
  intro Hreach.
  inversion Hreach as [Hstart Heq | b c Hb Hadj Hopen Heq].
  apply reaches_open in Hb.
  destruct b as [bx bz]. unfold adjacent in Hadj. cbn [fst snd] in Hadj.
  assert (Hcases : (bx, bz) = (10, 3)%Z \/ (bx, bz) = (10, 5)%Z \/
                   (bx, bz) = (9, 4)%Z \/ (bx, bz) = (11, 4)%Z).
  { destruct Hadj as [[Hx Hz] | [Hz Hx]].
    - assert (bz = 3 \/ bz = 5)%Z by lia.
      subst bx. destruct H as [-> | ->]; auto.
    - assert (bx = 9 \/ bx = 11)%Z by lia.
      subst bz. destruct H as [-> | ->]; auto. }
  destruct Hcases as [E | [E | [E | E]]]; rewrite E in Hb;
    vm_compute in Hb; discriminate Hb.
Qed.

(** ** What every generated maze contains *)

Import Landmarks.

Lemma has_true (visited : list Cell) (c : Cell) :
  has visited c = true -> In c visited.
Proof.
  unfold has. intro H. apply existsb_exists in H.
  destruct H as (x & Hin & Hx). apply cellEqb_spec in Hx. subst x. exact Hin.
Qed.

(** No neighbour returned: every cell two steps away inside the border
    is visited. *)
Lemma getNeighbors_nil (visited : list Cell) (x y : Z) (u : Cell) :
  getNeighbors visited x y = [] -> twoApart (x, y) u -> In u visited.
Proof.
  unfold getNeighbors, directions. cbn [flat_map].
  intros Hnil (Hdir & Hx & Hy). destruct u as [ux uy].
  cbn [fst snd] in *. unfold MAZE_SIZE in *.
  apply has_true.
  destruct (has visited (ux, uy)) eqn:Hhas; [reflexivity | exfalso].
  assert (Hcase : ((ux = x + 0 /\ uy = y + 2) \/ (ux = x + 2 /\ uy = y + 0) \/
                   (ux = x + 0 /\ uy = y + -2) \/
                   (ux = x + -2 /\ uy = y + 0))%Z)
    by lia.
  repeat match type of Hnil with
         | _ ++ _ = [] => apply app_eq_nil in Hnil; destruct Hnil as [? Hnil]
         end.
  destruct Hcase as [[Ex Ey] | [[Ex Ey] | [[Ex Ey] | [Ex Ey]]]];
    rewrite <- Ex, <- Ey in *;
    repeat match goal with
           | H : (if ?c then _ else _) = [] |- _ =>
               let E := fresh "E" in
               destruct c eqn:E; [| clear H]
           end;
    try discriminate;
    repeat match goal with
           | E : (_ && _)%bool = false |- _ =>
               rewrite !andb_false_iff, ?Z.geb_leb, ?Z.leb_gt, ?Z.ltb_ge in E
           | E : negb _ = false |- _ => apply negb_false_iff in E
           end;
    try congruence; lia.
Qed.

Lemma carveTurn_covers (random : nat -> Q) (s s' : Carve) :
  carveInvariant s -> carveCovers s ->
  carveTurn random s = Continue s' -> carveCovers s'.
Proof.
  intros (Hshape & _ & _ & _)
         (Hin & Hcur & Hstack & Hone & Hcv & Hsv & Hopen & Hfront).
  unfold carveTurn.
  destruct (0 <? length (getNeighbors (visited s) (fst (current s))
                           (snd (current s))))%nat eqn:Hlen.
  - destruct (index _ _) as [[[[nx ny] wallX] wallY] |] eqn:Hpick;
      [| discriminate].
    intro E. injection E as <-.
    apply index_In in Hpick.
    destruct (current s) as [x y] eqn:Ecur. cbn [fst snd] in Hpick.
    apply getNeighbors_In in Hpick.
    destruct Hpick as (Hadj1 & Hadj2 & _ & Hnx & Hny & Hdir).
    assert (Hn : interior (nx, ny)).
    { unfold interior, MAZE_SIZE in *. cbn [fst snd]. lia. }
    assert (Hw : interior (wallX, wallY)).
    { unfold interior, adjacent, MAZE_SIZE in *. cbn [fst snd] in *. lia. }
    unfold carveCovers. cbn [maze visited current stack].
    split.
    { intros c Hc. apply setCell_open_inv in Hc. destruct Hc as [Hc | ->];
        [| exact Hn].
      apply setCell_open_inv in Hc. destruct Hc as [Hc | ->]; auto. }
    split; [exact Hn |].
    split; [constructor; assumption |].
    split; [right; exact Hone |].
    split; [left; reflexivity |].
    split; [intros c [<- | Hc]; [right; exact Hcv | right; auto] |].
    split.
    { intros c [<- | Hc].
      - apply setCell_opens; [apply setCell_shape, Hshape |].
        apply outside_false_iff. unfold interior, MAZE_SIZE in *.
        cbn [fst snd] in *. lia.
      - apply setCell_open_keeps, setCell_open_keeps, Hopen, Hc. }
    intros v u [<- | Hv] Hu Hnot; [left; reflexivity |].
    right. destruct (Hfront v u Hv Hu) as [-> | Hs];
      [intro H; apply Hnot; right; exact H | left; reflexivity |
       right; exact Hs].
  - destruct (stack s) as [| top rest] eqn:Estack; [discriminate |].
    intro E. injection E as <-.
    apply Nat.ltb_ge in Hlen.
    assert (Hnil : getNeighbors (visited s) (fst (current s))
                     (snd (current s)) = [])
      by (apply length_zero_iff_nil; lia).
    unfold carveCovers. cbn [maze visited current stack].
    inversion Hstack as [| ? ? Htop Hrest]; subst.
    split; [exact Hin |]. split; [exact Htop |]. split; [exact Hrest |].
    split; [exact Hone |].
    split; [apply Hsv; left; reflexivity |].
    split; [intros c Hc; apply Hsv; right; exact Hc |].
    split; [exact Hopen |].
    intros v u Hv Hu Hnot.
    destruct (Hfront v u Hv Hu Hnot) as [-> | [<- | Hs]]; auto.
    exfalso. apply Hnot.
    apply (getNeighbors_nil (visited s) (fst (current s)) (snd (current s)));
      [exact Hnil |].
    destruct (current s); exact Hu.
Qed.

(** When the carving loop leaves, the visited set is closed under
    steps of two inside the border. *)
Lemma carveLoop_covers (random : nat -> Q) (fuel : nat) :
  forall s s' : Carve,
    carveInvariant s -> carveCovers s ->
    carveLoop random fuel s = Some s' ->
    carveCovers s' /\
    (forall v u, In v (visited s') -> twoApart v u -> In u (visited s')).
Proof.
  induction fuel as [| fuel IH]; intros s s' Hinv Hcov; cbn [carveLoop];
    [discriminate |].
  destruct (carveTurn random s) as [s1 | s1 |] eqn:Hturn.
  - apply IH.
    + apply (carveTurn_invariant random s s1 Hinv Hturn).
    + apply (carveTurn_covers random s s1 Hinv Hcov Hturn).
  - intro E. injection E as <-.
    unfold carveTurn in Hturn.
    destruct (0 <? _)%nat eqn:Hlen.
    + destruct (index _ _) as [[[[? ?] ?] ?] |]; discriminate.
    + destruct (stack s) eqn:Estack; [| discriminate].
      injection Hturn as <-.
      split; [exact Hcov |].
      destruct Hcov as (_ & _ & _ & _ & _ & _ & _ & Hfront).
      apply Nat.ltb_ge in Hlen.
      assert (Hnil : getNeighbors (visited s) (fst (current s))
                       (snd (current s)) = [])
        by (apply length_zero_iff_nil; lia).
      intros v u Hv Hu.
      destruct (has (visited s) u) eqn:Hhas; [apply has_true, Hhas |].
      apply has_false in Hhas.
      destruct (Hfront v u Hv Hu Hhas) as [-> | Hs];
        [| rewrite Estack in Hs; destruct Hs].
      apply (getNeighbors_nil (visited s) (fst (current s)) (snd (current s)));
        [exact Hnil |].
      destruct (current s); exact Hu.
  - discriminate.
Qed.

Lemma carveStart_covers : carveCovers carveStart.
Proof.
  unfold carveCovers, carveStart. cbn [maze visited current stack].
  assert (Hopen : isOpen (setCell allWalls 1 1 OPEN) (1, 1)%Z = true)
    by (apply setCell_opens; [apply allWalls_shape | reflexivity]).
  assert (Hone : interior (1, 1)%Z) by (unfold interior, MAZE_SIZE; cbn; lia).
  split.
  { intros c Hc. apply setCell_open_inv in Hc. destruct Hc as [Hc | ->];
      [rewrite allWalls_closed in Hc; discriminate | exact Hone]. }
  split; [exact Hone |]. split; [constructor |].
  split; [left; reflexivity |]. split; [left; reflexivity |].
  split; [intros c [] |].
  split; [intros c [<- | []]; exact Hopen |].
  intros v u [<- | []] _ _. left. reflexivity.
Qed.

(** A visited set that holds (1,1) and is closed under steps of two
    holds the whole lattice. *)
Lemma closed_holds_lattice (visited : list Cell) :
  In (1, 1)%Z visited ->
  (forall v u, In v visited -> twoApart v u -> In u visited) ->
  forall c, In c lattice -> In c visited.
Proof.
  intros Hone Hclosed.
  assert (Hrow : forall i : nat,
             (i < 14)%nat -> In (2 * Z.of_nat i + 1, 1)%Z visited).
  { induction i as [| i IH]; intro Hi; [exact Hone |].
    apply (Hclosed (2 * Z.of_nat i + 1, 1)%Z); [apply IH; lia |].
    unfold twoApart, MAZE_SIZE. cbn [fst snd]. lia. }
  assert (Hall : forall i j : nat,
             (i < 14)%nat -> (j < 14)%nat ->
             In (2 * Z.of_nat i + 1, 2 * Z.of_nat j + 1)%Z visited).
  { intros i j Hi. induction j as [| j IH]; intro Hj; [apply Hrow, Hi |].
    apply (Hclosed (2 * Z.of_nat i + 1, 2 * Z.of_nat j + 1)%Z);
      [apply IH; lia |].
    unfold twoApart, MAZE_SIZE. cbn [fst snd]. lia. }
  intros [cx cy] Hc. unfold lattice in Hc. apply in_prod_iff in Hc.
  destruct Hc as [Hx Hy]. unfold odds in Hx, Hy.
  apply in_map_iff in Hx. destruct Hx as (i & <- & Hi).
  apply in_map_iff in Hy. destruct Hy as (j & <- & Hj).
  apply in_seq in Hi. apply in_seq in Hj. apply Hall; lia.
Qed.

Lemma noisePass_shape (random : nat -> Q) (attempts : nat) :
  forall (m : Maze) (n : nat) (m' : Maze) (n' : nat),
    noisePass random attempts m n = Some (m', n') ->
    wellShaped m -> wellShaped m'.
Proof.
  induction attempts as [| k IH]; intros m n m' n' Hrun Hshape;
    cbn [noisePass] in Hrun.
  - injection Hrun as <- _. exact Hshape.
  - cbv zeta in Hrun.
    destruct (isWallCell m _ _) as [[|] |]; [| eauto | discriminate].
    apply IH in Hrun; [exact Hrun |].
    repeat match goal with
           | |- wellShaped (if ?b then _ else _) => destruct b
           | |- wellShaped (setCell _ _ _ _) => apply setCell_shape
           end; exact Hshape.
Qed.

(** The stages of a run of the generator that returns. *)
Lemma generateMaze_stages (random : nat -> Q) (m : Maze) :
  generateMaze random = Some m ->
  exists (s : Carve) (m1 : Maze) (n1 : nat),
    carveLoop random carveFuel carveStart = Some s /\
    noisePass random 15 (maze s) (calls s) = Some (m1, n1) /\
    wellShaped m1 /\
    m = clearPickup (clearExit m1).
Proof.
  unfold generateMaze. intro H.
  destruct (carveLoop random carveFuel carveStart) as [s |] eqn:Hs;
    [| discriminate].
  destruct (noisePass random 15 (maze s) (calls s)) as [[m1 n1] |] eqn:Hn;
    [| discriminate].
  injection H as <-. exists s, m1, n1.
  split; [reflexivity |]. split; [exact Hn |]. split; [| reflexivity].
  apply (noisePass_shape random 15 _ _ _ _ Hn).
  apply (carveLoop_invariant random carveFuel carveStart s
           carveStart_invariant Hs).
Qed.

Lemma stages_keep_open (random : nat -> Q) (s : Carve) (m1 : Maze) (n1 : nat)
    (c : Cell) :
  noisePass random 15 (maze s) (calls s) = Some (m1, n1) ->
  isOpen (maze s) c = true ->
  isOpen (clearPickup (clearExit m1)) c = true.
Proof.
  intros Hn Hopen. apply clearPickup_keeps, clearExit_keeps.
  exact (noisePass_keeps random 15 c _ _ _ _ Hn Hopen).
Qed.

Lemma stages_reach (random : nat -> Q) (s : Carve) (m1 : Maze) (n1 : nat)
    (a b : Cell) :
  noisePass random 15 (maze s) (calls s) = Some (m1, n1) ->
  reaches (maze s) a b ->
  reaches (clearPickup (clearExit m1)) a b.
Proof.
  intros Hn Hreach. apply reaches_mono with (maze s); [| exact Hreach].
  intros c Hc. apply (stages_keep_open random s m1 n1 c Hn Hc).
Qed.

(** The carving opens every cell of the lattice. *)
Lemma carved_lattice (random : nat -> Q) (s : Carve) (c : Cell) :
  carveLoop random carveFuel carveStart = Some s ->
  In c lattice ->
  isOpen (maze s) c = true /\ reaches (maze s) (1, 1)%Z c.
Proof.
  intros Hs Hc.
  destruct (carveLoop_covers random carveFuel carveStart s
              carveStart_invariant carveStart_covers Hs)
    as ((_ & _ & _ & Hone & _ & _ & Hopen & _) & Hclosed).
  pose proof (closed_holds_lattice (visited s) Hone Hclosed c Hc) as Hv.
  apply Hopen in Hv.
  destruct (carveLoop_invariant random carveFuel carveStart s
              carveStart_invariant Hs) as (_ & _ & _ & Hreach).
  split; [exact Hv | apply Hreach, Hv].
Qed.

Lemma lattice_reached (random : nat -> Q) (m : Maze) (x y : Z) :
  generateMaze random = Some m ->
  In x odds -> In y odds ->
  reaches m (1, 1)%Z (x, y).
Proof.
  intros Hgen Hx Hy.
  destruct (generateMaze_stages random m Hgen)
    as (s & m1 & n1 & Hs & Hn & _ & ->).
  apply (stages_reach random s m1 n1 _ _ Hn).
  apply (carved_lattice random s (x, y) Hs).
  apply in_prod; assumption.
Qed.

(** X4.  Every cell with odd coordinates between 1 and 27 is open in the
    generated maze and reached from the entrance: the carving visits
    the whole lattice, whatever the oracle. *)
Theorem generated_maze_spans_lattice (random : nat -> Q) (m : Maze) (c : Cell) :
  generateMaze random = Some m ->
  In c lattice ->
  isOpen m c = true /\ reaches m (1, 1)%Z c.
Proof.
  intros Hgen Hc.
  destruct (generateMaze_stages random m Hgen)
    as (s & m1 & n1 & Hs & Hn & _ & ->).
  destruct (carved_lattice random s c Hs Hc) as [Hopen Hreach].
  split.
  - apply (stages_keep_open random s m1 n1 c Hn Hopen).
  - apply (stages_reach random s m1 n1 _ _ Hn Hreach).
Qed.

(** [generated_maze_spans_lattice] at the isolating oracle and the
    lattice cell (27, 27). *)
Lemma generated_maze_spans_lattice_witness :
  exists m : Maze,
    generateMaze isolatingRandom = Some m /\
    In (27, 27)%Z lattice /\
    isOpen m (27, 27)%Z = true /\ reaches m (1, 1)%Z (27, 27)%Z.
Proof.
  eexists. split; [vm_compute; reflexivity |].
  assert (H : In (27, 27)%Z lattice) by (vm_compute; tauto).
  split; [exact H |].
  eapply (generated_maze_spans_lattice isolatingRandom);
    [vm_compute; reflexivity | exact H].
Defined.

Lemma noisePass_interior (random : nat -> Q) (attempts : nat) :
  legal random ->
  forall (m : Maze) (n : nat) (m' : Maze) (n' : nat),
    noisePass random attempts m n = Some (m', n') ->
    (forall c, isOpen m c = true -> interior c) ->
    forall c, isOpen m' c = true -> interior c.
Proof.
  intro Hlegal.
  induction attempts as [| k IH]; intros m n m' n' Hrun Hin;
    cbn [noisePass] in Hrun.
  - injection Hrun as <- _. exact Hin.
  - cbv zeta in Hrun.
    destruct (Hlegal n) as [Hlo Hhi].
    destruct (Hlegal (S n)) as [Hlo' Hhi'].
    pose proof (Qfloor_pick (random n) (MAZE_SIZE - 4) Hlo Hhi
                  ltac:(unfold MAZE_SIZE; lia)) as Hx.
    pose proof (Qfloor_pick (random (S n)) (MAZE_SIZE - 4) Hlo' Hhi'
                  ltac:(unfold MAZE_SIZE; lia)) as Hy.
    set (x := (Qfloor (random n * inject_Z (MAZE_SIZE - 4)) + 2)%Z) in *.
    set (y := (Qfloor (random (S n) * inject_Z (MAZE_SIZE - 4)) + 2)%Z) in *.
    destruct (isWallCell m x y) as [[|] |];
      [| eapply IH; eassumption | discriminate].
    eapply IH; [exact Hrun |].
    assert (Hxy : interior (x, y))
      by (unfold interior, MAZE_SIZE in *; cbn [fst snd]; lia).
    intros c Hc.
    destruct (Qltb (1 # 2) (random (S (S (S n)))) &&
              (y + 1 <? MAZE_SIZE - 1)%Z) eqn:Hb2;
      [apply setCell_open_inv in Hc; destruct Hc as [Hc | ->] |].
    2: { apply andb_true_iff in Hb2. destruct Hb2 as [_ Hb2].
         apply Z.ltb_lt in Hb2.
         unfold interior, MAZE_SIZE in *. cbn [fst snd] in *. lia. }
    all: destruct (Qltb (1 # 2) (random (S (S n))) &&
                   (x + 1 <? MAZE_SIZE - 1)%Z) eqn:Hb1;
      [apply setCell_open_inv in Hc; destruct Hc as [Hc | ->] |];
      try (apply setCell_open_inv in Hc; destruct Hc as [Hc | ->]);
      auto;
      apply andb_true_iff in Hb1; destruct Hb1 as [_ Hb1];
      apply Z.ltb_lt in Hb1;
      unfold interior, MAZE_SIZE in *; cbn [fst snd] in *; lia.
Qed.

Lemma clearExit_open_inv (m : Maze) (c : Cell) :
  isOpen (clearExit m) c = true -> isOpen m c = true \/ In c exitCells.
Proof.
  unfold clearExit, exitCells, MAZE_SIZE. cbv zeta. cbn [Z.sub Z.add Z.opp Z.pos_sub].
  intro H.
  repeat (apply setCell_open_inv in H; destruct H as [H | ->];
          [| right; cbn; tauto]).
  left. exact H.
Qed.

Lemma clearPickup_open_inv (m : Maze) (c : Cell) :
  isOpen (clearPickup m) c = true -> isOpen m c = true \/ In c pickupCells.
Proof.
  unfold clearPickup, pickupCells.
  generalize (list_prod [ -1; 0; 1 ]%Z [ -1; 0; 1 ]%Z).
  intro l. revert m.
  induction l as [| d rest IH]; intros m H; cbn [fold_left map] in *;
    [left; exact H |].
  apply IH in H. destruct H as [H | H]; [| right; right; exact H].
  destruct (negb (outside _ _)); [| left; exact H].
  apply setCell_open_inv in H. destruct H as [H | ->];
    [left; exact H | right; left; reflexivity].
Qed.

(** X5.  The border of every generated maze is solid: for a legal oracle,
    no cell of row or column 0 or 29 is ever opened. *)
Theorem generated_border_is_solid (random : nat -> Q) (m : Maze) (c : Cell) :
  legal random ->
  generateMaze random = Some m ->
  isOpen m c = true -> interior c.
Proof.
  intros Hlegal Hgen Hc.
  destruct (generateMaze_stages random m Hgen)
    as (s & m1 & n1 & Hs & Hn & _ & ->).
  destruct (carveLoop_covers random carveFuel carveStart s
              carveStart_invariant carveStart_covers Hs)
    as ((Hin & _) & _).
  apply clearPickup_open_inv in Hc. destruct Hc as [Hc | Hc].
  - apply clearExit_open_inv in Hc. destruct Hc as [Hc | Hc].
    + apply (noisePass_interior random 15 Hlegal _ _ _ _ Hn Hin c Hc).
    + unfold exitCells in Hc. cbn [In] in Hc.
      unfold interior, MAZE_SIZE.
      repeat destruct Hc as [<- | Hc]; cbn [fst snd]; try lia; try contradiction.
  - vm_compute in Hc. unfold interior, MAZE_SIZE.
    repeat destruct Hc as [<- | Hc]; cbn [fst snd]; try lia; try contradiction.
Qed.

(** [generated_border_is_solid] at the isolating oracle: the open cell
    (10, 4) is an interior cell. *)
Lemma generated_border_is_solid_witness :
  exists m : Maze,
    generateMaze isolatingRandom = Some m /\
    isOpen m (10, 4)%Z = true /\ interior (10, 4)%Z.
Proof.
  eexists. split; [vm_compute; reflexivity |].
  split; [vm_compute; reflexivity |].
  eapply (generated_border_is_solid isolatingRandom);
    [exact isolatingRandom_legal | vm_compute; reflexivity |
     vm_compute; reflexivity].
Defined.

Lemma pickupFold_opens (px pz : Z) (l : list (Z * Z)) :
  forall (m : Maze) (d : Z * Z),
    wellShaped m -> In d l ->
    outside (px + fst d) (pz + snd d) = false ->
    isOpen
      (fold_left
         (fun (acc : Maze) (d : Z * Z) =>
            if negb (outside (px + fst d) (pz + snd d))
            then setCell acc (px + fst d) (pz + snd d) OPEN else acc)
         l m)
      (px + fst d, pz + snd d)%Z = true.
Proof.
  assert (Hkeep : forall (l : list (Z * Z)) (m : Maze) (c : Cell),
             isOpen m c = true ->
             isOpen
               (fold_left
                  (fun (acc : Maze) (d : Z * Z) =>
                     if negb (outside (px + fst d) (pz + snd d))
                     then setCell acc (px + fst d) (pz + snd d) OPEN else acc)
                  l m) c = true).
  { intro l0. induction l0 as [| e rest IH]; intros m c H; cbn [fold_left];
      [exact H |].
    apply IH. destruct (negb (outside _ _));
      [apply setCell_open_keeps |]; exact H. }
  induction l as [| e rest IH]; intros m d Hshape Hin Hout; [destruct Hin |].
  cbn [fold_left]. destruct Hin as [-> | Hin].
  - rewrite Hout. cbn [negb]. apply Hkeep.
    apply setCell_opens; assumption.
  - apply IH; [| exact Hin | exact Hout].
    destruct (negb (outside _ _)); [apply setCell_shape |]; exact Hshape.
Qed.

Lemma clearPickup_opens (m : Maze) (c : Cell) :
  wellShaped m -> In c pickupCells -> isOpen (clearPickup m) c = true.
Proof.
  intros Hshape Hc. unfold pickupCells in Hc. apply in_map_iff in Hc.
  destruct Hc as (d & <- & Hd).
  apply (pickupFold_opens pistolMazeX pistolMazeZ _ m d Hshape Hd).
  vm_compute in Hd.
  repeat destruct Hd as [<- | Hd]; try reflexivity. destruct Hd.
Qed.

Lemma clearExit_opens (m : Maze) (c : Cell) :
  wellShaped m -> In c exitCells -> isOpen (clearExit m) c = true.
Proof.
  intros Hshape Hc. unfold clearExit. cbv zeta.
  change (MAZE_SIZE - 2)%Z with 28%Z. change (MAZE_SIZE - 3)%Z with 27%Z.
  unfold exitCells in Hc. cbn [In] in Hc.
  destruct Hc as [<- | [<- | [<- | [<- | []]]]];
    repeat first
      [ apply setCell_opens; [repeat apply setCell_shape; exact Hshape
                             | reflexivity]
      | apply setCell_open_keeps ].
Qed.

Lemma isOpen_not_wall (m : Maze) (x z : Z) :
  isOpen m (x, z) = true -> isWallCell m x z = Some false.
Proof.
  unfold isOpen, isWallCell. cbn [fst snd].
  destruct (index m x) as [row |]; [| discriminate].
  destruct (index row z) as [v |]; [| discriminate].
  unfold OPEN, WALL. intro H. apply Z.eqb_eq in H. subst v. reflexivity.
Qed.

Lemma odds_27 : In 27%Z odds /\ In 9%Z odds /\ In 17%Z odds /\ In 19%Z odds.
Proof. unfold odds. cbn. tauto. Qed.

Lemma landmark_cells_open (random : nat -> Q) (m : Maze) (c : Cell) :
  generateMaze random = Some m ->
  In c ((1, 1)%Z :: exitCells ++ pickupCells) ->
  isOpen m c = true.
Proof.
  intros Hgen [<- | Hc].
  - apply reaches_open with (1, 1)%Z.
    apply (lattice_reached random m 1 1 Hgen); unfold odds; cbn; tauto.
  - destruct (generateMaze_stages random m Hgen)
      as (s & m1 & n1 & Hs & Hn & Hshape & ->).
    apply in_app_iff in Hc. destruct Hc as [Hc | Hc].
    + apply clearPickup_keeps, clearExit_opens; assumption.
    + apply clearPickup_opens; [apply clearExit_shape, Hshape | exact Hc].
Qed.

(** X6.  In every maze the generator returns, the entrance, the four cells
    of the exit corner and the nine cells around the pistol are open
    and reached from the entrance. *)
Theorem landmarks_are_reachable (random : nat -> Q) (m : Maze) (c : Cell) :
  generateMaze random = Some m ->
  In c ((1, 1)%Z :: exitCells ++ pickupCells) ->
  isOpen m c = true /\ reaches m (1, 1)%Z c.
Proof.
  intros Hgen Hc.
  destruct (generateMaze_stages random m Hgen)
    as (s & m1 & n1 & Hs & Hn & Hshape & Hm).
  assert (Hopen : forall c', In c' (exitCells ++ pickupCells) ->
                             isOpen m c' = true).
  { intros c' Hc'. rewrite Hm. apply in_app_iff in Hc'.
    destruct Hc' as [Hc' | Hc'].
    - apply clearPickup_keeps, clearExit_opens; assumption.
    - apply clearPickup_opens; [apply clearExit_shape, Hshape | exact Hc']. }
  assert (Hlat : forall x y, In x odds -> In y odds ->
                             reaches m (1, 1)%Z (x, y)).
  { intros x y Hx Hy. apply (lattice_reached random m x y Hgen Hx Hy). }
  destruct odds_27 as (H27 & H9 & H17 & H19).
  assert (Hstep : forall b c', reaches m (1, 1)%Z b -> adjacent b c' ->
                               In c' (exitCells ++ pickupCells) ->
                               reaches m (1, 1)%Z c').
  { intros b c' Hb Hadj Hin. apply reaches_step with b; auto. }
  assert (Hmem : forall c', In c' (exitCells ++ pickupCells) <->
                            In c' [ (28, 28); (28, 27); (27, 28); (27, 27);
                                    (8, 17); (8, 18); (8, 19); (9, 17); (9, 18);
                                    (9, 19); (10, 17); (10, 18); (10, 19) ]%Z)
    by (intro c'; reflexivity).
  assert (R2727 : reaches m (1, 1)%Z (27, 27)%Z) by auto.
  assert (R917 : reaches m (1, 1)%Z (9, 17)%Z) by auto.
  assert (R919 : reaches m (1, 1)%Z (9, 19)%Z) by auto.
  assert (R2827 : reaches m (1, 1)%Z (28, 27)%Z).
  { apply (Hstep (27, 27)%Z); [exact R2727 | right; cbn; lia |].
    apply Hmem. cbn. tauto. }
  assert (R918 : reaches m (1, 1)%Z (9, 18)%Z).
  { apply (Hstep (9, 17)%Z); [exact R917 | left; cbn; lia |].
    apply Hmem. cbn. tauto. }
  destruct Hc as [<- | Hc].
  { split; [| apply Hlat; unfold odds; cbn; tauto].
    apply reaches_open with (1, 1)%Z.
    apply Hlat; unfold odds; cbn; tauto. }
  split; [apply Hopen, Hc |].
  pose proof Hc as Hc'. apply Hmem in Hc'. cbn [In] in Hc'.
  repeat destruct Hc' as [<- | Hc']; try contradiction; try assumption.
  - apply (Hstep (28, 27)%Z); [exact R2827 | left; cbn; lia | exact Hc].
  - apply (Hstep (27, 27)%Z); [exact R2727 | left; cbn; lia | exact Hc].
  - apply (Hstep (9, 17)%Z); [exact R917 | right; cbn; lia | exact Hc].
  - apply (Hstep (9, 18)%Z); [exact R918 | right; cbn; lia | exact Hc].
  - apply (Hstep (9, 19)%Z); [exact R919 | right; cbn; lia | exact Hc].
  - apply (Hstep (9, 17)%Z); [exact R917 | right; cbn; lia | exact Hc].
  - apply (Hstep (9, 18)%Z); [exact R918 | right; cbn; lia | exact Hc].
  - apply (Hstep (9, 19)%Z); [exact R919 | right; cbn; lia | exact Hc].
Qed.

(** [landmarks_are_reachable] at the isolating oracle and the exit
    cell (28, 28). *)
Lemma landmarks_are_reachable_witness :
  exists m : Maze,
    generateMaze isolatingRandom = Some m /\
    isOpen m (28, 28)%Z = true /\ reaches m (1, 1)%Z (28, 28)%Z.
Proof.
  eexists. split; [vm_compute; reflexivity |].
  eapply (landmarks_are_reachable isolatingRandom);
    [vm_compute; reflexivity | cbn; tauto].
Defined.

(** X7.  In every maze the generator returns, the player's start, the exit
    and the pistol's place pass the thick-body wall test, with the
    collision radius of either edition. *)
Theorem landmarks_are_walkable (random : nat -> Q) (m : Maze)
    (playerRadius : Q) (p : Vector3) :
  generateMaze random = Some m ->
  playerRadius = 25 # 100 \/ playerRadius = 35 # 100 ->
  In p [ playerStart; exit; pistolPosition ] ->
  isWallAt playerRadius m p = Some false.
Proof.
  intros Hgen Hr Hp.
  assert (Hcell : forall x z,
             In (x, z) ((1, 1)%Z :: exitCells ++ pickupCells) ->
             isWallCell m x z = Some false).
  { intros x z H. apply isOpen_not_wall.
    apply (landmark_cells_open random m (x, z) Hgen H). }
  assert (H11 := Hcell 1%Z 1%Z ltac:(cbn; tauto)).
  assert (H2828 := Hcell 28%Z 28%Z ltac:(cbn; tauto)).
  assert (H817 := Hcell 8%Z 17%Z ltac:(cbn; tauto)).
  assert (H818 := Hcell 8%Z 18%Z ltac:(cbn; tauto)).
  assert (H917 := Hcell 9%Z 17%Z ltac:(cbn; tauto)).
  assert (H918 := Hcell 9%Z 18%Z ltac:(cbn; tauto)).
  cbn [In] in Hp.
  destruct Hr as [-> | ->];
    destruct Hp as [<- | [<- | [<- | []]]];
    unfold isWallAt, checkPointsLoop;
    cbv -[isWallCell];
    repeat first [ rewrite H11 | rewrite H2828 | rewrite H817 | rewrite H818
                 | rewrite H917 | rewrite H918 ];
    reflexivity.
Qed.

(** [landmarks_are_walkable] at the isolating oracle, the basic
    edition's radius and the player's start. *)
Lemma landmarks_are_walkable_witness :
  exists m : Maze,
    generateMaze isolatingRandom = Some m /\
    isWallAt (25 # 100) m playerStart = Some false.
Proof.
  eexists. split; [vm_compute; reflexivity |].
  eapply (landmarks_are_walkable isolatingRandom);
    [vm_compute; reflexivity | left; reflexivity | left; reflexivity].
Defined.

(** ** The two wall tests compared *)

Import Collision.

Section WallTests.

Variable maze : Maze.
Hypothesis maze_rows : hasRows maze.

Lemma checkPointsLoop_spec (pts : list (Q * Q)) :
  checkPointsLoop maze pts =
  Some (existsb (fun q => cellBlocked maze (Qfloor (fst q)) (Qfloor (snd q)))
                pts).
Proof.
  induction pts as [| [px pz] rest IH]; [reflexivity |].
  cbn [checkPointsLoop existsb fst snd]. unfold cellBlocked at 1.
  destruct (outside (Qfloor px) (Qfloor pz)) eqn:Hout; [reflexivity |].
  destruct (isWallCell_defined maze _ _ maze_rows Hout) as [[|] ->];
    [reflexivity | exact IH].
Qed.

Lemma cornersLoop_blocked (pts : list (Q * Q)) :
  cornersLoop maze pts = Some true ->
  existsb (fun q => cellBlocked maze (Qfloor (fst q)) (Qfloor (snd q))) pts =
  true.
Proof.
  induction pts as [| [px pz] rest IH]; [discriminate |].
  cbn [cornersLoop existsb fst snd]. unfold cellBlocked at 1.
  destruct (outside (Qfloor px) (Qfloor pz)) eqn:Hout; [reflexivity |].
  cbn [negb orb].
  destruct (isWallCell maze (Qfloor px) (Qfloor pz)) as [[|] |];
    [reflexivity | exact IH | discriminate].
Qed.

Lemma isWallAt_spec (r : Q) (p : Vector3) :
  isWallAt r maze p =
  Some (cellBlocked maze (Qfloor (vx p + halfSize)) (Qfloor (vz p + halfSize)) ||
        existsb (fun q => cellBlocked maze (Qfloor (fst q)) (Qfloor (snd q)))
                (checkPointsOf (vx p + halfSize) (vz p + halfSize) r)).
Proof.
  unfold isWallAt, cellBlocked at 1.
  destruct (outside _ _) eqn:Hout; [reflexivity |].
  destruct (isWallCell_defined maze _ _ maze_rows Hout) as [[|] ->];
    [reflexivity |].
  apply checkPointsLoop_spec.
Qed.

End WallTests.

Lemma Qfloor_bounds (y : Q) :
  inject_Z (Qfloor y) <= y /\ y < inject_Z (Qfloor y) + 1.
Proof.
  split; [apply Qfloor_le |].
  pose proof (Qlt_floor y) as H. rewrite inject_Z_plus in H. exact H.
Qed.

Lemma Qfloor_unique (y : Q) (k : Z) :
  inject_Z k <= y -> y < inject_Z k + 1 -> Qfloor y = k.
Proof.
  intros Hlo Hhi. destruct (Qfloor_bounds y) as [Flo Fhi].
  assert (H1 : (Qfloor y < k + 1)%Z).
  { rewrite Zlt_Qlt, inject_Z_plus. change (inject_Z 1) with 1. lra. }
  assert (H2 : (k < Qfloor y + 1)%Z).
  { rewrite Zlt_Qlt, inject_Z_plus. change (inject_Z 1) with 1. lra. }
  lia.
Qed.

(** A shift by at most 1 changes the cell by at most one, and a larger
    shift the same way crosses whenever a smaller one does. *)
Lemma Qfloor_shift_up (x r r' : Q) :
  0 <= r -> r <= r' -> r' <= 1 ->
  Qfloor (x + r) = Qfloor x \/ Qfloor (x + r) = Qfloor (x + r').
Proof.
  intros H0 Hr H1. destruct (Qfloor_bounds x) as [Flo Fhi].
  destruct (Qlt_le_dec (x + r) (inject_Z (Qfloor x) + 1)) as [L | L].
  - left. apply Qfloor_unique; lra.
  - right. transitivity (Qfloor x + 1)%Z; [| symmetry];
      apply Qfloor_unique; rewrite inject_Z_plus;
      change (inject_Z 1) with 1; lra.
Qed.

Lemma Qfloor_shift_down (x r r' : Q) :
  0 <= r -> r <= r' -> r' <= 1 ->
  Qfloor (x - r) = Qfloor x \/ Qfloor (x - r) = Qfloor (x - r').
Proof.
  intros H0 Hr H1. destruct (Qfloor_bounds x) as [Flo Fhi].
  destruct (Qlt_le_dec (x - r) (inject_Z (Qfloor x))) as [L | L].
  - right. transitivity (Qfloor x + -1)%Z; [| symmetry];
      apply Qfloor_unique; rewrite inject_Z_plus;
      change (inject_Z (-1)) with (- (1)); lra.
  - left. apply Qfloor_unique; lra.
Qed.

(** Every cell touched by the sample points at radius [r] is the
    centre's cell or is touched by a sample point at a larger radius. *)
Lemma checkPoints_cover (m : Maze) (x z r r' : Q) (q : Q * Q) :
  0 <= r -> r <= r' -> r' <= 1 ->
  In q (checkPointsOf x z r) ->
  cellBlocked m (Qfloor (fst q)) (Qfloor (snd q)) = true ->
  cellBlocked m (Qfloor x) (Qfloor z) = true \/
  exists q', In q' (checkPointsOf x z r') /\
             cellBlocked m (Qfloor (fst q')) (Qfloor (snd q')) = true.
Proof.
  intros H0 Hr H1 Hq Hb.
  destruct (Qfloor_shift_up x r r' H0 Hr H1) as [Exu | Exu];
    destruct (Qfloor_shift_down x r r' H0 Hr H1) as [Exd | Exd];
    destruct (Qfloor_shift_up z r r' H0 Hr H1) as [Ezu | Ezu];
    destruct (Qfloor_shift_down z r r' H0 Hr H1) as [Ezd | Ezd];
    unfold checkPointsOf in Hq; cbn [In] in Hq;
    repeat destruct Hq as [<- | Hq]; try contradiction;
    cbn [fst snd] in Hb;
    rewrite ?Exu, ?Exd, ?Ezu, ?Ezd in Hb;
    first
      [ left; exact Hb
      | right; eexists (_, _); split; [| cbn [fst snd]; exact Hb];
        unfold checkPointsOf; cbn [In]; auto 12 ].
Qed.

Lemma Some_eq (a b : bool) : Some a = Some b -> a = b.
Proof. congruence. Qed.

(** X8.  Growing the collision radius, up to one cell, only blocks more:
    what the basic edition's player (radius 0.25) cannot enter, the
    mode-select edition's (0.35) cannot either. *)
Theorem thick_test_grows_with_radius (maze : Maze) (r r' : Q) (p : Vector3) :
  hasRows maze ->
  0 <= r -> r <= r' -> r' <= 1 ->
  isWallAt r maze p = Some true ->
  isWallAt r' maze p = Some true.
Proof.
  intros Hrows H0 Hr H1.
  rewrite !(isWallAt_spec maze Hrows). intro H. apply Some_eq in H.
  f_equal. apply orb_true_iff in H. apply orb_true_iff.
  destruct H as [H | H]; [left; exact H |].
  apply existsb_exists in H. destruct H as (q & Hq & Hb).
  destruct (checkPoints_cover maze _ _ r r' q H0 Hr H1 Hq Hb)
    as [Hc | (q' & Hq' & Hb')]; [left; exact Hc | right].
  apply existsb_exists. eauto.
Qed.

(** X9.  Where the thin-body test of the agents answers "wall", so does the
    thick-body test of the player, for any radius from 0.001 to one
    cell: an agent can stand wherever the player can. *)
Theorem thin_test_blocks_less (maze : Maze) (r : Q) (p : Vector3) :
  hasRows maze ->
  zombieRadius <= r -> r <= 1 ->
  isWallAtZombie maze p = Some true ->
  isWallAt r maze p = Some true.
Proof.
  intros Hrows Hr H1.
  rewrite (isWallAt_spec maze Hrows). unfold isWallAtZombie, cellBlocked at 1.
  destruct (outside _ _) eqn:Hout; [reflexivity |].
  destruct (isWallCell maze (Qfloor (vx p + halfSize))
              (Qfloor (vz p + halfSize))) as [[|] |] eqn:Hcell;
    [reflexivity | | discriminate].
  intro H. apply cornersLoop_blocked in H.
  f_equal. cbn [orb].
  apply existsb_exists in H. destruct H as (q & Hq & Hb).
  assert (Hq' : In q (checkPointsOf (vx p + halfSize) (vz p + halfSize)
                        zombieRadius)).
  { unfold checkPointsOf. cbn [In] in *. tauto. }
  assert (Hz : 0 <= zombieRadius) by (unfold zombieRadius; lra).
  destruct (checkPoints_cover maze _ _ zombieRadius r q Hz Hr H1 Hq' Hb)
    as [Hc | (q' & Hq2 & Hb')].
  - unfold cellBlocked in Hc. rewrite Hout, Hcell in Hc. discriminate Hc.
  - apply existsb_exists. eauto.
Qed.

(** [thick_test_grows_with_radius] on the two-cell grid, at a position
    in rock. *)
Lemma thick_test_grows_with_radius_witness :
  isWallAt (35 # 100) Scenario.twoCellGrid (vec3 0 0 0) = Some true.
Proof.
  apply (thick_test_grows_with_radius Scenario.twoCellGrid (25 # 100)
           (35 # 100) (vec3 0 0 0));
    [reflexivity | | | | reflexivity]; vm_compute; discriminate.
Defined.

(** [thin_test_blocks_less] in the sentinel's corridor, at its spawn
    position, which lies on the edge of its row. *)
Lemma thin_test_blocks_less_witness :
  isWallAt (25 # 100) Scenario.corridorGrid (position Scenario.sentinel) =
  Some true.
Proof.
  apply (thin_test_blocks_less Scenario.corridorGrid (25 # 100)
           (position Scenario.sentinel));
    [reflexivity | | | reflexivity]; vm_compute; discriminate.
Defined.

(** ** The player never walks into a wall *)

Import Walk.

Section WalkFacts.

Variable playerRadius : Q.
Variable maze : Maze.
Hypothesis maze_rows : hasRows maze.

Lemma fallbackOrder_cases (p newPosition : Vector3) :
  fallbackOrder playerRadius maze p newPosition = p \/
  (In (fallbackOrder playerRadius maze p newPosition)
      (candidates p newPosition) /\
   blocked playerRadius maze
     (fallbackOrder playerRadius maze p newPosition) = false).
Proof.
  unfold fallbackOrder.
  destruct (find _ (candidates p newPosition)) as [c |] eqn:Hfind;
    [right | left; reflexivity].
  apply find_some in Hfind. destruct Hfind as [Hin Hfree].
  apply negb_true_iff in Hfree. auto.
Qed.

(** A frame leaves the player where it was or at a position that
    passes the wall test. *)
Lemma updatePosition_cases (p v : Vector3) :
  exists p',
    updatePosition playerRadius maze p v = Some p' /\
    (p' = p \/
     (In p' (candidates p (add p v)) /\ blocked playerRadius maze p' = false)).
Proof.
  rewrite (player_fallback_order playerRadius maze maze_rows).
  eexists. split; [reflexivity |].
  destruct (longerThan v (1 # 1000)); [| left; reflexivity].
  apply fallbackOrder_cases.
Qed.

(** X10.  A player that is not in a wall is never moved into one: after any
    run of frames, whatever the velocities, its position still passes
    the thick-body wall test. *)
Theorem player_stays_out_of_walls (velocities : list Vector3) :
  forall p : Vector3,
    isWallAt playerRadius maze p = Some false ->
    exists p',
      walk playerRadius maze velocities p = Some p' /\
      isWallAt playerRadius maze p' = Some false.
Proof.
  induction velocities as [| v rest IH]; intros p Hfree; cbn [walk];
    [eauto |].
  destruct (updatePosition_cases p v) as (p1 & -> & Hcase).
  apply IH. destruct Hcase as [-> | [_ Hb]]; [exact Hfree |].
  rewrite (blocked_spec playerRadius maze maze_rows), Hb. reflexivity.
Qed.

(** With no vertical velocity the player keeps its height. *)
Lemma updatePosition_height (p v p' : Vector3) :
  vy v == 0 ->
  updatePosition playerRadius maze p v = Some p' -> vy p' == vy p.
Proof.
  intros Hv Hp.
  destruct (updatePosition_cases p v) as (p1 & E & Hcase).
  rewrite Hp in E. injection E as <-.
  destruct Hcase as [-> | [Hin _]]; [reflexivity |].
  unfold candidates, microDirections in Hin.
  cbn [app map In] in Hin.
  repeat destruct Hin as [<- | Hin]; try contradiction;
    cbn [add setX setZ vy]; lra.
Qed.

(** X11.  At the player's height the beam of the UFO is out of reach: the
    exit lies on the ground, 1.5 below the player, and the Hunt win
    test asks for a distance below 1.2.  So no run of frames of a
    player walking at [PLAYER_HEIGHT] ever passes that test, whatever
    agents are left. *)
Theorem beam_is_never_reached (velocities : list Vector3)
    (jumpers : list Jumper) :
  forall p : Vector3,
    vy p == PLAYER_HEIGHT ->
    Forall (fun v => vy v == 0) velocities ->
    exists p',
      walk playerRadius maze velocities p = Some p' /\
      vy p' == PLAYER_HEIGHT /\
      beamReached p' jumpers = false.
Proof.
  induction velocities as [| v rest IH]; intros p Hy Hvs; cbn [walk].
  - exists p. split; [reflexivity |]. split; [exact Hy |].
    unfold beamReached. apply andb_false_iff. left.
    apply Qltb_false. unfold distanceSq, exit, PLAYER_HEIGHT in *.
    cbn [vx vy vz].
    assert (H : vy p - 0 == 15 # 10) by lra.
    rewrite H.
    assert (Sq : forall a : Q, 0 <= a * a) by (intro a; nra).
    pose proof (Sq (vx p - (halfSize - (15 # 10)))).
    pose proof (Sq (vz p - (halfSize - (15 # 10)))).
    lra.
  - inversion Hvs as [| ? ? Hv Hrest]; subst.
    destruct (updatePosition_cases p v) as (p1 & E & _).
    rewrite E. apply IH; [| exact Hrest].
    rewrite (updatePosition_height p v p1 Hv E). exact Hy.
Qed.

End WalkFacts.

(** [player_stays_out_of_walls] and [beam_is_never_reached] on the
    two-cell grid: the player starts in the entrance cell and pushes
    right for three frames. *)
Lemma player_stays_out_of_walls_witness :
  exists p',
    walk (25 # 100) Scenario.twoCellGrid
      [ vec3 (8 # 100) 0 0; vec3 (8 # 100) 0 0; vec3 (8 # 100) 0 0 ]
      playerStart = Some p' /\
    isWallAt (25 # 100) Scenario.twoCellGrid p' = Some false.
Proof.
  apply (player_stays_out_of_walls (25 # 100) Scenario.twoCellGrid);
    reflexivity.
Defined.

Lemma beam_is_never_reached_witness :
  exists p',
    walk (25 # 100) Scenario.twoCellGrid
      [ vec3 (8 # 100) 0 0; vec3 (8 # 100) 0 0 ] playerStart = Some p' /\
    vy p' == PLAYER_HEIGHT /\
    beamReached p' [] = false.
Proof.
  apply (beam_is_never_reached (25 # 100) Scenario.twoCellGrid);
    [reflexivity | reflexivity |].
  repeat constructor.
Defined.

(** ** The corridors found are the maximal runs *)

Import Runs.

Lemma places_cons (a : Z) (n : nat) :
  places a (S n) = a :: places (a + 1) n.
Proof.
  unfold places. cbn [seq map]. f_equal; [lia |].
  rewrite <- seq_shift, map_map. apply map_ext. intro k. lia.
Qed.

Lemma inner_places : inner = places 1 28.
Proof. reflexivity. Qed.

Lemma corridorEqb_spec (a b : Corridor) : corridorEqb a b = true <-> a = b.
Proof.
  destruct a as [ta sa ea fa la], b as [tb sb eb fb lb].
  unfold corridorEqb. cbn [ctype cstart cend cfixed clength].
  rewrite !andb_true_iff, !Z.eqb_eq, ctypeEqb_spec.
  split; [intros ((((-> & ->) & ->) & ->) & ->); reflexivity |].
  intro E. injection E as -> -> -> -> ->. auto.
Qed.

Lemma pushNew_has (corridors : list Corridor) (c : Corridor) :
  In c (pushNew corridors c).
Proof.
  unfold pushNew. destruct (existsb (corridorEqb c) corridors) eqn:E.
  - apply existsb_exists in E. destruct E as (x & Hin & Hx).
    apply corridorEqb_spec in Hx. subst x. exact Hin.
  - apply in_app_iff. right. left. reflexivity.
Qed.

Lemma pushNew_keeps (corridors : list Corridor) (c x : Corridor) :
  In x corridors -> In x (pushNew corridors c).
Proof.
  unfold pushNew. destruct (existsb (corridorEqb c) corridors); [auto |].
  intro H. apply in_app_iff. left. exact H.
Qed.

Lemma pushNew_NoDup (corridors : list Corridor) (c : Corridor) :
  NoDup corridors -> NoDup (pushNew corridors c).
Proof.
  unfold pushNew. intro H.
  destruct (existsb (corridorEqb c) corridors) eqn:E; [exact H |].
  apply NoDup_app; [exact H | repeat constructor; intros [] |].
  intros x Hx [Ex | []]. subst x.
  assert (existsb (corridorEqb c) corridors = true).
  { apply existsb_exists. exists c. split; [exact Hx |].
    apply corridorEqb_spec. reflexivity. }
  congruence.
Qed.

Section ScanLine.

Variable maze : Maze.
Variable t : CorridorType.
Variable fixed : Z.
Hypothesis fixed_range : (1 <= fixed <= MAZE_SIZE - 2)%Z.

Lemma scanState_step (a start length : Z) :
  (1 <= a)%Z ->
  scanState (lineOpen maze t fixed) a start length ->
  scanState (lineOpen maze t fixed) (a + 1)
    (if (lineOpen maze t fixed) a then (if (start =? -1)%Z then a else start) else (-1)%Z)
    (if (lineOpen maze t fixed) a then (length + 1)%Z else 0%Z).
Proof.
  unfold scanState.
  intros Ha1 [(-> & -> & Hleft) | (Hlen & Hstart & Hsum & Hopen & Hleft)];
    destruct ((lineOpen maze t fixed) a) eqn:Ha;
    replace (a + 1 - 1)%Z with a by lia.
  - right. rewrite Z.eqb_refl.
    split; [lia |]. split; [exact Ha1 |]. split; [lia |].
    split; [| exact Hleft].
    intros i Hi. replace i with a by lia. exact Ha.
  - left. auto.
  - right. destruct (start =? -1)%Z eqn:E; [apply Z.eqb_eq in E; lia |].
    split; [lia |]. split; [exact Hstart |]. split; [lia |].
    split; [| exact Hleft].
    intros i Hi. destruct (Z.eq_dec i a) as [-> | Hne]; [exact Ha |].
    apply Hopen. lia.
  - left. auto.
Qed.

(** The corridor pushed when a run ends at place [a - 1], the place [a]
    being closed or beyond the line. *)
Lemma run_is_good (a start length : Z) :
  (a <= MAZE_SIZE - 1)%Z ->
  scanState (lineOpen maze t fixed) a start length ->
  (length >=? 2)%Z = true ->
  (a = (MAZE_SIZE - 1)%Z \/ (lineOpen maze t fixed) a = false) ->
  (runOf maze t fixed) (runCorridor t fixed start length).
Proof.
  intros Ha Hstate Hlen Hright. apply Z.geb_le in Hlen.
  destruct Hstate as [(-> & _) | (_ & Hstart & Hsum & Hopen & Hleft)];
    [lia |].
  exists start, length. split; [reflexivity |].
  unfold maximalRun, MAZE_SIZE in *.
  replace (start + length - 1 + 1)%Z with a by lia.
  split; [exact fixed_range |]. split; [exact Hstart |].
  split; [lia |]. split; [lia |].
  split; [intros i Hi; apply Hopen; lia |].
  split; [exact Hleft |].
  destruct Hright as [-> | Hright]; [left; lia | right; exact Hright].
Qed.

(** One line of the scan adds runs of that line only; [old] holds of
    the corridors pushed before. *)
Lemma scanLine_good (old : Corridor -> Prop) (n : nat) :
  forall (a start length : Z) (corridors : list Corridor),
    (1 <= a)%Z -> (a + Z.of_nat n = MAZE_SIZE - 1)%Z ->
    scanState (lineOpen maze t fixed) a start length ->
    Forall (fun c => old c \/ runOf maze t fixed c) corridors ->
    Forall (fun c => old c \/ runOf maze t fixed c)
      (scanLine t fixed (lineOpen maze t fixed) (places a n) start length
         corridors).
Proof.
  assert (Hpush : forall a start length corridors,
             (a <= MAZE_SIZE - 1)%Z ->
             scanState (lineOpen maze t fixed) a start length ->
             (a = (MAZE_SIZE - 1)%Z \/ (lineOpen maze t fixed) a = false) ->
             Forall (fun c => old c \/ runOf maze t fixed c) corridors ->
             Forall (fun c => old c \/ runOf maze t fixed c)
               (if (length >=? 2)%Z
                then pushNew corridors (runCorridor t fixed start length)
                else corridors)).
  { intros a start length corridors Ha Hstate Hright Hall.
    destruct (length >=? 2)%Z eqn:Hlen; [| exact Hall].
    apply Forall_forall. intros x Hx.
    apply pushNew_In in Hx. destruct Hx as [Hx | ->].
    - rewrite Forall_forall in Hall. auto.
    - right. apply (run_is_good a); assumption. }
  induction n as [| n IH]; intros a start length corridors Ha Hn Hstate Hall.
  - cbn [places seq map scanLine]. apply (Hpush a); auto; lia.
  - rewrite places_cons. cbn [scanLine].
    pose proof (scanState_step a start length Ha Hstate) as Hnext.
    destruct ((lineOpen maze t fixed) a) eqn:Hopen.
    + apply IH; [lia | lia | exact Hnext | exact Hall].
    + apply IH; [lia | lia | exact Hnext |].
      apply (Hpush a); auto. lia.
Qed.

End ScanLine.

Import Scans.

Lemma findCorridors_scans (maze : Maze) :
  findCorridors maze =
  scanAll maze vertical inner (scanAll maze horizontal inner []).
Proof.
  cbv beta iota zeta delta [findCorridors scanAll lineOpen cellAt].
  reflexivity.
Qed.

Lemma scanLine_keeps (t : CorridorType) (fixed : Z) (cellOpen : Z -> bool)
    (x : Corridor) (line : list Z) :
  forall (start length : Z) (corridors : list Corridor),
    In x corridors ->
    In x (scanLine t fixed cellOpen line start length corridors).
Proof.
  induction line as [| i rest IH]; intros start length corridors Hx;
    cbn [scanLine].
  - destruct (length >=? 2)%Z; [apply pushNew_keeps |]; exact Hx.
  - destruct (cellOpen i); apply IH; [exact Hx |].
    destruct (length >=? 2)%Z; [apply pushNew_keeps |]; exact Hx.
Qed.

Lemma scanLine_NoDup (t : CorridorType) (fixed : Z) (cellOpen : Z -> bool)
    (line : list Z) :
  forall (start length : Z) (corridors : list Corridor),
    NoDup corridors ->
    NoDup (scanLine t fixed cellOpen line start length corridors).
Proof.
  induction line as [| i rest IH]; intros start length corridors Hnd;
    cbn [scanLine].
  - destruct (length >=? 2)%Z; [apply pushNew_NoDup |]; exact Hnd.
  - destruct (cellOpen i); apply IH; [exact Hnd |].
    destruct (length >=? 2)%Z; [apply pushNew_NoDup |]; exact Hnd.
Qed.

Lemma scanAll_keeps (maze : Maze) (t : CorridorType) (x : Corridor)
    (lines : list Z) :
  forall corridors, In x corridors -> In x (scanAll maze t lines corridors).
Proof.
  unfold scanAll.
  induction lines as [| k rest IH]; intros corridors Hx; cbn [fold_left];
    [exact Hx |].
  apply IH, scanLine_keeps, Hx.
Qed.

Lemma scanAll_NoDup (maze : Maze) (t : CorridorType) (lines : list Z) :
  forall corridors, NoDup corridors -> NoDup (scanAll maze t lines corridors).
Proof.
  unfold scanAll.
  induction lines as [| k rest IH]; intros corridors Hnd; cbn [fold_left];
    [exact Hnd |].
  apply IH, scanLine_NoDup, Hnd.
Qed.

Lemma inner_range (k : Z) : In k inner <-> (1 <= k <= MAZE_SIZE - 2)%Z.
Proof.
  unfold inner, MAZE_SIZE. rewrite in_map_iff. split.
  - intros (n & <- & Hn). apply in_seq in Hn. lia.
  - intro H. exists (Z.to_nat k). split; [lia |]. apply in_seq. lia.
Qed.

Lemma scanState_start (cellOpen : Z -> bool) :
  scanState cellOpen 1 (-1) 0.
Proof. left. auto. Qed.

Lemma scanAll_good (maze : Maze) (t : CorridorType) (lines : list Z) :
  forall corridors,
    (forall k, In k lines -> In k inner) ->
    Forall (isMaximalRun maze) corridors ->
    Forall (isMaximalRun maze) (scanAll maze t lines corridors).
Proof.
  unfold scanAll.
  induction lines as [| k rest IH]; intros corridors Hin Hall;
    cbn [fold_left]; [exact Hall |].
  apply IH; [intros k' Hk'; apply Hin; right; exact Hk' |].
  assert (Hk : (1 <= k <= MAZE_SIZE - 2)%Z)
    by (apply inner_range, Hin; left; reflexivity).
  apply Forall_forall. intros c Hc.
  destruct (in_dec
              (fun a b : Corridor =>
                 match bool_dec (corridorEqb a b) true with
                 | left E => left (proj1 (corridorEqb_spec a b) E)
                 | right E =>
                     right (fun H => E (proj2 (corridorEqb_spec a b) H))
                 end) c corridors) as [Hold | Hnew].
  { rewrite Forall_forall in Hall. auto. }
  assert (Hruns : Forall (fun c => In c corridors \/ runOf maze t k c)
                    (scanLine t k (lineOpen maze t k) inner (-1)%Z 0%Z corridors)).
  { rewrite inner_places.
    apply (scanLine_good maze t k Hk (fun c => In c corridors)).
    - lia.
    - reflexivity.
    - apply scanState_start.
    - apply Forall_forall. intros x Hx. left. exact Hx. }
  rewrite Forall_forall in Hruns. destruct (Hruns c Hc) as [Hold | Hrun];
    [contradiction |].
  destruct Hrun as (first & length & -> & Hmax).
  unfold isMaximalRun, runCorridor.
  cbn [ctype cstart cend cfixed clength]. split; [lia | exact Hmax].
Qed.

(** Every corridor found is a maximal run. *)
Lemma found_is_maximal (maze : Maze) (c : Corridor) :
  In c (findCorridors maze) -> isMaximalRun maze c.
Proof.
  intro Hc. rewrite findCorridors_scans in Hc.
  assert (H : Forall (isMaximalRun maze)
                (scanAll maze vertical inner (scanAll maze horizontal inner [])))
    by (apply scanAll_good; [auto |]; apply scanAll_good; [auto | constructor]).
  rewrite Forall_forall in H. auto.
Qed.

(** X12.  Soundness of the corridor extractor: every corridor found is a
    maximal run of open cells of a row or column, at least two cells
    long, within rows and columns 1 to 28, with
    [length = end - start + 1]. *)
Theorem corridors_are_maximal_runs (maze : Maze) (c : Corridor) :
  In c (findCorridors maze) -> isMaximalRun maze c.
Proof.
  intro Hc. rewrite findCorridors_scans in Hc.
  assert (H : Forall (isMaximalRun maze)
                (scanAll maze vertical inner (scanAll maze horizontal inner []))).
  { apply scanAll_good; [auto |]. apply scanAll_good; [auto | constructor]. }
  rewrite Forall_forall in H. auto.
Qed.

Lemma corridors_are_maximal_runs_witness :
  In Scenario.shortCorridor (findCorridors Scenario.twoCellGrid) /\
  isMaximalRun Scenario.twoCellGrid Scenario.shortCorridor.
Proof.
  assert (H : In Scenario.shortCorridor (findCorridors Scenario.twoCellGrid)).
  { vm_compute. left. reflexivity. }
  split; [exact H |].
  exact (corridors_are_maximal_runs Scenario.twoCellGrid Scenario.shortCorridor H).
Defined.

Section FindRun.

Variable maze : Maze.
Variable t : CorridorType.
Variables fixed first last : Z.
Hypothesis run : maximalRun maze t fixed first last.

(** Inside the run: the scanner holds its start and the cells read so
    far, and pushes the run's corridor when it ends. *)
Lemma scanLine_inside (n : nat) :
  forall (a : Z) (corridors : list Corridor),
    (first < a <= last + 1)%Z -> (a + Z.of_nat n = MAZE_SIZE - 1)%Z ->
    In (runCorridor t fixed first (last - first + 1))
       (scanLine t fixed (lineOpen maze t fixed) (places a n) first (a - first)
          corridors).
Proof.
  destruct run as (Hfixed & Hfirst & Hlt & Hlast & Hopen & Hleft & Hright).
  unfold MAZE_SIZE in *.
  induction n as [| n IH]; intros a corridors Ha Hn.
  - cbn [places seq map scanLine].
    assert (E : a = (last + 1)%Z) by lia. subst a.
    replace (last + 1 - first)%Z with (last - first + 1)%Z by lia.
    destruct (last - first + 1 >=? 2)%Z eqn:Hlen; [apply pushNew_has | lia].
  - rewrite places_cons. cbn [scanLine].
    destruct (Z.eq_dec a (last + 1)) as [E | E].
    + subst a. destruct Hright as [Hright | Hright]; [lia |].
      unfold lineOpen. rewrite Hright.
      apply scanLine_keeps.
      replace (last + 1 - first)%Z with (last - first + 1)%Z by lia.
      destruct (last - first + 1 >=? 2)%Z eqn:Hlen; [apply pushNew_has | lia].
    + unfold lineOpen at 1 2 3. rewrite (Hopen a) by lia.
      destruct (first =? -1)%Z eqn:E1; [lia |].
      replace (a - first + 1)%Z with (a + 1 - first)%Z by lia.
      apply IH; lia.
Qed.

(** Before the run: whatever the scanner holds, it reaches the run's
    first cell with nothing in hand. *)
Lemma scanLine_before (n : nat) :
  forall (a start length : Z) (corridors : list Corridor),
    (1 <= a <= first)%Z -> (a + Z.of_nat n = MAZE_SIZE - 1)%Z ->
    scanState (lineOpen maze t fixed) a start length ->
    In (runCorridor t fixed first (last - first + 1))
       (scanLine t fixed (lineOpen maze t fixed) (places a n) start length
          corridors).
Proof.
  pose proof run as (Hfixed & Hfirst & Hlt & Hlast & Hopen & Hleft & Hright).
  unfold MAZE_SIZE in *.
  induction n as [| n IH]; intros a start length corridors Ha Hn Hstate.
  - lia.
  - rewrite places_cons. cbn [scanLine].
    pose proof (scanState_step maze t fixed a start length (proj1 Ha) Hstate)
      as Hnext.
    destruct (Z.eq_dec a first) as [E | E].
    + subst a.
      assert (Hidle : length = 0%Z /\ start = (-1)%Z).
      { destruct Hstate as [(Hl & Hs & _) | (Hl & Hs & Hsum & Hcells & _)];
          [auto |].
        exfalso. destruct Hleft as [Hleft | Hleft]; [lia |].
        unfold lineOpen in Hcells. rewrite (Hcells (first - 1)%Z) in Hleft by lia.
        discriminate Hleft. }
      destruct Hidle as [-> ->].
      unfold lineOpen at 1 2 3. rewrite (Hopen first) by lia.
      cbn [Z.eqb Pos.eqb].
      replace (0 + 1)%Z with (first + 1 - first)%Z by lia.
      apply scanLine_inside; unfold MAZE_SIZE; lia.
    + destruct (lineOpen maze t fixed a); apply IH; try lia; exact Hnext.
Qed.

Lemma scanAll_finds (lines : list Z) :
  forall corridors,
    In fixed lines ->
    In (runCorridor t fixed first (last - first + 1))
       (scanAll maze t lines corridors).
Proof.
  induction lines as [| k rest IH]; intros corridors Hin; [destruct Hin |].
  change (scanAll maze t (k :: rest) corridors)
    with (scanAll maze t rest
            (scanLine t k (lineOpen maze t k) inner (-1)%Z 0%Z corridors)).
  destruct (Z.eq_dec k fixed) as [-> | Hk].
  - apply scanAll_keeps. rewrite inner_places.
    apply scanLine_before.
    + destruct run as (_ & Hfirst & _). lia.
    + reflexivity.
    + apply scanState_start.
  - apply IH. destruct Hin as [E | Hin]; [contradiction | exact Hin].
Qed.

End FindRun.

(** X13.  Completeness of the corridor extractor: every maximal run of at
    least two open cells of a row or column 1 to 28 is found, with its
    type, bounds, fixed coordinate and length. *)
Theorem maximal_runs_are_found (maze : Maze) (t : CorridorType)
    (fixed first last : Z) :
  maximalRun maze t fixed first last ->
  In (runCorridor t fixed first (last - first + 1)) (findCorridors maze).
Proof.
  intro Hrun. rewrite findCorridors_scans.
  assert (Hline : In fixed inner)
    by (apply inner_range; destruct Hrun as (H & _); exact H).
  destruct t.
  - apply scanAll_keeps. apply (scanAll_finds maze horizontal fixed first last Hrun).
    exact Hline.
  - apply (scanAll_finds maze vertical fixed first last Hrun). exact Hline.
Qed.

(** X14.  No corridor is listed twice, whatever the grid. *)
Theorem corridors_are_distinct (maze : Maze) : NoDup (findCorridors maze).
Proof.
  rewrite findCorridors_scans.
  apply scanAll_NoDup, scanAll_NoDup. constructor.
Qed.

Lemma maximal_runs_are_found_witness :
  maximalRun Scenario.twoCellGrid horizontal 1 1 2 /\
  In (runCorridor horizontal 1 1 (2 - 1 + 1))
     (findCorridors Scenario.twoCellGrid).
Proof.
  assert (H : maximalRun Scenario.twoCellGrid horizontal 1 1 2).
  { unfold maximalRun, MAZE_SIZE.
    split; [lia |]. split; [lia |]. split; [lia |]. split; [lia |].
    split; [| split].
    - intros i Hi. assert (E : i = 1%Z \/ i = 2%Z) by lia.
      destruct E as [-> | ->]; reflexivity.
    - left. reflexivity.
    - right. reflexivity. }
  split; [exact H |].
  exact (maximal_runs_are_found Scenario.twoCellGrid horizontal 1 1 2 H).
Defined.

(** ** Hunt agents stay in the cells of their corridor *)

Import Patrol.

Lemma toWorld_lt (a b : Z) : (a < b)%Z -> toWorld a + 1 <= toWorld b.
Proof.
  intro H. unfold toWorld.
  assert (E : inject_Z a + 1 <= inject_Z b).
  { change 1 with (inject_Z 1). rewrite <- inject_Z_plus, <- Zle_Qle. lia. }
  lra.
Qed.

Lemma clamp_in_corridor (ws we v : Q) :
  ws + 1 <= we -> ws <= clamp (ws + 1) (we - 1) v /\ clamp (ws + 1) (we - 1) v <= we.
Proof.
  intro H. unfold clamp. split.
  - pose proof (Q.le_max_l (ws + 1) (Qmin (we - 1) v)). lra.
  - apply Q.max_lub; [exact H |].
    pose proof (Q.le_min_l (we - 1) v). lra.
Qed.

Lemma spawn_onPatrol (phase : Q) (c : Corridor) :
  (cstart c < cend c)%Z -> onPatrol c (spawnJumper phase c).
Proof.
  intro H. apply toWorld_lt in H.
  unfold onPatrol, spawnJumper, corridorAxis.
  destruct (ctype c); cbn [laneInfo axis patrolAxis fixedCoord patrolMin
                             patrolMax position across along vx vz];
    repeat split; try reflexivity;
    set (ws := toWorld (cstart c)) in *; set (we := toWorld (cend c)) in *;
    try (apply Qle_shift_div_l; [reflexivity | lra]);
    try (apply Qle_shift_div_r; [reflexivity | lra]).
Qed.

Lemma frame_onPatrol (jumpHeightAt : Q -> Q) (player : Vector3)
    (c : Corridor) (j : Jumper) :
  (cstart c < cend c)%Z ->
  onPatrol c j -> onPatrol c (Basic.updateJumper jumpHeightAt player j).
Proof.
  intros Hc (Hlane & Haxis & Hfixed & Hmin & Hmax & _).
  apply toWorld_lt in Hc.
  unfold Basic.updateJumper.
  destruct (basic_updateState_fields player j) as (A & B & C & D & _).
  set (j1 := Basic.updateState player j) in *.
  rewrite <- A in Haxis. rewrite <- B in Hmin. rewrite <- C in Hmax.
  rewrite <- D in Hlane, Hfixed.
  clearbody j1. clear A B C D j.
  unfold onPatrol, Basic.moveJumper.
  cbn [laneInfo patrolAxis patrolMin patrolMax position].
  split; [exact Hlane |]. split; [exact Haxis |]. split; [exact Hfixed |].
  split; [exact Hmin |]. split; [exact Hmax |].
  unfold alignToLane. rewrite Hlane, Haxis, Hmin, Hmax, Hfixed.
  destruct (corridorAxis c);
    cbn [clampToPatrol across along vx vz];
    (split; [reflexivity | apply clamp_in_corridor, Hc]).
Qed.

Lemma run_onPatrol (jumpHeightAt : Q -> Q) (c : Corridor)
    (players : list Vector3) :
  (cstart c < cend c)%Z ->
  forall j, onPatrol c j -> onPatrol c (Basic.run jumpHeightAt players j).
Proof.
  intro Hc. unfold Basic.run.
  induction players as [| p rest IH]; intros j Hj; cbn [fold_left];
    [exact Hj |].
  apply IH, frame_onPatrol; assumption.
Qed.

Lemma floor_in_cells (a b : Z) (x : Q) :
  toWorld a <= x -> x <= toWorld b ->
  (a <= Qfloor (x + halfSize) <= b)%Z.
Proof.
  unfold toWorld. intros Ha Hb.
  split.
  - apply Z.le_trans with (Qfloor (inject_Z a));
      [rewrite Qfloor_Z; lia | apply Qfloor_resp_le; lra].
  - apply Z.le_trans with (Qfloor (inject_Z b));
      [apply Qfloor_resp_le; lra | rewrite Qfloor_Z; lia].
Qed.

Lemma onPatrol_inside (c : Corridor) (j : Jumper) :
  onPatrol c j -> insideCorridor c (position j).
Proof.
  intros (_ & _ & _ & _ & _ & Hacross & Hlo & Hhi).
  unfold insideCorridor, corridorAxis, gridCoord in *.
  destruct (ctype c); cbn [across along fst snd] in *.
  - split; [| apply floor_in_cells; assumption].
    transitivity (Qfloor (inject_Z (cfixed c))); [| apply Qfloor_Z].
    apply Qfloor_comp. rewrite Hacross. unfold toWorld. ring.
  - split; [| apply floor_in_cells; assumption].
    transitivity (Qfloor (inject_Z (cfixed c))); [| apply Qfloor_Z].
    apply Qfloor_comp. rewrite Hacross. unfold toWorld. ring.
Qed.

Lemma hunt_run (jumpHeightAt : Q -> Q) (maze : Maze) (players : list Vector3) :
  forall j,
    ModeSelect.run jumpHeightAt hunt maze players j =
    Some (Basic.run jumpHeightAt players j).
Proof.
  unfold Basic.run.
  induction players as [| p rest IH]; intro j;
    cbn [ModeSelect.run fold_left]; [reflexivity |].
  rewrite hunt_updateJumper. apply IH.
Qed.

Lemma createJumpers_In (phase : nat -> Q) (maze : Maze) (j : Jumper) :
  In j (createJumpers phase maze) ->
  exists (i : nat) (c : Corridor),
    In c (findCorridors maze) /\ j = spawnJumper (phase i) c.
Proof.
  unfold createJumpers. intro H.
  apply in_map_iff in H. destruct H as ([i c] & <- & Hin).
  apply in_combine_r in Hin. cbn [fst snd].
  exists i, c. split; [apply selected_found, Hin | reflexivity].
Qed.

Lemma combine_seq_nth {A : Type} (l : list A) :
  forall (a i : nat) (x : A),
    In (i, x) (combine (seq a (length l)) l) ->
    (a <= i)%nat /\ nth_error l (i - a) = Some x.
Proof.
  induction l as [| h t IH]; intros a i x H; cbn [length seq combine] in H;
    [destruct H |].
  destruct H as [E | H].
  - injection E as <- <-. rewrite Nat.sub_diag. split; [lia | reflexivity].
  - destruct (IH (S a) i x H) as [Hle Hnth].
    split; [lia |].
    replace (i - a)%nat with (S (i - S a)) by lia. exact Hnth.
Qed.

(** Every agent is the one made for a corridor of the selection, and
    the corridor an agent is made for is one of those found. *)
Lemma createJumpers_made (phase : nat -> Q) (maze : Maze) (j : Jumper) :
  In j (createJumpers phase maze) ->
  exists (i : nat) (c : Corridor), madeFor phase maze j i c.
Proof.
  unfold createJumpers. intro H.
  apply in_map_iff in H. destruct H as ([i c] & <- & Hin).
  apply combine_seq_nth in Hin. destruct Hin as [_ Hnth].
  rewrite Nat.sub_0_r in Hnth. cbn [fst snd].
  exists i, c. split; [exact Hnth | reflexivity].
Qed.

Lemma madeFor_found (phase : nat -> Q) (maze : Maze) (j : Jumper) (i : nat)
    (c : Corridor) :
  madeFor phase maze j i c -> isMaximalRun maze c /\ In c (findCorridors maze).
Proof.
  intros [Hnth _]. apply nth_error_In in Hnth.
  apply selected_found in Hnth.
  split; [apply found_is_maximal, Hnth | exact Hnth].
Qed.

(** X15.  Every agent [createJumpers] makes stands, at its spawn and after
    any number of Hunt frames of either edition, in a cell of the
    corridor it was made for, which is an open cell of the maze:
    whatever the player does, a Hunt agent never leaves its own
    corridor and is never in a wall cell.  The agent is made for a
    corridor of the selection, and whichever corridor it is made for,
    that corridor holds it. *)
Theorem hunt_agents_stay_in_corridor (jumpHeightAt : Q -> Q)
    (phase : nat -> Q) (maze : Maze) (players : list Vector3) (j : Jumper) :
  In j (createJumpers phase maze) ->
  ModeSelect.run jumpHeightAt hunt maze players j =
    Some (Basic.run jumpHeightAt players j) /\
  isOpen maze (gridCoord (position (Basic.run jumpHeightAt players j))) = true /\
  (exists (i : nat) (c : Corridor), madeFor phase maze j i c) /\
  (forall (i : nat) (c : Corridor),
     madeFor phase maze j i c ->
     In c (findCorridors maze) /\
     insideCorridor c (position (Basic.run jumpHeightAt players j))).
Proof.
  intro Hj. split; [apply hunt_run |].
  assert (Hall : forall (i : nat) (c : Corridor),
             madeFor phase maze j i c ->
             In c (findCorridors maze) /\
             insideCorridor c (position (Basic.run jumpHeightAt players j)) /\
             isOpen maze
               (gridCoord (position (Basic.run jumpHeightAt players j))) = true).
  { intros i c Hmade.
    destruct (madeFor_found phase maze j i c Hmade) as [Hgood Hc].
    destruct Hmade as [_ ->].
    destruct Hgood as (_ & _ & _ & Hlt & _ & Hopen & _).
    pose proof (onPatrol_inside c _
                  (run_onPatrol jumpHeightAt c players Hlt _
                     (spawn_onPatrol (phase i) c Hlt))) as Hin.
    split; [exact Hc |]. split; [exact Hin |].
    unfold insideCorridor in Hin. unfold cellAt in Hopen.
    destruct (gridCoord (position (Basic.run jumpHeightAt players
                                     (spawnJumper (phase i) c)))) as [gx gz].
    cbn [fst snd] in Hin.
    destruct (ctype c); destruct Hin as [E Hrange]; rewrite E;
      apply Hopen, Hrange. }
  destruct (createJumpers_made phase maze j Hj) as (i & c & Hmade).
  split; [apply (Hall i c Hmade) |].
  split; [exists i, c; exact Hmade |].
  intros i' c' Hmade'. destruct (Hall i' c' Hmade') as (A & B & _). auto.
Qed.

(** [hunt_agents_stay_in_corridor] on the two-cell grid: the one agent,
    made for the short corridor, after a frame with the player in
    sight. *)
Lemma hunt_agents_stay_in_corridor_witness :
  In (spawnJumper 0 Scenario.shortCorridor)
     (createJumpers (fun _ => 0) Scenario.twoCellGrid) /\
  madeFor (fun _ => 0) Scenario.twoCellGrid
    (spawnJumper 0 Scenario.shortCorridor) 0 Scenario.shortCorridor /\
  insideCorridor Scenario.shortCorridor
    (position
       (Basic.run Scenario.flat [ Scenario.playerInSight ]
          (spawnJumper 0 Scenario.shortCorridor))) /\
  isOpen Scenario.twoCellGrid
    (gridCoord
       (position
          (Basic.run Scenario.flat [ Scenario.playerInSight ]
             (spawnJumper 0 Scenario.shortCorridor)))) = true.
Proof.
  assert (H : In (spawnJumper 0 Scenario.shortCorridor)
                (createJumpers (fun _ => 0) Scenario.twoCellGrid)).
  { vm_compute. left. reflexivity. }
  assert (M : madeFor (fun _ => 0) Scenario.twoCellGrid
                (spawnJumper 0 Scenario.shortCorridor) 0
                Scenario.shortCorridor).
  { split; [vm_compute; reflexivity | reflexivity]. }
  destruct (hunt_agents_stay_in_corridor Scenario.flat (fun _ => 0)
              Scenario.twoCellGrid [ Scenario.playerInSight ] _ H)
    as (_ & Hopen & _ & Hall).
  split; [exact H |]. split; [exact M |].
  split; [exact (proj2 (Hall 0%nat Scenario.shortCorridor M)) | exact Hopen].
Defined.

(** ** The selection leaves out no corridor it could take *)

Import Roster.

Lemma tooClose_crowded (d : Z) (selected : list Corridor) (c : Corridor) :
  tooClose d selected c = true <-> crowded d selected c.
Proof.
  unfold tooClose, crowded. rewrite existsb_exists.
  split; intros (s & Hin & H); exists s; (split; [exact Hin |]).
  - apply andb_true_iff in H. destruct H as [Ht Hd].
    apply ctypeEqb_spec in Ht. apply Z.ltb_lt in Hd. auto.
  - destruct H as [Ht Hd]. apply andb_true_iff.
    split; [apply ctypeEqb_spec, Ht | apply Z.ltb_lt, Hd].
Qed.

Lemma crowded_grows (d : Z) (selected extra : list Corridor) (c : Corridor) :
  crowded d selected c -> crowded d (selected ++ extra) c.
Proof.
  intros (s & Hin & H). exists s. split; [| exact H].
  apply in_app_iff. left. exact Hin.
Qed.

Lemma secondPass_saturated (corridors : list Corridor) :
  forall selected : list Corridor,
    (length selected <= JUMPER_COUNT)%nat ->
    (exists extra, secondPass corridors selected = selected ++ extra) /\
    (length (secondPass corridors selected) = JUMPER_COUNT \/
     forall c, In c corridors ->
               In c (secondPass corridors selected) \/
               crowded 2 (secondPass corridors selected) c).
Proof.
  induction corridors as [| c rest IH]; intros selected Hlen;
    cbn [secondPass].
  - split; [exists []; symmetry; apply app_nil_r |]. right. intros c [].
  - destruct (JUMPER_COUNT <=? length selected)%nat eqn:Hfull.
    { apply Nat.leb_le in Hfull.
      split; [exists []; symmetry; apply app_nil_r |]. left. lia. }
    apply Nat.leb_gt in Hfull.
    destruct (existsb (corridorEqb c) selected) eqn:Hhas.
    { destruct (IH selected Hlen) as ((extra & E) & Hsat).
      split; [exists extra; exact E |].
      destruct Hsat as [Hsat | Hsat]; [left; exact Hsat | right].
      intros x [<- | Hx]; [| apply Hsat, Hx].
      left. rewrite E. apply in_app_iff. left.
      apply existsb_exists in Hhas. destruct Hhas as (y & Hy & Heq).
      apply corridorEqb_spec in Heq. subst y. exact Hy. }
    destruct (tooClose 2 selected c) eqn:Hfar.
    { destruct (IH selected Hlen) as ((extra & E) & Hsat).
      split; [exists extra; exact E |].
      destruct Hsat as [Hsat | Hsat]; [left; exact Hsat | right].
      intros x [<- | Hx]; [| apply Hsat, Hx].
      right. rewrite E. apply crowded_grows, tooClose_crowded, Hfar. }
    destruct (IH (selected ++ [c])) as ((extra & E) & Hsat).
    { rewrite length_app. cbn [length]. lia. }
    split; [exists (c :: extra); rewrite E, <- app_assoc; reflexivity |].
    destruct Hsat as [Hsat | Hsat]; [left; exact Hsat | right].
    intros x [<- | Hx]; [| apply Hsat, Hx].
    left. rewrite E. apply in_app_iff. left. apply in_app_iff. right.
    left. reflexivity.
Qed.

(** X16.  The allocator is greedy to the end: whatever the corridors, the
    selection is full (it holds [JUMPER_COUNT] corridors), or every
    corridor is selected or has a selected corridor of its orientation
    closer than 2 rows or columns. *)
Theorem selection_is_saturated (corridors : list Corridor) :
  length (selectCorridors corridors) = JUMPER_COUNT \/
  forall c : Corridor,
    In c corridors ->
    In c (selectCorridors corridors) \/
    crowded 2 (selectCorridors corridors) c.
Proof.
  unfold selectCorridors.
  apply secondPass_saturated.
  apply (firstPass_invariant corridors [] (spaced_nil 4) (Forall_nil _)).
  unfold JUMPER_COUNT. cbn [length]. lia.
Qed.

(** ** A Survival chaser keeps out of the walls *)

Lemma inWallCell_xz (maze : Maze) (p : Vector3) (y : Q) :
  inWallCell maze (vec3 (vx p) y (vz p)) = inWallCell maze p.
Proof. reflexivity. Qed.

Lemma survival_move_avoids (jumpHeightAt : Q -> Q) (player : Vector3)
    (maze : Maze) (j j' : Jumper) :
  globalChase j = true ->
  inWallCell maze (position j) = false ->
  ModeSelect.moveJumper jumpHeightAt player survival maze j = Some j' ->
  globalChase j' = true /\ inWallCell maze (position j') = false.
Proof.
  intros Hg Hfree. unfold ModeSelect.moveJumper.
  rewrite Hg. cbn [isSurvival andb].
  destruct (ModeSelect.pursuit player j) as [t a].
  destruct (state j); cbv beta iota zeta;
    match goal with
    | |- context [if longerThan ?d ?r then ?x else ?y] =>
        set (moved := if longerThan d r then x else y)
    end;
    clearbody moved;
    (destruct (outside (Qfloor (vx moved + halfSize))
                 (Qfloor (vz moved + halfSize))) eqn:Hout;
     [ intro H; injection H as <-; cbn [globalChase position];
       split; [reflexivity | rewrite inWallCell_xz; exact Hfree]
     | destruct (isWallCell maze (Qfloor (vx moved + halfSize))
                   (Qfloor (vz moved + halfSize))) as [[|] |] eqn:Hcell;
       intro H; [| | discriminate H]; injection H as <-;
       cbn [globalChase position]; (split; [reflexivity |]);
       rewrite inWallCell_xz; [exact Hfree |];
       unfold inWallCell, gridCoord; cbn [fst snd]; rewrite Hout, Hcell;
       reflexivity ]).
Qed.

Lemma survival_updateState_position (player : Vector3) (j : Jumper) :
  position (ModeSelect.updateState player survival j) = position j.
Proof.
  unfold ModeSelect.updateState. cbn [isSurvival].
  destruct (playerInLane player j && negb (stateEqb (state j) chasing));
    reflexivity.
Qed.

(** X17.  Once a Survival agent chases globally it never stands in a wall
    cell nor outside the grid: from a free cell, after any number of
    frames, wherever the player goes, its cell is free. *)
Theorem survival_chaser_avoids_walls (jumpHeightAt : Q -> Q) (maze : Maze)
    (players : list Vector3) :
  forall j j' : Jumper,
    globalChase j = true ->
    inWallCell maze (position j) = false ->
    ModeSelect.run jumpHeightAt survival maze players j = Some j' ->
    globalChase j' = true /\ inWallCell maze (position j') = false.
Proof.
  induction players as [| player rest IH]; intros j j' Hg Hfree Hrun;
    cbn [ModeSelect.run] in Hrun.
  - injection Hrun as <-. auto.
  - destruct (ModeSelect.updateJumper jumpHeightAt player survival maze j)
      as [j1 |] eqn:Hstep; [| discriminate Hrun].
    unfold ModeSelect.updateJumper in Hstep.
    apply survival_move_avoids in Hstep.
    + destruct Hstep as [Hg1 Hfree1]. exact (IH j1 j' Hg1 Hfree1 Hrun).
    + apply survival_updateState_keeps, Hg.
    + rewrite survival_updateState_position. exact Hfree.
Qed.

(** [survival_chaser_avoids_walls] in the sentinel's corridor, walled
    all around, the player far off across the wall. *)
Lemma survival_chaser_avoids_walls_witness :
  exists j' : Jumper,
    ModeSelect.run Scenario.flat survival Scenario.corridorGrid
      [ Scenario.playerFarAlongZ; Scenario.playerFarAlongZ ]
      (setGlobalChase (setState Scenario.sentinel chasing) true) = Some j' /\
    inWallCell Scenario.corridorGrid (position Scenario.sentinel) = false /\
    globalChase j' = true /\
    inWallCell Scenario.corridorGrid (position j') = false.
Proof.
  eexists. split; [vm_compute; reflexivity |].
  split; [vm_compute; reflexivity |].
  eapply (survival_chaser_avoids_walls Scenario.flat Scenario.corridorGrid
            [ Scenario.playerFarAlongZ; Scenario.playerFarAlongZ ]
            (setGlobalChase (setState Scenario.sentinel chasing) true));
    vm_compute; reflexivity.
Defined.

(** ** Where a Hunt agent can catch and be hit *)

Import Contact.

Lemma basic_run_lane (jumpHeightAt : Q -> Q) (players : list Vector3) :
  forall j : Jumper,
    laneInfo (Basic.run jumpHeightAt players j) = laneInfo j /\
    globalChase (Basic.run jumpHeightAt players j) = globalChase j.
Proof.
  unfold Basic.run.
  induction players as [| p rest IH]; intro j; cbn [fold_left]; [auto |].
  destruct (IH (Basic.updateJumper jumpHeightAt p j)) as [A B].
  rewrite A, B. unfold Basic.updateJumper, Basic.moveJumper.
  cbn [laneInfo globalChase]. unfold Basic.updateState.
  destruct (playerInLane p j && negb (stateEqb (state j) chasing));
    [split; reflexivity |].
  destruct (negb (playerInLane p j) && stateEqb (state j) chasing);
    split; reflexivity.
Qed.

Lemma floor_beside (f : Z) (x : Q) :
  Qabs (x - toWorld f) < 8 # 10 ->
  (f - 1 <= Qfloor (x + halfSize) <= f)%Z.
Proof.
  intro H. apply Qabs_Qlt_condition in H. destruct H as [Hlo Hhi].
  unfold toWorld in *. split.
  - apply Z.le_trans with (Qfloor (inject_Z (f - 1)));
      [rewrite Qfloor_Z; lia |].
    apply Qfloor_resp_le. unfold Z.sub. rewrite inject_Z_plus.
    change (inject_Z (- (1))) with (- (1)). lra.
  - assert (Hlt : (Qfloor (x + halfSize) < f + 1)%Z).
    { rewrite Zlt_Qlt. apply Qle_lt_trans with (x + halfSize);
        [apply Qfloor_le |].
      rewrite inject_Z_plus. change (inject_Z 1) with 1. lra. }
    lia.
Qed.

Lemma spawn_lane_covers (phase : Q) (c : Corridor) (j : Jumper) (p : Vector3) :
  laneInfo j = laneInfo (spawnJumper phase c) ->
  patrolAxis j = patrolAxis (spawnJumper phase c) ->
  inSameLane p j = true -> besideCorridor c p.
Proof.
  intros Hlane Haxis Hin.
  unfold inSameLane, inLane in Hin. rewrite Hlane, Haxis in Hin.
  unfold besideCorridor, gridCoord, spawnJumper in *.
  destruct (ctype c);
    cbn [laneInfo patrolAxis xMin xMax zMin zMax fixedCoord fst snd] in *;
    apply andb_true_iff in Hin; destruct Hin as [Hacross Halong];
    apply andb_true_iff in Halong; destruct Halong as [Hlo Hhi];
    apply Qltb_spec in Hacross; apply Qleb_spec in Hlo, Hhi;
    (split; [apply floor_in_cells; lra | apply floor_beside, Hacross]).
Qed.

(** X18.  An agent [createJumpers] made catches the player, or is hit by a
    knife or a bullet at [p], after any number of Hunt frames, only
    when [p] is along the corridor the agent was made for: in a cell
    of that corridor's span, in its row (or column) or the one before
    it.  The agent itself is then in a cell of that corridor. *)
Theorem hunt_agent_acts_along_corridor (jumpHeightAt : Q -> Q)
    (phase : nat -> Q) (maze : Maze) (players : list Vector3) (j : Jumper)
    (p : Vector3) :
  In j (createJumpers phase maze) ->
  catches p (Basic.run jumpHeightAt players j) = true \/
  catchesIn hunt p (Basic.run jumpHeightAt players j) = true \/
  knifeHits p (Basic.run jumpHeightAt players j) = true \/
  bulletHits p (Basic.run jumpHeightAt players j) = true ->
  (exists (i : nat) (c : Corridor), madeFor phase maze j i c) /\
  (forall (i : nat) (c : Corridor),
     madeFor phase maze j i c ->
     In c (findCorridors maze) /\
     insideCorridor c (position (Basic.run jumpHeightAt players j)) /\
     besideCorridor c p).
Proof.
  intros Hj Hact.
  split; [apply createJumpers_made, Hj |].
  intros i c Hmade.
  destruct (madeFor_found phase maze j i c Hmade) as [Hgood Hc].
  destruct Hmade as [_ ->].
  set (j' := Basic.run jumpHeightAt players (spawnJumper (phase i) c)) in *.
  assert (Hlane : inSameLane p j' = true).
  { unfold catches, catchesIn, knifeHits, bulletHits in Hact.
    replace (globalChase j' && isSurvival hunt) with false in Hact
      by (destruct (globalChase j'); reflexivity).
    destruct Hact as [H | [H | [H | H]]];
      apply andb_true_iff in H; destruct H as [H _]; exact H. }
  destruct Hgood as (_ & _ & _ & Hlt & _).
  split; [exact Hc |]. split.
  - apply onPatrol_inside, run_onPatrol; [exact Hlt |].
    apply spawn_onPatrol, Hlt.
  - apply (spawn_lane_covers (phase i) c j' p); [| | exact Hlane].
    + apply basic_run_lane.
    + apply basic_run_fields.
Qed.

(** [hunt_agent_acts_along_corridor] on the two-cell grid: the agent
    made for the short corridor, the player on the agent's line. *)
Lemma hunt_agent_acts_along_corridor_witness :
  In (spawnJumper 0 Scenario.shortCorridor)
     (createJumpers (fun _ => 0) Scenario.twoCellGrid) /\
  catches (vec3 (- (135 # 10)) (8 # 10) (- (14)))
    (Basic.run Scenario.flat [ Scenario.playerInSight ]
       (spawnJumper 0 Scenario.shortCorridor)) = true /\
  madeFor (fun _ => 0) Scenario.twoCellGrid
    (spawnJumper 0 Scenario.shortCorridor) 0 Scenario.shortCorridor /\
  insideCorridor Scenario.shortCorridor
    (position (Basic.run Scenario.flat [ Scenario.playerInSight ]
                 (spawnJumper 0 Scenario.shortCorridor))) /\
  besideCorridor Scenario.shortCorridor
    (vec3 (- (135 # 10)) (8 # 10) (- (14))).
Proof.
  assert (H : In (spawnJumper 0 Scenario.shortCorridor)
                (createJumpers (fun _ => 0) Scenario.twoCellGrid)).
  { vm_compute. left. reflexivity. }
  assert (C : catches (vec3 (- (135 # 10)) (8 # 10) (- (14)))
                (Basic.run Scenario.flat [ Scenario.playerInSight ]
                   (spawnJumper 0 Scenario.shortCorridor)) = true).
  { vm_compute. reflexivity. }
  assert (M : madeFor (fun _ => 0) Scenario.twoCellGrid
                (spawnJumper 0 Scenario.shortCorridor) 0
                Scenario.shortCorridor).
  { split; [vm_compute; reflexivity | reflexivity]. }
  destruct (hunt_agent_acts_along_corridor Scenario.flat (fun _ => 0)
              Scenario.twoCellGrid [ Scenario.playerInSight ] _ _ H
              (or_introl C)) as [_ Hall].
  split; [exact H |]. split; [exact C |]. split; [exact M |].
  exact (proj2 (Hall 0%nat Scenario.shortCorridor M)).
Defined.

(** ** One swing, one kill *)

Lemma knifeLoop_done (q : Vector3) (reversed : list Jumper) :
  knifeLoop q reversed 1 = (reversed, 1%nat).
Proof. destruct reversed; reflexivity. Qed.

Lemma knifeLoop_first (q : Vector3) (reversed : list Jumper) :
  (Forall (fun x => knifeHits q x = false) reversed /\
   knifeLoop q reversed 0 = (reversed, 0%nat)) \/
  exists (l1 : list Jumper) (j : Jumper) (l2 : list Jumper),
    reversed = l1 ++ j :: l2 /\
    Forall (fun x => knifeHits q x = false) l1 /\
    knifeHits q j = true /\
    knifeLoop q reversed 0 = (l1 ++ l2, 1%nat).
Proof.
  induction reversed as [| j rest IH].
  - left. split; [constructor | reflexivity].
  - cbn [knifeLoop]. change (0 <? maxHits)%nat with true. cbv iota.
    destruct (knifeHits q j) eqn:Hj.
    + right. exists [], j, rest.
      rewrite knifeLoop_done. repeat split; auto.
    + destruct IH as [[Hall ->] | (l1 & x & l2 & -> & Hall & Hx & ->)].
      * left. split; [constructor; assumption | reflexivity].
      * right. exists (j :: l1), x, l2.
        repeat split; auto.
Qed.

(** X19.  A knife swing removes the last agent of [jumpers] it can hit, and
    no other: the agents before and after it stay, in their order;
    when it can hit none, [jumpers] is unchanged. *)
Theorem knife_kills_last_in_range (q : Vector3) (jumpers : list Jumper) :
  (Forall (fun x => knifeHits q x = false) jumpers /\
   knifeAttack q jumpers = (jumpers, 0%nat)) \/
  exists (before : list Jumper) (j : Jumper) (after : list Jumper),
    jumpers = before ++ j :: after /\
    knifeHits q j = true /\
    Forall (fun x => knifeHits q x = false) after /\
    knifeAttack q jumpers = (before ++ after, 1%nat).
Proof.
  unfold knifeAttack.
  destruct (knifeLoop_first q (rev jumpers))
    as [[Hall ->] | (l1 & j & l2 & E & Hall & Hj & ->)].
  - left. rewrite rev_involutive. split; [| reflexivity].
    apply Forall_forall. intros x Hx. rewrite Forall_forall in Hall.
    apply Hall. apply in_rev in Hx. exact Hx.
  - right. exists (rev l2), j, (rev l1).
    assert (E' : jumpers = rev l2 ++ j :: rev l1).
    { rewrite <- (rev_involutive jumpers), E, rev_app_distr.
      cbn [rev]. rewrite <- app_assoc. reflexivity. }
    split; [exact E' |]. split; [exact Hj |]. split.
    + apply Forall_forall. intros x Hx. rewrite Forall_forall in Hall.
      apply Hall. apply in_rev. exact Hx.
    + rewrite rev_app_distr. reflexivity.
Qed.

(** ** Bullets *)

Import Bullets.

Lemma hitScan_first (bullet : Vector3) (reversed others : list Jumper) :
  hitScan bullet reversed = Some others ->
  exists (l1 : list Jumper) (j : Jumper) (l2 : list Jumper),
    reversed = l1 ++ j :: l2 /\ bulletHits bullet j = true /\
    others = l1 ++ l2.
Proof.
  revert others.
  induction reversed as [| j rest IH]; intros others H; cbn [hitScan] in H;
    [discriminate H |].
  destruct (bulletHits bullet j) eqn:Hj.
  - injection H as <-. exists [], j, rest. auto.
  - destruct (hitScan bullet rest) as [found |]; [| discriminate H].
    injection H as <-.
    destruct (IH found eq_refl) as (l1 & x & l2 & -> & Hx & ->).
    exists (j :: l1), x, l2. auto.
Qed.

Lemma hitScan_none (bullet : Vector3) (reversed : list Jumper) :
  hitScan bullet reversed = None ->
  Forall (fun j => bulletHits bullet j = false) reversed.
Proof.
  induction reversed as [| j rest IH]; intro H; cbn [hitScan] in H;
    [constructor |].
  destruct (bulletHits bullet j) eqn:Hj; [discriminate H |].
  destruct (hitScan bullet rest); [discriminate H |].
  constructor; auto.
Qed.

(** One bullet of the loop: it flies on, a frame older, clear of the
    walls and of every agent, all agents left; or it is removed, with
    at most one agent, which it could hit. *)
Lemma stepBullet_cases (playerRadius : Q) (maze : Maze) (bullet : Bullet)
    (jumpers : list Jumper) (flying : option Bullet) (jumpers' : list Jumper) :
  stepBullet playerRadius maze bullet jumpers = Some (flying, jumpers') ->
  (flying = Some (advance bullet) /\ jumpers' = jumpers /\
   isWallAt playerRadius maze (bulletPosition (advance bullet)) = Some false /\
   (lifetime (advance bullet) <= 200)%Z /\
   Forall (fun j => bulletHits (bulletPosition (advance bullet)) j = false)
     jumpers) \/
  (flying = None /\ jumpers' = jumpers) \/
  (flying = None /\
   isWallAt playerRadius maze (bulletPosition (advance bullet)) = Some false /\
   exists (before : list Jumper) (j : Jumper) (after : list Jumper),
     jumpers = before ++ j :: after /\
     bulletHits (bulletPosition (advance bullet)) j = true /\
     jumpers' = before ++ after).
Proof.
  unfold stepBullet. fold (advance bullet).
  destruct (isWallAt playerRadius maze (bulletPosition (advance bullet)))
    as [[|] |] eqn:Hwall; [| | discriminate].
  - cbn [orb]. intro H. injection H as <- <-. right. left. auto.
  - cbn [orb].
    destruct (200 <? lifetime (advance bullet))%Z eqn:Hold.
    + intro H. injection H as <- <-. right. left. auto.
    + apply Z.ltb_ge in Hold.
      destruct (hitScan (bulletPosition (advance bullet)) (rev jumpers))
        as [others |] eqn:Hscan; intro H; injection H as <- <-.
      * right. right. split; [reflexivity |]. split; [reflexivity |].
        destruct (hitScan_first _ _ _ Hscan) as (l1 & j & l2 & E & Hj & ->).
        exists (rev l2), j, (rev l1). split; [| split; [exact Hj |]].
        -- rewrite <- (rev_involutive jumpers), E, rev_app_distr.
           cbn [rev]. rewrite <- app_assoc. reflexivity.
        -- apply rev_app_distr.
      * left. repeat split; auto.
        apply hitScan_none in Hscan.
        apply Forall_forall. intros x Hx. rewrite Forall_forall in Hscan.
        apply Hscan. apply in_rev in Hx. exact Hx.
Qed.

Lemma bulletLoop_spec (playerRadius : Q) (maze : Maze) (reversed : list Bullet) :
  forall (jumpers : list Jumper) (kept : list Bullet) (jumpers' : list Jumper),
    bulletLoop playerRadius maze reversed jumpers = Some (kept, jumpers') ->
    (forall b', In b' kept ->
       exists b, In b reversed /\ b' = advance b /\
                 (lifetime b' <= 200)%Z /\
                 isWallAt playerRadius maze (bulletPosition b') = Some false) /\
    incl jumpers' jumpers /\
    (length jumpers + length kept <= length jumpers' + length reversed)%nat.
Proof.
  induction reversed as [| bullet rest IH]; intros jumpers kept jumpers' H;
    cbn [bulletLoop] in H.
  - injection H as <- <-. split; [intros b' [] |].
    split; [apply incl_refl | lia].
  - destruct (stepBullet playerRadius maze bullet jumpers)
      as [[flying jumpers1] |] eqn:Hstep; [| discriminate H].
    destruct (bulletLoop playerRadius maze rest jumpers1)
      as [[kept1 jumpers2] |] eqn:Hloop; [| discriminate H].
    injection H as <- <-.
    destruct (IH jumpers1 kept1 jumpers2 Hloop) as (Hkept & Hincl & Hlen).
    assert (Hrest : forall b', In b' kept1 ->
              exists b, In b (bullet :: rest) /\ b' = advance b /\
                        (lifetime b' <= 200)%Z /\
                        isWallAt playerRadius maze (bulletPosition b') =
                          Some false).
    { intros b' Hb'. destruct (Hkept b' Hb') as (b & Hb & Hrest).
      exists b. split; [right; exact Hb | exact Hrest]. }
    destruct (stepBullet_cases _ _ _ _ _ _ Hstep)
      as [(-> & -> & Hwall & Hage & _)
         | [(-> & ->)
           | (-> & _ & before & j & after & -> & _ & ->)]].
    + split; [| split; [exact Hincl | cbn [length]; lia]].
      intros b' [<- | Hb']; [| apply Hrest, Hb'].
      exists bullet. split; [left; reflexivity | auto].
    + split; [exact Hrest |]. split; [exact Hincl | cbn [length]; lia].
    + split; [exact Hrest |]. split.
      * intros x Hx. apply Hincl in Hx. apply in_app_iff in Hx.
        apply in_app_iff. destruct Hx as [Hx | Hx]; [left | right; right];
          exact Hx.
      * rewrite length_app in *. cbn [length]. lia.
Qed.

(** X20.  A call of [updateBullets] that returns: every bullet left is one
    of the bullets before, a frame on, at most 200 frames old and clear
    of the walls; no agent appears; and each agent removed costs a
    bullet. *)
Theorem updateBullets_spends_a_bullet_per_kill (playerRadius : Q)
    (maze : Maze) (bullets bullets' : list Bullet)
    (jumpers jumpers' : list Jumper) :
  updateBullets playerRadius maze bullets jumpers = Some (bullets', jumpers') ->
  (forall b', In b' bullets' ->
     exists b, In b bullets /\ b' = advance b /\
               (lifetime b' <= 200)%Z /\
               isWallAt playerRadius maze (bulletPosition b') = Some false) /\
  incl jumpers' jumpers /\
  (length jumpers - length jumpers' <= length bullets - length bullets')%nat /\
  (length bullets' <= length bullets)%nat /\
  (length jumpers' <= length jumpers)%nat.
Proof.
  unfold updateBullets. intro H.
  destruct (bulletLoop playerRadius maze (rev bullets) jumpers)
    as [[kept js] |] eqn:Hloop; [| discriminate H].
  injection H as <- <-.
  destruct (bulletLoop_spec _ _ _ _ _ _ Hloop) as (Hkept & Hincl & Hlen).
  rewrite length_rev in Hlen.
  assert (Hfew : (length kept <= length bullets)%nat /\
                 (length js <= length jumpers)%nat).
  { clear - Hloop. rewrite <- (length_rev bullets).
    revert jumpers kept js Hloop.
    induction (rev bullets) as [| b rest IH]; intros jumpers kept js H;
      cbn [bulletLoop] in H.
    - injection H as <- <-. cbn [length]. lia.
    - destruct (stepBullet playerRadius maze b jumpers)
        as [[flying jumpers1] |] eqn:Hstep; [| discriminate H].
      destruct (bulletLoop playerRadius maze rest jumpers1)
        as [[kept1 jumpers2] |] eqn:Hl; [| discriminate H].
      injection H as <- <-.
      destruct (IH _ _ _ Hl) as [A B].
      destruct (stepBullet_cases _ _ _ _ _ _ Hstep)
        as [(-> & -> & _)
           | [(-> & ->)
             | (-> & _ & before & j & after & -> & _ & ->)]];
        cbn [length]; rewrite ?length_app in *; cbn [length] in *; lia. }
  split.
  - intros b' Hb'. apply in_rev in Hb'.
    destruct (Hkept b' Hb') as (b & Hb & Hrest).
    exists b. split; [apply in_rev; exact Hb | exact Hrest].
  - split; [exact Hincl |]. rewrite length_rev. lia.
Qed.

(** [updateBullets_spends_a_bullet_per_kill] on the grid without
    walls: a bullet flying into the patroller at x = -9. *)
Lemma updateBullets_spends_a_bullet_per_kill_witness :
  updateBullets (25 # 100) Scenario.openGrid
    [ mkBullet (vec3 (- (10)) (8 # 10) (- (12))) (vec3 (1 # 2) 0 0) 0 ]
    [ Scenario.knifeTarget ] = Some ([], []) /\
  (length [ Scenario.knifeTarget ] - length (@nil Jumper) <=
   length [ mkBullet (vec3 (- (10)) (8 # 10) (- (12))) (vec3 (1 # 2) 0 0) 0 ] -
   length (@nil Bullet))%nat.
Proof.
  assert (H : updateBullets (25 # 100) Scenario.openGrid
                [ mkBullet (vec3 (- (10)) (8 # 10) (- (12)))
                    (vec3 (1 # 2) 0 0) 0 ]
                [ Scenario.knifeTarget ] = Some ([], [])).
  { vm_compute. reflexivity. }
  split; [exact H |].
  destruct (updateBullets_spends_a_bullet_per_kill _ _ _ _ _ _ H)
    as (_ & _ & Hlen & _).
  exact Hlen.
Defined.

(** ** Combat legality: the knife loop and the bullets *)

Import Legality.

Lemma knifeLegal_spec (q : Vector3) (j : Jumper) :
  knifeHits q j = true <-> knifeLegal q j.
Proof. apply knifeHits_spec. Qed.

Lemma bulletLegal_spec (q : Vector3) (j : Jumper) :
  bulletHits q j = true <-> bulletLegal q j.
Proof. apply bulletHits_spec. Qed.

Lemma misses_illegal (hits : Jumper -> bool) (legal : Jumper -> Prop)
    (l : list Jumper) :
  (forall x, hits x = true <-> legal x) ->
  Forall (fun x => hits x = false) l ->
  forall x, In x l -> ~ legal x.
Proof.
  intros Hspec Hall x Hx Hlegal. rewrite Forall_forall in Hall.
  apply Hspec in Hlegal. rewrite (Hall x Hx) in Hlegal. discriminate Hlegal.
Qed.

(** The knife loop of [shoot]: the swing removes the last agent of
    [jumpers] it may hit, or none if it may hit none. *)
Lemma knifeAttack_legal (q : Vector3) (jumpers : list Jumper) :
  ((forall x, In x jumpers -> ~ knifeLegal q x) /\
   knifeAttack q jumpers = (jumpers, 0%nat)) \/
  (exists (before : list Jumper) (x : Jumper) (after : list Jumper),
     jumpers = before ++ x :: after /\
     knifeLegal q x /\
     (forall y, In y after -> ~ knifeLegal q y) /\
     knifeAttack q jumpers = (before ++ after, 1%nat)).
Proof.
  unfold knifeAttack.
  destruct (knifeLoop_first q (rev jumpers))
    as [[Hall ->] | (l1 & x & l2 & E & Hall & Hx & ->)].
  - left. rewrite rev_involutive. split; [| reflexivity].
    intros x Hx. apply in_rev in Hx.
    exact (misses_illegal _ _ _ (knifeLegal_spec q) Hall x Hx).
  - right. exists (rev l2), x, (rev l1).
    split.
    { rewrite <- (rev_involutive jumpers), E, rev_app_distr.
      cbn [rev]. rewrite <- app_assoc. reflexivity. }
    split; [apply knifeLegal_spec, Hx |]. split.
    + intros y Hy. apply in_rev in Hy.
      exact (misses_illegal _ _ _ (knifeLegal_spec q) Hall y Hy).
    + rewrite rev_app_distr. reflexivity.
Qed.

Lemma hitScan_split (bullet : Vector3) (reversed others : list Jumper) :
  hitScan bullet reversed = Some others ->
  exists (l1 : list Jumper) (x : Jumper) (l2 : list Jumper),
    reversed = l1 ++ x :: l2 /\
    Forall (fun y => bulletHits bullet y = false) l1 /\
    bulletHits bullet x = true /\
    others = l1 ++ l2.
Proof.
  revert others.
  induction reversed as [| j rest IH]; intros others H; cbn [hitScan] in H;
    [discriminate H |].
  destruct (bulletHits bullet j) eqn:Hj.
  - injection H as <-. exists [], j, rest. repeat split; auto.
  - destruct (hitScan bullet rest) as [found |]; [| discriminate H].
    injection H as <-.
    destruct (IH found eq_refl) as (l1 & x & l2 & -> & Hall & Hx & ->).
    exists (j :: l1), x, l2. repeat split; auto.
Qed.

(** One bullet of [updateBullets], clear of the walls and not too old:
    it removes the last agent of [jumpers] it may hit from where it has
    moved to, and is removed with it; or it may hit none and flies
    on. *)
Lemma stepBullet_legal (playerRadius : Q) (maze : Maze) (bullet : Bullet)
    (jumpers : list Jumper) :
  isWallAt playerRadius maze (bulletPosition (advance bullet)) = Some false ->
  (lifetime (advance bullet) <= 200)%Z ->
  ((forall x, In x jumpers ->
              ~ bulletLegal (bulletPosition (advance bullet)) x) /\
   stepBullet playerRadius maze bullet jumpers =
     Some (Some (advance bullet), jumpers)) \/
  (exists (before : list Jumper) (x : Jumper) (after : list Jumper),
     jumpers = before ++ x :: after /\
     bulletLegal (bulletPosition (advance bullet)) x /\
     (forall y, In y after ->
                ~ bulletLegal (bulletPosition (advance bullet)) y) /\
     stepBullet playerRadius maze bullet jumpers =
       Some (None, before ++ after)).
Proof.
  intros Hwall Hage. unfold stepBullet. fold (advance bullet).
  rewrite Hwall. cbn [orb].
  apply Z.ltb_ge in Hage. rewrite Hage.
  destruct (hitScan (bulletPosition (advance bullet)) (rev jumpers))
    as [others |] eqn:Hscan.
  - right.
    destruct (hitScan_split _ _ _ Hscan) as (l1 & x & l2 & E & Hall & Hx & ->).
    exists (rev l2), x, (rev l1).
    split.
    { rewrite <- (rev_involutive jumpers), E, rev_app_distr.
      cbn [rev]. rewrite <- app_assoc. reflexivity. }
    split; [apply bulletLegal_spec, Hx |]. split.
    + intros y Hy. apply in_rev in Hy.
      exact (misses_illegal _ _ _ (bulletLegal_spec _) Hall y Hy).
    + rewrite rev_app_distr. reflexivity.
  - left. split; [| reflexivity].
    apply hitScan_none in Hscan.
    intros x Hx. apply in_rev in Hx.
    exact (misses_illegal _ _ _ (bulletLegal_spec _) Hscan x Hx).
Qed.

Lemma bulletLoop_legal (playerRadius : Q) (maze : Maze)
    (reversed : list Bullet) :
  forall (jumpers : list Jumper) (kept : list Bullet) (jumpers' : list Jumper),
    bulletLoop playerRadius maze reversed jumpers = Some (kept, jumpers') ->
    forall x, In x jumpers -> ~ In x jumpers' ->
      exists b, In b reversed /\
                isWallAt playerRadius maze (bulletPosition (advance b)) =
                  Some false /\
                bulletLegal (bulletPosition (advance b)) x.
Proof.
  induction reversed as [| bullet rest IH]; intros jumpers kept jumpers' H x
    Hx Hgone; cbn [bulletLoop] in H.
  - injection H as _ <-. contradiction.
  - destruct (stepBullet playerRadius maze bullet jumpers)
      as [[flying jumpers1] |] eqn:Hstep; [| discriminate H].
    destruct (bulletLoop playerRadius maze rest jumpers1)
      as [[kept1 jumpers2] |] eqn:Hloop; [| discriminate H].
    injection H as _ <-.
    assert (Hrest : In x jumpers1 ->
              exists b, In b (bullet :: rest) /\
                        isWallAt playerRadius maze
                          (bulletPosition (advance b)) = Some false /\
                        bulletLegal (bulletPosition (advance b)) x).
    { intro Hx1. destruct (IH _ _ _ Hloop x Hx1 Hgone) as (b & Hb & Hlegal).
      exists b. split; [right; exact Hb | exact Hlegal]. }
    destruct (stepBullet_cases _ _ _ _ _ _ Hstep)
      as [(_ & -> & _)
         | [(_ & ->)
           | (_ & Hwall & before & y & after & -> & Hy & ->)]];
      [apply Hrest, Hx | apply Hrest, Hx |].
    apply in_app_iff in Hx. destruct Hx as [Hx | [<- | Hx]].
    + apply Hrest, in_app_iff. left. exact Hx.
    + exists bullet. split; [left; reflexivity |].
      split; [exact Hwall | apply bulletLegal_spec, Hy].
    + apply Hrest, in_app_iff. right. exact Hx.
Qed.

(** C5.  Combat legality is one lane predicate, shared by the knife and
    the bullets.  The hit tests are the predicate of the specification:
    [q] within 0.8 of the agent's fixed coordinate and, along the
    patrol axis, within the lane's span widened by 0.5, and closer to
    the agent than the weapon's radius, 2.8 for the knife and 0.7 for
    a bullet.  And the loops hit by it, and only by it: a knife swing
    of [shoot] removes the last agent of [jumpers] that it may hit, and
    none when it may hit none; a bullet of [updateBullets] that has
    moved clear of the walls, at most 200 frames old, removes the last
    agent it may hit and goes with it, and flies on when it may hit
    none; every agent a call of [updateBullets] removes was hit
    legally by one of its bullets.  So a knife swing in lane at
    distance 2.79 registers a hit and removes the agent; at 2.81 in
    lane, or out of lane at distance 1, it registers none and leaves
    the agent. *)
Theorem combat_legality (q : Vector3) (j : Jumper) :
  (knifeHits q j = true <->
   withinLane (8 # 10) (1 # 2) q j /\
   distanceSq q (position j) < (28 # 10) * (28 # 10)) /\
  (bulletHits q j = true <->
   withinLane (8 # 10) (1 # 2) q j /\
   distanceSq q (position j) < (7 # 10) * (7 # 10)) /\
  (forall jumpers : list Jumper,
     ((forall x, In x jumpers -> ~ knifeLegal q x) /\
      knifeAttack q jumpers = (jumpers, 0%nat)) \/
     (exists (before : list Jumper) (x : Jumper) (after : list Jumper),
        jumpers = before ++ x :: after /\
        knifeLegal q x /\
        (forall y, In y after -> ~ knifeLegal q y) /\
        knifeAttack q jumpers = (before ++ after, 1%nat))) /\
  (forall (playerRadius : Q) (maze : Maze) (bullet : Bullet)
          (jumpers : list Jumper),
     isWallAt playerRadius maze (bulletPosition (advance bullet)) =
       Some false ->
     (lifetime (advance bullet) <= 200)%Z ->
     ((forall x, In x jumpers ->
                 ~ bulletLegal (bulletPosition (advance bullet)) x) /\
      stepBullet playerRadius maze bullet jumpers =
        Some (Some (advance bullet), jumpers)) \/
     (exists (before : list Jumper) (x : Jumper) (after : list Jumper),
        jumpers = before ++ x :: after /\
        bulletLegal (bulletPosition (advance bullet)) x /\
        (forall y, In y after ->
                   ~ bulletLegal (bulletPosition (advance bullet)) y) /\
        stepBullet playerRadius maze bullet jumpers =
          Some (None, before ++ after))) /\
  (forall (playerRadius : Q) (maze : Maze) (bullets bullets' : list Bullet)
          (jumpers jumpers' : list Jumper),
     updateBullets playerRadius maze bullets jumpers =
       Some (bullets', jumpers') ->
     forall x, In x jumpers -> ~ In x jumpers' ->
       exists b, In b bullets /\
                 isWallAt playerRadius maze (bulletPosition (advance b)) =
                   Some false /\
                 bulletLegal (bulletPosition (advance b)) x) /\
  (forall jumpers : list Jumper,
     In j jumpers ->
     withinLane (8 # 10) (1 # 2) q j ->
     distanceSq q (position j) == (279 # 100) * (279 # 100) ->
     snd (knifeAttack q jumpers) = 1%nat) /\
  (withinLane (8 # 10) (1 # 2) q j ->
   distanceSq q (position j) == (279 # 100) * (279 # 100) ->
   knifeAttack q [ j ] = ([], 1%nat)) /\
  (withinLane (8 # 10) (1 # 2) q j ->
   distanceSq q (position j) == (281 # 100) * (281 # 100) ->
   knifeAttack q [ j ] = ([ j ], 0%nat)) /\
  (~ withinLane (8 # 10) (1 # 2) q j ->
   distanceSq q (position j) == 1 ->
   knifeAttack q [ j ] = ([ j ], 0%nat)).
Proof.
  assert (Hnear : withinLane (8 # 10) (1 # 2) q j ->
                  distanceSq q (position j) == (279 # 100) * (279 # 100) ->
                  knifeHits q j = true).
  { intros Hlane Hdist. apply knifeHits_spec. split; [exact Hlane |].
    rewrite Hdist. reflexivity. }
  split; [apply knifeHits_spec |].
  split; [apply bulletHits_spec |].
  split; [apply knifeAttack_legal |].
  split; [apply stepBullet_legal |].
  split.
  { intros playerRadius maze bullets bullets' jumpers jumpers' H x Hx Hgone.
    unfold updateBullets in H.
    destruct (bulletLoop playerRadius maze (rev bullets) jumpers)
      as [[kept js] |] eqn:Hloop; [| discriminate H].
    injection H as _ <-.
    destruct (bulletLoop_legal _ _ _ _ _ _ Hloop x Hx Hgone)
      as (b & Hb & Hlegal).
    exists b. split; [apply in_rev, Hb | exact Hlegal]. }
  split; [| split; [| split]].
  - intros jumpers Hin Hlane Hdist.
    destruct (knifeAttack_legal q jumpers)
      as [[Hnone _] | (before & x & after & _ & _ & _ & ->)];
      [| reflexivity].
    exfalso. apply (Hnone j Hin). apply knifeLegal_spec, Hnear; assumption.
  - intros Hlane Hdist.
    unfold knifeAttack. cbn. rewrite (Hnear Hlane Hdist). reflexivity.
  - intros Hlane Hdist.
    assert (Hmiss : knifeHits q j = false).
    { destruct (knifeHits q j) eqn:E; [| reflexivity].
      apply knifeHits_spec in E. destruct E as [_ E].
      rewrite Hdist in E. vm_compute in E. discriminate E. }
    unfold knifeAttack. cbn. rewrite Hmiss. reflexivity.
  - intros Hout Hdist.
    assert (Hmiss : knifeHits q j = false).
    { destruct (knifeHits q j) eqn:E; [| reflexivity].
      apply knifeHits_spec in E. tauto. }
    unfold knifeAttack. cbn. rewrite Hmiss. reflexivity.
Qed.

(** C5 at the three attackers of the patroller standing at x = -9, and
    at a bullet that flies into it on the grid without walls. *)
Lemma combat_legality_witness :
  knifeAttack Scenario.attackerAt279 [ Scenario.knifeTarget ] = ([], 1%nat) /\
  knifeAttack Scenario.attackerAt281 [ Scenario.knifeTarget ] =
    ([ Scenario.knifeTarget ], 0%nat) /\
  knifeAttack Scenario.attackerAcross [ Scenario.knifeTarget ] =
    ([ Scenario.knifeTarget ], 0%nat) /\
  stepBullet (25 # 100) Scenario.openGrid
    (mkBullet (vec3 (- (10)) (8 # 10) (- (12))) (vec3 (1 # 2) 0 0) 0)
    [ Scenario.knifeTarget ] = Some (None, []) /\
  exists b : Bullet,
    In b [ mkBullet (vec3 (- (10)) (8 # 10) (- (12))) (vec3 (1 # 2) 0 0) 0 ] /\
    isWallAt (25 # 100) Scenario.openGrid (bulletPosition (advance b)) =
      Some false /\
    bulletLegal (bulletPosition (advance b)) Scenario.knifeTarget.
Proof.
  split; [| split; [| split; [| split]]].
  - destruct (combat_legality Scenario.attackerAt279 Scenario.knifeTarget)
      as (_ & _ & _ & _ & _ & _ & H & _).
    apply H.
    + apply inLane_spec. vm_compute. reflexivity.
    + vm_compute. reflexivity.
  - destruct (combat_legality Scenario.attackerAt281 Scenario.knifeTarget)
      as (_ & _ & _ & _ & _ & _ & _ & H & _).
    apply H.
    + apply inLane_spec. vm_compute. reflexivity.
    + vm_compute. reflexivity.
  - destruct (combat_legality Scenario.attackerAcross Scenario.knifeTarget)
      as (_ & _ & _ & _ & _ & _ & _ & _ & H).
    apply H.
    + intro Hin. apply inLane_spec in Hin. vm_compute in Hin.
      discriminate Hin.
    + vm_compute. reflexivity.
  - destruct (combat_legality Scenario.attackerAt279 Scenario.knifeTarget)
      as (_ & _ & _ & H & _).
    destruct (H (25 # 100) Scenario.openGrid
                (mkBullet (vec3 (- (10)) (8 # 10) (- (12)))
                   (vec3 (1 # 2) 0 0) 0)
                [ Scenario.knifeTarget ])
      as [[Hnone _] | (before & x & after & E & _ & _ & ->)].
    + vm_compute. reflexivity.
    + vm_compute. discriminate.
    + exfalso. apply (Hnone Scenario.knifeTarget (or_introl eq_refl)).
      apply bulletLegal_spec. vm_compute. reflexivity.
    + destruct before as [| b0 [| b1 before]]; try discriminate E.
      injection E as _ <-. reflexivity.
  - destruct (combat_legality Scenario.attackerAt279 Scenario.knifeTarget)
      as (_ & _ & _ & _ & H & _).
    apply (H (25 # 100) Scenario.openGrid
             [ mkBullet (vec3 (- (10)) (8 # 10) (- (12))) (vec3 (1 # 2) 0 0) 0 ]
             [] [ Scenario.knifeTarget ] []).
    + vm_compute. reflexivity.
    + left. reflexivity.
    + intros [].
Defined.

(** ** The pistol and its rounds *)

Import Arsenal ArsenalFacts.

Lemma step_sound (w : Weapons) (e : Event) :
  sound w ->
  sound (fst (step w e)) /\
  (Z.of_nat (snd (step w e)) + rounds (fst (step w e)) = rounds w)%Z.
Proof.
  intros [Hammo Hknife]. unfold sound, rounds.
  assert (Hp : currentWeapon w = pistol -> pistolPickup w = false).
  { intro Hw. destruct (pistolPickup w); [| reflexivity].
    rewrite (Hknife eq_refl) in Hw. discriminate Hw. }
  destruct e as [now isSwinging | | player pickupY]; cbn [step].
  - unfold shoot. destruct (currentWeapon w) eqn:Hw.
    + destruct (now - lastShotTime w <? KNIFE_COOLDOWN)%Z;
        [| destruct isSwinging];
        cbn [fst snd currentWeapon ammoCount pistolPickup Z.of_nat];
        rewrite ?Hw; repeat split; auto; lia.
    + rewrite (Hp eq_refl) in *.
      destruct (now - lastShotTime w <? SHOOT_COOLDOWN)%Z;
        [| destruct (ammoCount w <=? 0)%Z eqn:Hempty];
        cbn [fst snd currentWeapon ammoCount pistolPickup Z.of_nat];
        rewrite ?Hw, ?(Hp eq_refl); try apply Z.leb_gt in Hempty;
        repeat split; try discriminate; lia.
  - unfold switchWeapon. destruct (currentWeapon w) eqn:Hw.
    + destruct (pistolPickup w) eqn:Hpick; cbn [negb fst snd Z.of_nat];
        [rewrite Hpick, ?Hw; repeat split; auto; lia |].
      destruct (ammoCount w >? 0)%Z;
        cbn [currentWeapon ammoCount pistolPickup]; rewrite ?Hpick, ?Hw;
        repeat split; try discriminate; lia.
    + cbn [fst snd currentWeapon ammoCount pistolPickup Z.of_nat].
      repeat split; auto; lia.
  - unfold pickUp. destruct (currentWeapon w) eqn:Hw;
      cbn [fst snd Z.of_nat]; [| rewrite Hw; repeat split; auto; lia].
    destruct (pistolPickup w) eqn:Hpick; cbn [andb];
      [| rewrite Hpick, ?Hw; repeat split; try discriminate; lia].
    destruct (closerThan player _ 2);
      cbn [currentWeapon ammoCount pistolPickup]; rewrite ?Hpick, ?Hw;
      repeat split; try discriminate; auto; lia.
Qed.

Lemma play_sound (events : list Event) :
  forall w : Weapons,
    sound w ->
    sound (fst (play w events)) /\
    (Z.of_nat (snd (play w events)) + rounds (fst (play w events)) =
     rounds w)%Z.
Proof.
  induction events as [| e rest IH]; intros w Hw; cbn [play].
  - cbn [fst snd Z.of_nat]. split; [exact Hw | reflexivity].
  - destruct (step_sound w e Hw) as [H1 E1].
    destruct (step w e) as [w1 n1]. cbn [fst snd] in *.
    destruct (IH w1 H1) as [H2 E2].
    destruct (play w1 rest) as [w2 n2]. cbn [fst snd] in *.
    split; [exact H2 | lia].
Qed.

(** X21.  The rounds are conserved.  In a game, from [init] or from a
    restart, whatever the keys, the clicks and the player's way: the
    bullets pushed and the rounds still to be had make 30; so at most
    30 bullets are ever pushed, [ammoCount] stays between 0 and 30, and
    the pistol is in hand only when the pickup is gone. *)
Theorem pistol_rounds_are_conserved (start : Weapons) (events : list Event) :
  start = initial \/ (exists w : Weapons, start = restartGame w) ->
  (Z.of_nat (snd (play start events)) + rounds (fst (play start events)) = 30)%Z /\
  (snd (play start events) <= 30)%nat /\
  (0 <= ammoCount (fst (play start events)) <= 30)%Z /\
  (currentWeapon (fst (play start events)) = pistol ->
   pistolPickup (fst (play start events)) = false).
Proof.
  intro Hstart.
  assert (H : sound start /\ rounds start = 30%Z).
  { destruct Hstart as [-> | [w ->]]; unfold sound, rounds;
      cbn [initial restartGame ammoCount pistolPickup currentWeapon];
      (split; [split; [lia | auto; discriminate] | reflexivity]). }
  destruct H as [Hsound Hrounds].
  destruct (play_sound events start Hsound) as [[Hammo Hknife] E].
  rewrite Hrounds in E.
  split; [exact E |]. split; [| split; [exact Hammo |]].
  - assert (0 <= rounds (fst (play start events)))%Z; [| lia].
    unfold rounds. destruct (pistolPickup _); lia.
  - intro Hp. destruct (pistolPickup _); [| reflexivity].
    rewrite (Hknife eq_refl) in Hp. discriminate Hp.
Qed.

(** [pistol_rounds_are_conserved] in a first game: the pistol picked
    up, two clicks a second apart, one too soon after. *)
Lemma pistol_rounds_are_conserved_witness :
  snd (play initial
         [ PlayerFrame pistolPosition (1 # 2); Shoot 1000 false;
           Shoot 1100 false; Shoot 2000 false ]) = 2%nat /\
  (snd (play initial
          [ PlayerFrame pistolPosition (1 # 2); Shoot 1000 false;
            Shoot 1100 false; Shoot 2000 false ]) <= 30)%nat.
Proof.
  split; [vm_compute; reflexivity |].
  destruct (pistol_rounds_are_conserved initial
              [ PlayerFrame pistolPosition (1 # 2); Shoot 1000 false;
                Shoot 1100 false; Shoot 2000 false ]
              (or_introl eq_refl)) as (_ & H & _).
  exact H.
Defined.

Lemma step_unarmed (w : Weapons) (e : Event) :
  awayFromPickup e ->
  currentWeapon w = knife -> pistolPickup w = true ->
  currentWeapon (fst (step w e)) = knife /\
  pistolPickup (fst (step w e)) = true /\
  snd (step w e) = 0%nat.
Proof.
  intros Haway Hw Hp.
  destruct e as [now isSwinging | | player pickupY]; cbn [step].
  - unfold shoot. rewrite Hw.
    destruct (now - lastShotTime w <? KNIFE_COOLDOWN)%Z;
      [| destruct isSwinging];
      cbn [fst snd currentWeapon pistolPickup]; auto.
  - unfold switchWeapon. rewrite Hw, Hp. cbn [negb fst snd]. auto.
  - unfold pickUp. cbn [awayFromPickup] in Haway.
    rewrite Hw, Hp, Haway. cbn [andb fst snd]. auto.
Qed.

(** X22.  The pickup is needed in the first game only.  From [init], as long
    as the player keeps 2.0 or more away from the pickup, no key and no
    click gives the pistol or pushes a bullet.  After [restartGame],
    which removes the pickup and makes no new one, the Q key alone
    gives the pistol, with 30 rounds. *)
Theorem pistol_needs_pickup_until_restart (events : list Event) (w : Weapons) :
  Forall awayFromPickup events ->
  (currentWeapon (fst (play initial events)) = knife /\
   pistolPickup (fst (play initial events)) = true /\
   snd (play initial events) = 0%nat) /\
  (currentWeapon (switchWeapon (restartGame w)) = pistol /\
   ammoCount (switchWeapon (restartGame w)) = 30%Z /\
   pistolPickup (switchWeapon (restartGame w)) = false).
Proof.
  intro Haway. split; [| repeat split].
  assert (H : forall s : Weapons,
             currentWeapon s = knife -> pistolPickup s = true ->
             currentWeapon (fst (play s events)) = knife /\
             pistolPickup (fst (play s events)) = true /\
             snd (play s events) = 0%nat).
  { induction Haway as [| e rest He Hrest IH]; intros s Hs Hp; cbn [play].
    - cbn [fst snd]. auto.
    - destruct (step_unarmed s e He Hs Hp) as (A & B & C).
      destruct (step s e) as [s1 n1]. cbn [fst snd] in *.
      destruct (IH s1 A B) as (A' & B' & C').
      destruct (play s1 rest) as [s2 n2]. cbn [fst snd] in *.
      subst. auto. }
  apply H; reflexivity.
Qed.

(** [pistol_needs_pickup_until_restart] with the player at the start
    of the maze, pressing Q and clicking. *)
Lemma pistol_needs_pickup_until_restart_witness :
  Forall awayFromPickup
    [ PlayerFrame playerStart (1 # 2); SwitchWeapon; Shoot 1000 false ] /\
  currentWeapon
    (fst (play initial
            [ PlayerFrame playerStart (1 # 2); SwitchWeapon;
              Shoot 1000 false ])) = knife.
Proof.
  assert (H : Forall awayFromPickup
                [ PlayerFrame playerStart (1 # 2); SwitchWeapon;
                  Shoot 1000 false ]).
  { repeat constructor. }
  split; [exact H |].
  destruct (pistol_needs_pickup_until_restart _ initial H) as ((A & _) & _).
  exact A.
Defined.

(** ** The door of Survival *)

Import Walk.

Lemma cell_bounds (x : Q) (g : Z) :
  Qfloor (x + halfSize) = g ->
  inject_Z g - 15 <= x /\ x < inject_Z g - 14.
Proof.
  intros <-.
  assert (Hh : halfSize == 15) by reflexivity.
  pose proof (Qfloor_le (x + halfSize)) as Hlo.
  pose proof (Qlt_floor (x + halfSize)) as Hhi.
  rewrite inject_Z_plus in Hhi. change (inject_Z 1) with 1 in Hhi.
  split; lra.
Qed.

(** X23.  The door of Survival, unlike the beam of Hunt, is within reach: in
    every maze the generator returns the exit corner cell (28, 28) is
    open, and a player at [PLAYER_HEIGHT] anywhere in that cell passes
    Survival's win test (distance to the exit below 2.0), while the
    test of Hunt (below 1.2) fails there even with no agent left. *)
Theorem survival_door_is_within_reach (random : nat -> Q) (m : Maze)
    (p : Vector3) :
  generateMaze random = Some m ->
  vy p == PLAYER_HEIGHT ->
  gridCoord p = (28, 28)%Z ->
  isOpen m (gridCoord p) = true /\
  doorReached p = true /\
  beamReached p [] = false.
Proof.
  intros Hgen Hy Hcell. rewrite Hcell.
  split.
  { apply (landmark_cells_open random m (28, 28)%Z Hgen).
    right. left. reflexivity. }
  unfold gridCoord in Hcell. injection Hcell as Hx Hz.
  apply cell_bounds in Hx, Hz.
  change (inject_Z 28) with 28 in Hx, Hz.
  assert (Hh : halfSize == 15) by reflexivity.
  unfold doorReached, beamReached, closerThan, distanceSq, exit,
    PLAYER_HEIGHT in *.
  cbn [vx vy vz].
  set (a := vx p - (halfSize - (15 # 10))).
  set (b := vz p - (halfSize - (15 # 10))).
  assert (Ha : - (1 # 2) <= a /\ a < 1 # 2) by (unfold a; lra).
  assert (Hb : - (1 # 2) <= b /\ b < 1 # 2) by (unfold b; lra).
  assert (Hc : vy p - 0 == 15 # 10) by lra.
  assert (Sc : (vy p - 0) * (vy p - 0) == 9 # 4)
    by (rewrite Hc; reflexivity).
  assert (Sa : 0 <= a * a /\ a * a <= 1 # 4) by (split; nra).
  assert (Sb : 0 <= b * b /\ b * b <= 1 # 4) by (split; nra).
  split.
  - apply Qltb_spec. lra.
  - apply andb_false_iff. left. apply Qltb_false. lra.
Qed.

(** [survival_door_is_within_reach] at the isolating oracle and the
    exit itself, at the player's height. *)
Lemma survival_door_is_within_reach_witness :
  exists m : Maze,
    generateMaze isolatingRandom = Some m /\
    doorReached (vec3 (vx exit) PLAYER_HEIGHT (vz exit)) = true /\
    beamReached (vec3 (vx exit) PLAYER_HEIGHT (vz exit)) [] = false.
Proof.
  eexists. split; [vm_compute; reflexivity |].
  eapply (survival_door_is_within_reach isolatingRandom);
    [vm_compute; reflexivity | reflexivity | vm_compute; reflexivity].
Defined.

(** ** The carved maze is a spanning tree *)

Import Perfect.

Lemma lattice_odd (c : Cell) :
  In c lattice ->
  exists i j : Z, (0 <= i < 14)%Z /\ (0 <= j < 14)%Z /\
                  c = (2 * i + 1, 2 * j + 1)%Z.
Proof.
  unfold lattice, odds. destruct c as [x y]. intro H.
  apply in_prod_iff in H. destruct H as [Hx Hy].
  apply in_map_iff in Hx, Hy.
  destruct Hx as (i & <- & Hi). destruct Hy as (j & <- & Hj).
  apply in_seq in Hi, Hj.
  exists (Z.of_nat i), (Z.of_nat j). repeat split; lia.
Qed.

Lemma isOpen_setCell (m : Maze) (x y : Z) (c : Cell) :
  wellShaped m -> outside x y = false ->
  isOpen (setCell m x y OPEN) c = isOpen m c || cellEqb c (x, y).
Proof.
  intros Hshape Hin.
  destruct (cellEqb c (x, y)) eqn:E.
  - apply cellEqb_spec in E. subst c. rewrite orb_true_r.
    apply setCell_opens; assumption.
  - rewrite orb_false_r.
    destruct (isOpen m c) eqn:Ho.
    + apply setCell_open_keeps, Ho.
    + destruct (isOpen (setCell m x y OPEN) c) eqn:Ho'; [| reflexivity].
      apply setCell_open_inv in Ho'. destruct Ho' as [Ho' | ->].
      * congruence.
      * assert (cellEqb (x, y) (x, y) = true) by (apply cellEqb_spec; reflexivity).
        congruence.
Qed.

Lemma filter_one_more {A : Type} (f g : A -> bool) (p : A) (l : list A) :
  NoDup l -> In p l ->
  f p = false -> g p = true ->
  (forall c, c <> p -> g c = f c) ->
  length (filter g l) = S (length (filter f l)).
Proof.
  intros Hnd Hin Hf Hg Hsame.
  induction l as [| a rest IH]; [destruct Hin |].
  inversion Hnd as [| ? ? Hnot Hrest]; subst.
  cbn [filter]. destruct Hin as [-> | Hin].
  - rewrite Hf, Hg. cbn [length]. f_equal.
    f_equal. apply filter_ext_in. intros c Hc. apply Hsame.
    intros ->. contradiction.
  - assert (Ha : a <> p) by (intros ->; contradiction).
    rewrite (Hsame a Ha). destruct (f a); cbn [length];
      rewrite (IH Hrest Hin); reflexivity.
Qed.

Lemma allCells_NoDup : NoDup allCells.
Proof.
  assert (E : nodup cell_eq_dec allCells = allCells)
    by (vm_compute; reflexivity).
  rewrite <- E. apply NoDup_nodup.
Qed.

Lemma allCells_In (x y : Z) : outside x y = false -> In (x, y) allCells.
Proof.
  intro H. apply outside_false_iff in H. unfold allCells, MAZE_SIZE in *.
  apply in_prod; apply in_map_iff.
  - exists (Z.to_nat x). split; [lia | apply in_seq; lia].
  - exists (Z.to_nat y). split; [lia | apply in_seq; lia].
Qed.

Lemma openCells_setCell (m : Maze) (x y : Z) :
  wellShaped m -> outside x y = false -> isOpen m (x, y) = false ->
  length (openCells (setCell m x y OPEN)) = S (length (openCells m)).
Proof.
  intros Hshape Hin Hclosed. unfold openCells.
  apply (filter_one_more _ _ (x, y)).
  - apply allCells_NoDup.
  - apply allCells_In, Hin.
  - exact Hclosed.
  - apply setCell_opens; assumption.
  - intros c Hc. rewrite (isOpen_setCell m x y c Hshape Hin).
    destruct (cellEqb c (x, y)) eqn:E; [| apply orb_false_r].
    apply cellEqb_spec in E. contradiction.
Qed.

Lemma carveTurn_bounded (random : nat -> Q) (s s' : Carve) :
  carveBounded s -> carveTurn random s = Continue s' -> carveBounded s'.
Proof.
  intros (Hnd & Hvis & Hcur & Hstack). unfold carveTurn.
  destruct (0 <? length (getNeighbors (visited s) (fst (current s))
                           (snd (current s))))%nat.
  - destruct (index _ _) as [[[[nx ny] wallX] wallY] |] eqn:Hidx;
      [| discriminate].
    intro E. injection E as <-.
    apply index_In in Hidx.
    destruct (current s) as [x y] eqn:Ecur. cbn [fst snd] in Hidx.
    apply getNeighbors_In in Hidx.
    destruct Hidx as (_ & _ & Hnew & Hnx & Hny & Hdir).
    apply has_false in Hnew.
    assert (Hlat : In (nx, ny) lattice).
    { unfold lattice in *. apply in_prod_iff in Hcur.
      destruct Hcur as [Hx Hy]. apply in_prod_iff.
      split; [apply (odds_step x) | apply (odds_step y)];
        try assumption; lia. }
    unfold carveBounded. cbn [visited current stack].
    split; [constructor; assumption |].
    split; [intros c [<- | Hc]; auto |]. split; [exact Hlat |].
    intros c [<- | Hc]; auto.
  - destruct (stack s) as [| top rest] eqn:Estack; [discriminate |].
    intro E. injection E as <-.
    unfold carveBounded. cbn [visited current stack].
    split; [exact Hnd |]. split; [exact Hvis |].
    split; [apply Hstack; left; reflexivity |].
    intros c Hc. apply Hstack. right. exact Hc.
Qed.

Lemma between_grows (visited : list Cell) (n c : Cell) :
  between visited c -> between (n :: visited) c.
Proof.
  intros [[A B] | [A B]]; [left | right]; split; right; assumption.
Qed.

Lemma carveTurn_tree (random : nat -> Q) (s s' : Carve) :
  carveInvariant s -> carveCovers s -> carveBounded s -> carveTree s ->
  carveTurn random s = Continue s' -> carveTree s'.
Proof.
  intros (Hshape & _) (_ & _ & _ & _ & Hcv & _)
         (Hnd & Hvis & Hcur & Hstack) (Hcount & Hopen).
  unfold carveTurn.
  destruct (0 <? length (getNeighbors (visited s) (fst (current s))
                           (snd (current s))))%nat.
  - destruct (index _ _) as [[[[nx ny] wallX] wallY] |] eqn:Hidx;
      [| discriminate].
    intro E. injection E as <-.
    apply index_In in Hidx.
    destruct (current s) as [x y] eqn:Ecur. cbn [fst snd] in Hidx.
    apply getNeighbors_In in Hidx.
    destruct Hidx as (Hadj1 & Hadj2 & Hnew & Hnx & Hny & Hdir).
    apply has_false in Hnew.
    assert (Hpar : forall a b, In (a, b) (visited s) ->
                               exists i' j', a = (2 * i' + 1)%Z /\
                                             b = (2 * j' + 1)%Z).
    { intros a b H. destruct (lattice_odd _ (Hvis _ H)) as (i' & j' & _ & _ & E).
      exists i', j'. split; congruence. }
    destruct (Hpar _ _ Hcv) as (i & j & Ex & Ey).
    unfold adjacent, MAZE_SIZE in *. cbn [fst snd] in *.
    assert (Hw_in : outside wallX wallY = false)
      by (apply outside_false_iff; unfold MAZE_SIZE; lia).
    assert (Hn_in : outside nx ny = false)
      by (apply outside_false_iff; unfold MAZE_SIZE; lia).
    assert (Hw_closed : isOpen (maze s) (wallX, wallY) = false).
    { destruct (isOpen (maze s) (wallX, wallY)) eqn:Ho; [| reflexivity].
      exfalso.
      destruct (Hopen _ Ho) as [Hv | [[Ha Hb] | [Ha Hb]]]; cbn [fst snd] in *.
      - destruct (Hpar _ _ Hv) as (i' & j' & Ei & Ej). lia.
      - destruct (Hpar _ _ Ha) as (i1 & j1 & E1 & E1').
        destruct (Hpar _ _ Hb) as (i2 & j2 & E2 & E2').
        apply Hnew.
        assert (Hy : ny = wallY) by lia.
        assert (Hx : (nx = wallX - 1 \/ nx = wallX + 1)%Z) by lia.
        rewrite Hy. destruct Hx as [-> | ->]; assumption.
      - destruct (Hpar _ _ Ha) as (i1 & j1 & E1 & E1').
        destruct (Hpar _ _ Hb) as (i2 & j2 & E2 & E2').
        apply Hnew.
        assert (Hx : nx = wallX) by lia.
        assert (Hy : (ny = wallY - 1 \/ ny = wallY + 1)%Z) by lia.
        rewrite Hx. destruct Hy as [-> | ->]; assumption. }
    assert (Hn_closed : isOpen (maze s) (nx, ny) = false).
    { destruct (isOpen (maze s) (nx, ny)) eqn:Ho; [| reflexivity].
      exfalso.
      destruct (Hopen _ Ho) as [Hv | [[Ha Hb] | [Ha Hb]]]; cbn [fst snd] in *.
      - exact (Hnew Hv).
      - destruct (Hpar _ _ Ha) as (i1 & j1 & E1 & E1'). lia.
      - destruct (Hpar _ _ Ha) as (i1 & j1 & E1 & E1'). lia. }
    unfold carveTree. cbn [maze visited]. split.
    + rewrite openCells_setCell;
        [| apply setCell_shape, Hshape | exact Hn_in |].
      * rewrite openCells_setCell; [| exact Hshape | exact Hw_in | exact Hw_closed].
        cbn [length]. unfold Cell in *. lia.
      * rewrite (isOpen_setCell _ _ _ _ Hshape Hw_in), Hn_closed.
        cbn [orb]. unfold cellEqb. cbn [fst snd].
        apply andb_false_iff.
        destruct (Z.eqb_spec nx wallX); [| left; reflexivity].
        destruct (Z.eqb_spec ny wallY); [| right; reflexivity]. lia.
    + intros c Hc. apply setCell_open_inv in Hc. destruct Hc as [Hc | ->].
      * apply setCell_open_inv in Hc. destruct Hc as [Hc | ->].
        -- destruct (Hopen c Hc) as [Hv | Hb];
             [left; right; exact Hv | right; apply between_grows, Hb].
        -- right. unfold between. cbn [fst snd].
           destruct Hdir as [[Hx Hy] | [Hy Hx]].
           ++ right.
              assert (Hwx : wallX = nx) by lia.
              assert (Hwy : ((wallY - 1 = y /\ wallY + 1 = ny) \/
                             (wallY - 1 = ny /\ wallY + 1 = y))%Z) by lia.
              rewrite Hwx.
              destruct Hwy as [[-> ->] | [-> ->]]; split;
                first [left; reflexivity | right; rewrite Hx; exact Hcv].
           ++ left.
              assert (Hwy : wallY = ny) by lia.
              assert (Hwx : ((wallX - 1 = x /\ wallX + 1 = nx) \/
                             (wallX - 1 = nx /\ wallX + 1 = x))%Z) by lia.
              rewrite Hwy.
              destruct Hwx as [[-> ->] | [-> ->]]; split;
                first [left; reflexivity | right; rewrite Hy; exact Hcv].
      * left. left. reflexivity.
  - destruct (stack s) as [| top rest] eqn:Estack; [discriminate |].
    intro E. injection E as <-.
    unfold carveTree. cbn [maze visited]. split; assumption.
Qed.

Lemma carveLoop_tree (random : nat -> Q) (fuel : nat) :
  forall s s' : Carve,
    carveInvariant s -> carveCovers s -> carveBounded s -> carveTree s ->
    carveLoop random fuel s = Some s' ->
    carveTree s' /\ carveBounded s'.
Proof.
  induction fuel as [| fuel IH]; intros s s' Hinv Hcov Hb Ht;
    cbn [carveLoop]; [discriminate |].
  destruct (carveTurn random s) as [s1 | s1 |] eqn:Hturn; [| | discriminate].
  - apply IH.
    + apply (carveTurn_invariant random s s1 Hinv Hturn).
    + apply (carveTurn_covers random s s1 Hinv Hcov Hturn).
    + apply (carveTurn_bounded random s s1 Hb Hturn).
    + apply (carveTurn_tree random s s1 Hinv Hcov Hb Ht Hturn).
  - intro E. injection E as <-.
    unfold carveTurn in Hturn.
    destruct (0 <? _)%nat.
    + destruct (index _ _) as [[[[? ?] ?] ?] |]; discriminate.
    + destruct (stack s); [| discriminate]. injection Hturn as <-. auto.
Qed.

Lemma carveStart_tree : carveTree carveStart.
Proof.
  split; [vm_compute; reflexivity |].
  intros c Hc. left. cbn [carveStart maze visited] in *.
  apply setCell_open_inv in Hc. destruct Hc as [Hc | ->];
    [| left; reflexivity].
  rewrite allWalls_closed in Hc. discriminate Hc.
Qed.

Lemma lattice_NoDup : NoDup lattice.
Proof.
  assert (E : nodup cell_eq_dec lattice = lattice)
    by (vm_compute; reflexivity).
  rewrite <- E. apply NoDup_nodup.
Qed.

(** X24.  The carving makes a perfect maze, whatever the oracle: the 196
    cells of the lattice are open, the carved maze has 391 open cells,
    and every open cell off the lattice is a passage between two
    lattice cells next to it.  So 195 passages join 196 cells, which
    are connected: a spanning tree of the lattice. *)
Theorem carved_maze_is_a_tree (random : nat -> Q) (s : Carve) :
  carveLoop random carveFuel carveStart = Some s ->
  (forall c : Cell, In c lattice -> isOpen (maze s) c = true) /\
  length lattice = 196%nat /\
  length (openCells (maze s)) = 391%nat /\
  (forall c : Cell,
     isOpen (maze s) c = true -> In c lattice \/ between lattice c).
Proof.
  intro Hs.
  destruct (carveLoop_tree random carveFuel carveStart s
              carveStart_invariant carveStart_covers carveStart_bounded
              carveStart_tree Hs)
    as ((Hcount & Hopen) & Hnd & Hvis & _).
  destruct (carveLoop_covers random carveFuel carveStart s
              carveStart_invariant carveStart_covers Hs)
    as ((_ & _ & _ & Hone & _ & _ & Hvo & _) & Hclosed).
  pose proof (closed_holds_lattice (visited s) Hone Hclosed) as Hlat.
  assert (Hlen : length (visited s) = 196%nat).
  { pose proof (NoDup_incl_length Hnd Hvis) as H1.
    pose proof (NoDup_incl_length lattice_NoDup Hlat) as H2.
    change (length lattice) with 196%nat in *. unfold Cell in *. lia. }
  split; [intros c Hc; apply Hvo, Hlat, Hc |].
  split; [reflexivity |].
  split; [unfold Cell in *; lia |].
  intros c Hc. destruct (Hopen c Hc) as [Hv | [[A B] | [A B]]].
  - left. apply Hvis, Hv.
  - right. left. split; apply Hvis; assumption.
  - right. right. split; apply Hvis; assumption.
Qed.

(** [carved_maze_is_a_tree] at the isolating oracle. *)
Lemma carved_maze_is_a_tree_witness :
  exists s : Carve,
    carveLoop isolatingRandom carveFuel carveStart = Some s /\
    length (openCells (maze s)) = 391%nat.
Proof.
  eexists. split; [vm_compute; reflexivity |].
  eapply (carved_maze_is_a_tree isolatingRandom).
  vm_compute; reflexivity.
Defined.

(** ** Survival agents keep out of the walls *)

Lemma move_onPatrol (jumpHeightAt : Q -> Q) (player : Vector3)
    (c : Corridor) (j : Jumper) :
  (cstart c < cend c)%Z ->
  onPatrol c j -> onPatrol c (Basic.moveJumper jumpHeightAt player j).
Proof.
  intros Hc (Hlane & Haxis & Hfixed & Hmin & Hmax & _).
  apply toWorld_lt in Hc.
  unfold onPatrol, Basic.moveJumper.
  cbn [laneInfo patrolAxis patrolMin patrolMax position].
  split; [exact Hlane |]. split; [exact Haxis |]. split; [exact Hfixed |].
  split; [exact Hmin |]. split; [exact Hmax |].
  unfold alignToLane. rewrite Hlane, Haxis, Hmin, Hmax, Hfixed.
  destruct (corridorAxis c);
    cbn [clampToPatrol across along vx vz];
    (split; [reflexivity | apply clamp_in_corridor, Hc]).
Qed.

Lemma onPatrol_free (maze : Maze) (c : Corridor) (j : Jumper) :
  isMaximalRun maze c -> onPatrol c j ->
  inWallCell maze (position j) = false.
Proof.
  intros (_ & Hfixed & Hfirst & _ & Hlast & Hopen & _) Hj.
  apply onPatrol_inside in Hj.
  unfold insideCorridor in Hj. unfold inWallCell, cellAt in *.
  destruct (gridCoord (position j)) as [gx gz]. cbn [fst snd] in *.
  assert (Hcell : outside gx gz = false /\ isOpen maze (gx, gz) = true).
  { destruct (ctype c); destruct Hj as [E Hrange]; rewrite E;
      (split; [apply outside_false_iff; unfold MAZE_SIZE in *; lia
              | apply Hopen, Hrange]). }
  destruct Hcell as [-> Ho]. rewrite (isOpen_not_wall _ _ _ Ho). reflexivity.
Qed.

Lemma survival_updateState_fields (player : Vector3) (j : Jumper) :
  laneInfo (ModeSelect.updateState player survival j) = laneInfo j /\
  patrolAxis (ModeSelect.updateState player survival j) = patrolAxis j /\
  patrolMin (ModeSelect.updateState player survival j) = patrolMin j /\
  patrolMax (ModeSelect.updateState player survival j) = patrolMax j /\
  position (ModeSelect.updateState player survival j) = position j /\
  (globalChase (ModeSelect.updateState player survival j) = false ->
   globalChase j = false).
Proof.
  unfold ModeSelect.updateState. cbn [isSurvival].
  destruct (playerInLane player j && negb (stateEqb (state j) chasing));
    cbn; repeat split; auto. discriminate.
Qed.

Lemma local_moveJumper (jumpHeightAt : Q -> Q) (player : Vector3)
    (gameMode : GameMode) (maze : Maze) (j : Jumper) :
  globalChase j = false ->
  ModeSelect.moveJumper jumpHeightAt player gameMode maze j =
  Some (Basic.moveJumper jumpHeightAt player j).
Proof.
  intro Hg. unfold ModeSelect.moveJumper, Basic.moveJumper.
  rewrite Hg. cbn [andb].
  destruct (state j); reflexivity.
Qed.

Lemma survival_frame_free (jumpHeightAt : Q -> Q) (player : Vector3)
    (maze : Maze) (c : Corridor) (j j' : Jumper) :
  isMaximalRun maze c ->
  inWallCell maze (position j) = false ->
  globalChase j = true \/ onPatrol c j ->
  ModeSelect.updateJumper jumpHeightAt player survival maze j = Some j' ->
  inWallCell maze (position j') = false /\
  (globalChase j' = true \/ onPatrol c j').
Proof.
  intros Hrun Hfree Hj Hstep. unfold ModeSelect.updateJumper in Hstep.
  destruct (survival_updateState_fields player j)
    as (Hlane & Haxis & Hmin & Hmax & Hpos & Hback).
  destruct (globalChase (ModeSelect.updateState player survival j)) eqn:Hg.
  - apply survival_move_avoids in Hstep;
      [| exact Hg | rewrite Hpos; exact Hfree].
    destruct Hstep as [Hg' Hfree']. auto.
  - rewrite (local_moveJumper _ _ _ _ _ Hg) in Hstep. injection Hstep as <-.
    destruct Hj as [Hglobal | Hpatrol];
      [rewrite (Hback eq_refl) in Hglobal; discriminate Hglobal |].
    assert (Hc : (cstart c < cend c)%Z)
      by (destruct Hrun as (_ & _ & _ & H & _); exact H).
    assert (Hp : onPatrol c
                   (Basic.moveJumper jumpHeightAt player
                      (ModeSelect.updateState player survival j))).
    { apply move_onPatrol; [exact Hc |].
      unfold onPatrol in *. rewrite Hlane, Haxis, Hmin, Hmax, Hpos.
      exact Hpatrol. }
    split; [apply (onPatrol_free maze c _ Hrun Hp) | right; exact Hp].
Qed.

Lemma survival_run_free (jumpHeightAt : Q -> Q) (maze : Maze) (c : Corridor)
    (players : list Vector3) :
  isMaximalRun maze c ->
  forall j j' : Jumper,
    inWallCell maze (position j) = false ->
    globalChase j = true \/ onPatrol c j ->
    ModeSelect.run jumpHeightAt survival maze players j = Some j' ->
    inWallCell maze (position j') = false.
Proof.
  intro Hrun.
  induction players as [| player rest IH]; intros j j' Hfree Hj Hr;
    cbn [ModeSelect.run] in Hr.
  - injection Hr as <-. exact Hfree.
  - destruct (ModeSelect.updateJumper jumpHeightAt player survival maze j)
      as [j1 |] eqn:Hstep; [| discriminate Hr].
    destruct (survival_frame_free _ _ _ _ _ _ Hrun Hfree Hj Hstep)
      as [Hfree1 Hj1].
    exact (IH j1 j' Hfree1 Hj1 Hr).
Qed.

(** X25.  An agent of Survival is never in a wall.  On a grid with its
    30 rows, every agent [createJumpers] makes is, after any number of
    Survival frames, wherever the player goes, in a cell inside the
    grid that is no wall: it keeps to its corridor until it sees the
    player, and chases globally from free cell to free cell after. *)
Theorem survival_agents_avoid_walls (jumpHeightAt : Q -> Q)
    (phase : nat -> Q) (maze : Maze) (players : list Vector3) (j : Jumper) :
  hasRows maze ->
  In j (createJumpers phase maze) ->
  exists j' : Jumper,
    ModeSelect.run jumpHeightAt survival maze players j = Some j' /\
    inWallCell maze (position j') = false.
Proof.
  intros Hrows Hj.
  destruct (survival_run_keeps jumpHeightAt maze Hrows players j)
    as (j' & Hr & _).
  exists j'. split; [exact Hr |].
  destruct (createJumpers_In phase maze j Hj) as (i & c & Hc & ->).
  pose proof (found_is_maximal maze c Hc) as Hrun.
  assert (Hlt : (cstart c < cend c)%Z)
    by (destruct Hrun as (_ & _ & _ & H & _); exact H).
  pose proof (spawn_onPatrol (phase i) c Hlt) as Hp.
  apply (survival_run_free jumpHeightAt maze c players Hrun
           (spawnJumper (phase i) c) j');
    [apply (onPatrol_free maze c _ Hrun Hp) | right; exact Hp | exact Hr].
Qed.

(** [survival_agents_avoid_walls] in the sentinel's corridor: the
    player comes in sight, then goes off across the wall. *)
Lemma survival_agents_avoid_walls_witness :
  hasRows Scenario.corridorGrid /\
  In Scenario.sentinel (createJumpers (fun _ => 0) Scenario.corridorGrid) /\
  exists j' : Jumper,
    ModeSelect.run Scenario.flat survival Scenario.corridorGrid
      [ Scenario.playerInSight; Scenario.playerFarAlongZ ]
      Scenario.sentinel = Some j' /\
    inWallCell Scenario.corridorGrid (position j') = false.
Proof.
  assert (Hrows : hasRows Scenario.corridorGrid) by reflexivity.
  assert (Hin : In Scenario.sentinel
                  (createJumpers (fun _ => 0) Scenario.corridorGrid)).
  { vm_compute. left. reflexivity. }
  split; [exact Hrows |]. split; [exact Hin |].
  exact (survival_agents_avoid_walls Scenario.flat (fun _ => 0)
           Scenario.corridorGrid
           [ Scenario.playerInSight; Scenario.playerFarAlongZ ]
           Scenario.sentinel Hrows Hin).
Defined.

(** ** The monsters spawned after a kill *)

Import Monsters.

Lemma scanLinePlain_incl (t : CorridorType) (fixed : Z) (cellOpen : Z -> bool)
    (line : list Z) :
  forall (start length : Z) (acc acc' : list Corridor),
    incl acc acc' ->
    incl (scanLinePlain t fixed cellOpen line start length acc)
         (scanLine t fixed cellOpen line start length acc').
Proof.
  assert (Hpush : forall (acc acc' : list Corridor) (c : Corridor),
             incl acc acc' -> incl (acc ++ [ c ]) (pushNew acc' c)).
  { intros acc acc' c H x Hx. apply in_app_iff in Hx.
    destruct Hx as [Hx | [<- | []]];
      [apply pushNew_keeps, H, Hx | apply pushNew_has]. }
  induction line as [| i rest IH]; intros start length acc acc' H;
    cbn [scanLinePlain scanLine].
  - destruct (length >=? 2)%Z; [apply Hpush |]; exact H.
  - destruct (cellOpen i); apply IH; [exact H |].
    destruct (length >=? 2)%Z; [apply Hpush |]; exact H.
Qed.

Lemma findCorridorsPlain_incl (maze : Maze) :
  incl (findCorridorsPlain maze) (findCorridors maze).
Proof.
  unfold findCorridorsPlain, findCorridors.
  assert (Hfold : forall (t : CorridorType) (cellOpen : Z -> Z -> bool)
                         (lines : list Z) (acc acc' : list Corridor),
             incl acc acc' ->
             incl (fold_left
                     (fun a k => scanLinePlain t k (cellOpen k) inner (-1)%Z 0%Z a)
                     lines acc)
                  (fold_left
                     (fun a k => scanLine t k (cellOpen k) inner (-1)%Z 0%Z a)
                     lines acc')).
  { intros t cellOpen lines.
    induction lines as [| k rest IH]; intros acc acc' H; cbn [fold_left];
      [exact H |].
    apply IH, scanLinePlain_incl, H. }
  cbv zeta.
  apply (Hfold vertical (fun x z => isOpen maze (x, z))).
  apply (Hfold horizontal (fun z x => isOpen maze (x, z))).
  apply incl_refl.
Qed.

Lemma pickFar_In (random : nat -> Q) (player : Vector3)
    (corridors : list Corridor) (attempts : nat) :
  forall (n : nat) (selected : option (Corridor * Q)) (c : Corridor) (d : Q)
         (n' : nat),
    (forall c0 d0, selected = Some (c0, d0) -> In c0 corridors) ->
    pickFar random player corridors attempts n selected = Some (Some (c, d), n') ->
    In c corridors.
Proof.
  induction attempts as [| k IH]; intros n selected c d n' Hsel H;
    cbn [pickFar] in H.
  - injection H as -> _. apply (Hsel c d eq_refl).
  - destruct (index corridors _) as [test |] eqn:Hidx; [| discriminate H].
    apply index_In in Hidx.
    destruct (corridorCenter test) as [tx tz].
    eapply IH; [| exact H].
    intros c0 d0 E.
    match type of E with
    | (if ?b then _ else _) = _ => destruct b
    end; [injection E as <- _; exact Hidx | apply (Hsel c0 d0 E)].
Qed.

Lemma spawnMonster_onPatrol (phase : Q) (c : Corridor) :
  (cstart c < cend c)%Z -> onPatrol c (spawnMonster phase c).
Proof.
  intro H. apply toWorld_lt in H.
  unfold onPatrol, spawnMonster, corridorAxis.
  destruct (ctype c); cbn [laneInfo axis patrolAxis fixedCoord patrolMin
                             patrolMax position across along vx vz];
    repeat split; try reflexivity;
    set (ws := toWorld (cstart c)) in *; set (we := toWorld (cend c)) in *;
    try (apply Qle_shift_div_l; [reflexivity | lra]);
    try (apply Qle_shift_div_r; [reflexivity | lra]).
Qed.

Lemma spawnLoop_In (random phase : nat -> Q) (player : Vector3)
    (corridors : list Corridor) (count : nat) :
  forall (n : nat) (jumpers jumpers' : list Jumper) (n' : nat) (m : Jumper),
    spawnLoop random phase player corridors count n jumpers =
      Some (jumpers', n') ->
    In m jumpers' ->
    In m jumpers \/
    exists (q : Q) (c : Corridor), In c corridors /\ m = spawnMonster q c.
Proof.
  induction count as [| k IH]; intros n jumpers jumpers' n' m H Hm;
    cbn [spawnLoop] in H.
  - injection H as <- _. left. exact Hm.
  - destruct (pickFar random player corridors _ n None)
      as [[[[c d] |] n1] |] eqn:Hpick; try discriminate H.
    apply pickFar_In in Hpick; [| intros c0 d0 E; discriminate E].
    destruct (IH _ _ _ _ m H Hm) as [Hin | Hnew]; [| right; exact Hnew].
    apply in_app_iff in Hin. destruct Hin as [Hin | [<- | []]];
      [left; exact Hin | right; eauto].
Qed.

(** X26.  The reinforcements of Survival keep out of the walls too.
    On a grid with its 30 rows, every monster a returning call of
    [spawnSurvivalMonsters] pushes stands in an open cell, whatever the
    draws and wherever the player is, and is in no wall cell after any
    number of Survival frames. *)
Theorem survival_monsters_avoid_walls (jumpHeightAt : Q -> Q)
    (random phase : nat -> Q) (player : Vector3) (maze : Maze)
    (count n : nat) (jumpers jumpers' : list Jumper) (n' : nat)
    (m : Jumper) (players : list Vector3) :
  hasRows maze ->
  spawnSurvivalMonsters random phase player maze count n jumpers =
    Some (jumpers', n') ->
  In m jumpers' ->
  In m jumpers \/
  (isOpen maze (gridCoord (position m)) = true /\
   exists m' : Jumper,
     ModeSelect.run jumpHeightAt survival maze players m = Some m' /\
     inWallCell maze (position m') = false).
Proof.
  intros Hrows Hspawn Hm. unfold spawnSurvivalMonsters in Hspawn.
  destruct (length maze =? 0)%nat;
    [injection Hspawn as <- _; left; exact Hm |].
  destruct (length (findCorridorsPlain maze) =? 0)%nat;
    [injection Hspawn as <- _; left; exact Hm |].
  destruct (spawnLoop_In _ _ _ _ _ _ _ _ _ m Hspawn Hm)
    as [Hold | (q & c & Hc & ->)]; [left; exact Hold | right].
  apply findCorridorsPlain_incl, found_is_maximal in Hc.
  assert (Hlt : (cstart c < cend c)%Z)
    by (destruct Hc as (_ & _ & _ & H & _); exact H).
  pose proof (spawnMonster_onPatrol q c Hlt) as Hp.
  split.
  - pose proof (onPatrol_inside c _ Hp) as Hin.
    destruct Hc as (_ & _ & _ & _ & _ & Hopen & _).
    unfold insideCorridor in Hin. unfold cellAt in Hopen.
    destruct (gridCoord (position (spawnMonster q c))) as [gx gz].
    cbn [fst snd] in Hin.
    destruct (ctype c); destruct Hin as [E Hrange]; rewrite E;
      apply Hopen, Hrange.
  - destruct (survival_run_keeps jumpHeightAt maze Hrows players
                (spawnMonster q c)) as (m' & Hr & _).
    exists m'. split; [exact Hr |].
    apply (survival_run_free jumpHeightAt maze c players Hc
             (spawnMonster q c) m');
      [apply (onPatrol_free maze c _ Hc Hp) | right; exact Hp | exact Hr].
Qed.

(** [survival_monsters_avoid_walls] in the sentinel's corridor: one
    monster spawned, every draw being 0. *)
Lemma survival_monsters_avoid_walls_witness :
  spawnSurvivalMonsters (fun _ => 0) (fun _ => 0) Scenario.playerInSight
    Scenario.corridorGrid 1 0 [] =
    Some ([ spawnMonster 0 (runCorridor horizontal 15 13 5) ], 2%nat) /\
  exists m' : Jumper,
    ModeSelect.run Scenario.flat survival Scenario.corridorGrid
      [ Scenario.playerInSight ]
      (spawnMonster 0 (runCorridor horizontal 15 13 5)) = Some m' /\
    inWallCell Scenario.corridorGrid (position m') = false.
Proof.
  assert (Hrows : hasRows Scenario.corridorGrid) by reflexivity.
  assert (H : spawnSurvivalMonsters (fun _ => 0) (fun _ => 0)
                Scenario.playerInSight Scenario.corridorGrid 1 0 [] =
              Some ([ spawnMonster 0 (runCorridor horizontal 15 13 5) ],
                    2%nat)).
  { vm_compute. reflexivity. }
  split; [exact H |].
  destruct (survival_monsters_avoid_walls Scenario.flat _ _ _ _ _ _ _ _ _
              (spawnMonster 0 (runCorridor horizontal 15 13 5))
              [ Scenario.playerInSight ] Hrows H (or_introl eq_refl))
    as [[] | [_ Hex]].
  exact Hex.
Defined.
